(** * The CWA proxy function, embedded in Rocq

    The repository is one asynchronous Netlify function that forwards a
    browser request to the CWA open-data API, in two versions:
    src/unnamed/part_000 reads the upstream body as text and parses it in a
    [try] of its own; src/netlify/functions/cwa-proxy.js parses it with
    [response.json()].  Both are embedded shallowly, as [Part000.handler] and
    [CwaProxy.handler]: JavaScript strings are lists of UTF-16 code units,
    the values of [JSON.parse] are an inductive type, the awaited [fetch] is
    the one effect of a small interaction monad, and exceptions are explicit.
    The calls of [console] change nothing of this; they are kept apart, in
    [Part000Logged.handler] and [CwaProxyLogged.handler], whose runs record
    them between the requests.  The runtime operations the handlers
    call ([JSON.parse], [JSON.stringify], [URLSearchParams], template
    literals, [||], [!], Number::toString) are written out after ECMA-262 and
    the WHATWG URL standard; the texts of the errors the engine raises itself
    are a parameter. *)

From Stdlib Require Import String Ascii List NArith ZArith Lia Bool.
Import ListNotations.

Open Scope N_scope.

(** ** JavaScript strings: sequences of UTF-16 code units *)

Definition jsstring := list N.

(** An ASCII literal of the source text. *)
Definition js (s : string) : jsstring :=
  map N_of_ascii (list_ascii_of_string s).

(** The same, where an apostrophe of the literal stands for the double
    quote (code unit 34). *)
Definition jsq (s : string) : jsstring :=
  map (fun c => if c =? 39 then 34 else c) (js s).

Fixpoint str_eqb (a b : jsstring) : bool :=
  match a, b with
  | [], [] => true
  | x :: a', y :: b' => (x =? y) && str_eqb a' b'
  | _, _ => false
  end.

(** [s.substring(0, n)] *)
Definition substring0 (n : nat) (s : jsstring) : jsstring := firstn n s.

Definition is_digit (c : N) : bool := (48 <=? c) && (c <=? 57).

(** Decimal digits of a natural number, most significant first. *)
Fixpoint digits_fuel (fuel : nat) (n : N) (acc : jsstring) : jsstring :=
  match fuel with
  | O => acc
  | S f =>
      let acc' := (48 + n mod 10) :: acc in
      if n / 10 =? 0 then acc' else digits_fuel f (n / 10) acc'
  end.

Definition decimal (n : N) : jsstring :=
  digits_fuel (S (N.to_nat (N.log2 n))) n [].

(** Value of a run of decimal digits. *)
Definition digits_value (ds : jsstring) : N :=
  fold_left (fun a c => 10 * a + (c - 48)) ds 0.

Fixpoint join (sep : jsstring) (l : list jsstring) : jsstring :=
  match l with
  | [] => []
  | [x] => x
  | x :: r => x ++ sep ++ join sep r
  end.

(** ** Numbers: IEEE 754 binary64 values

    A finite value is [(-1)^neg * m * 2^e]; the values [StringToNumber]
    produces have [m < 2^53], [-1074 <= e <= 971] and [2^52 <= m] unless
    [e = -1074]. *)

Module Number.

Inductive number :=
| NaN
| Infinity (neg : bool)
| Finite (neg : bool) (m : N) (e : Z).

Definition eqb (a b : number) : bool :=
  match a, b with
  | NaN, NaN => true
  | Infinity s, Infinity t => Bool.eqb s t
  | Finite s m e, Finite t m' e' => Bool.eqb s t && (m =? m') && (e =? e')%Z
  | _, _ => false
  end.

Definition is_finite (x : number) : bool :=
  match x with Finite _ _ _ => true | _ => false end.

Open Scope Z_scope.

(** Quotient, remainder and divisor of [num / (den * 2^e)]. *)
Definition scaled_div (num den e : Z) : Z * Z * Z :=
  let n' := if 0 <=? e then num else num * 2 ^ (- e) in
  let d' := if 0 <=? e then den * 2 ^ e else den in
  (n' / d', n' mod d', d').

Definition round_half_even (q r d : Z) : Z :=
  match 2 * r ?= d with
  | Lt => q
  | Gt => q + 1
  | Eq => if Z.even q then q else q + 1
  end.

(** The binary64 value nearest to [num / den] (ties to even), for
    [0 <= num] and [0 < den]. *)
Definition nearest (neg : bool) (num den : Z) : number :=
  if num =? 0 then Finite neg 0 (-1074) else
  let e1 := Z.log2 num - Z.log2 den - 53 in
  let '(q1, _, _) := scaled_div num den e1 in
  let e2 := if 2 ^ 53 <=? q1 then e1 + 1 else e1 in
  let e := Z.max e2 (-1074) in
  let '(q, r, d) := scaled_div num den e in
  let m := round_half_even q r d in
  let '(m, e) := if m =? 2 ^ 53 then (2 ^ 52, e + 1) else (m, e) in
  if 971 <? e then Infinity neg else Finite neg (Z.to_N m) e.

(** The Number value of the decimal [d * 10^x]. *)
Definition of_decimal (neg : bool) (d : N) (x : Z) : number :=
  if 0 <=? x then nearest neg (Z.of_N d * 10 ^ x) 1
  else nearest neg (Z.of_N d) (10 ^ (- x)).

(** [m * 2^e < 10^n] *)
Definition below_pow10 (m : N) (e n : Z) : bool :=
  let vn := if 0 <=? e then Z.of_N m * 2 ^ e else Z.of_N m in
  let vd := if 0 <=? e then 1 else 2 ^ (- e) in
  if 0 <=? n then vn <? vd * 10 ^ n else vn * 10 ^ (- n) <? vd.

(** The least [n], from [n0] on, with [m * 2^e < 10^n]. *)
Fixpoint magnitude (fuel : nat) (m : N) (e n0 : Z) : Z :=
  match fuel with
  | O => n0
  | S f => if below_pow10 m e n0 then n0 else magnitude f m e (n0 + 1)
  end.

(** The two integers around [m * 2^e / 10^scale], with the remainder and
    the divisor of the lower one. *)
Definition around (m : N) (e scale : Z) : Z * Z * Z :=
  let vn := if 0 <=? e then Z.of_N m * 2 ^ e else Z.of_N m in
  let vd := if 0 <=? e then 1 else 2 ^ (- e) in
  let n' := if 0 <=? scale then vn else vn * 10 ^ (- scale) in
  let d' := if 0 <=? scale then vd * 10 ^ scale else vd in
  (n' / d', n' mod d', d').

(** Number::toString, step 5: the shortest [s * 10^scale] whose Number
    value is [m * 2^e], tried with [k], [k + 1], ... digits. *)
Fixpoint shortest (fuel : nat) (m : N) (e n k : Z) : Z * Z :=
  let scale := n - k in
  let '(lo, r, d) := around m e scale in
  match fuel with
  | O => (lo, scale)
  | S f =>
      let back c := eqb (of_decimal false (Z.to_N c) scale) (Finite false m e) in
      match back lo, back (lo + 1) with
      | true, true => (round_half_even lo r d, scale)
      | true, false => (lo, scale)
      | false, true => (lo + 1, scale)
      | false, false => shortest f m e n (k + 1)
      end
  end.

(** Trailing zeros of [s] moved into the scale. *)
Fixpoint strip_zeros (fuel : nat) (s scale : Z) : Z * Z :=
  match fuel with
  | O => (s, scale)
  | S f =>
      if (s mod 10 =? 0) && negb (s =? 0) then strip_zeros f (s / 10) (scale + 1)
      else (s, scale)
  end.

(** The digits [s] (positive; at least [10^(k-1)] by construction) and the
    exponent [n] of Number::toString for the finite non-zero [m * 2^e]. *)
Definition digits_and_exponent (m : N) (e : Z) : positive * Z :=
  let n := magnitude 640 m e (-323) in
  let '(s, scale) := shortest 17 m e n 1 in
  let '(s, scale) := strip_zeros 20 s scale in
  let p := Z.to_pos s in
  (p, Z.of_nat (length (decimal (Npos p))) + scale).

Definition zeros (n : Z) : jsstring := repeat 48%N (Z.to_nat n).

(** Number::toString, steps 6 to 10. *)
Definition format (p : positive) (n : Z) : jsstring :=
  let ds := decimal (Npos p) in
  let k := Z.of_nat (length ds) in
  if (k <=? n) && (n <=? 21) then ds ++ zeros (n - k)
  else if (0 <? n) && (n <=? 21) then
    firstn (Z.to_nat n) ds ++ js "." ++ skipn (Z.to_nat n) ds
  else if (-6 <? n) && (n <=? 0) then js "0." ++ zeros (- n) ++ ds
  else
    let x := n - 1 in
    let ex := js (if 0 <=? x then "e+" else "e-") ++ decimal (Z.to_N (Z.abs x)) in
    match ds with
    | [d] => [d] ++ ex
    | d :: rest => [d] ++ js "." ++ rest ++ ex
    | [] => ex
    end.

(** Number::toString(x), radix 10. *)
Definition to_string (x : number) : jsstring :=
  match x with
  | NaN => js "NaN"
  | Infinity neg => (if neg then js "-" else []) ++ js "Infinity"
  | Finite neg m e =>
      if (m =? 0)%N then js "0"
      else
        let '(p, n) := digits_and_exponent m e in
        (if neg then js "-" else []) ++ format p n
  end.

(** ToBoolean of a Number: false for +0, -0 and NaN. *)
Definition truthy (x : number) : bool :=
  match x with
  | NaN => false
  | Infinity _ => true
  | Finite _ m _ => negb (m =? 0)%N
  end.

Close Scope Z_scope.

End Number.

(** ** Exceptions *)

(** An [Error] object; the handler reads only its [message]. *)
Record Error := mkError { message : jsstring }.

Inductive completion (A : Type) :=
| Normal (a : A)
| Throw (e : Error).
Arguments Normal {A} a.
Arguments Throw {A} e.

(** The texts the engine chooses for the errors it raises itself. *)
Record engine := {
  (** message of the SyntaxError of [JSON.parse] on a given text *)
  syntax_error_message : jsstring -> jsstring;
  (** message of the TypeError of reading a property of [null] *)
  null_read_message : jsstring -> jsstring;
  (** message of the TypeError of an object that converts to no primitive *)
  to_primitive_message : jsstring;
  (** message of the TypeError of destructuring [null] or [undefined] *)
  destructure_message : jsstring
}.

(** ** JSON values, [JSON.parse] and [JSON.stringify] *)

(** The values [JSON.parse] builds.  An object is the list of its own
    properties in [[OwnPropertyKeys]] order. *)
Unset Elimination Schemes.
Inductive json :=
| JNull
| JBool (b : bool)
| JNumber (x : Number.number)
| JString (s : jsstring)
| JArray (l : list json)
| JObject (l : list (jsstring * json)).
Set Elimination Schemes.

Definition hex_digit (n : N) : N := if n <? 10 then 48 + n else 87 + n.

(** UnicodeEscape: [\uXXXX], lower-case hexadecimal. *)
Definition unicode_escape (c : N) : jsstring :=
  [92; 117; hex_digit (c / 4096 mod 16); hex_digit (c / 256 mod 16);
   hex_digit (c / 16 mod 16); hex_digit (c mod 16)].

Definition is_high_surrogate (c : N) : bool := (55296 <=? c) && (c <=? 56319).
Definition is_low_surrogate (c : N) : bool := (56320 <=? c) && (c <=? 57343).

Definition escape_unit (c : N) : jsstring :=
  if c =? 8 then js "\b"
  else if c =? 9 then js "\t"
  else if c =? 10 then js "\n"
  else if c =? 12 then js "\f"
  else if c =? 13 then js "\r"
  else if c =? 34 then [92; 34]
  else if c =? 92 then [92; 92]
  else if c <? 32 then unicode_escape c
  else [c].

Fixpoint quote_units (s : jsstring) : jsstring :=
  match s with
  | [] => []
  | c :: r =>
      if is_high_surrogate c then
        match r with
        | d :: r' =>
            if is_low_surrogate d then c :: d :: quote_units r'
            else unicode_escape c ++ quote_units r
        | [] => unicode_escape c
        end
      else if is_low_surrogate c then unicode_escape c ++ quote_units r
      else escape_unit c ++ quote_units r
  end.

(** QuoteJSONString *)
Definition QuoteJSONString (s : jsstring) : jsstring :=
  [34] ++ quote_units s ++ [34].

(** [JSON.stringify(v)] with no replacer and no indentation. *)
Fixpoint JSON_stringify (v : json) : jsstring :=
  match v with
  | JNull => js "null"
  | JBool b => if b then js "true" else js "false"
  | JNumber x => if Number.is_finite x then Number.to_string x else js "null"
  | JString s => QuoteJSONString s
  | JArray l => js "[" ++ join (js ",") (map JSON_stringify l) ++ js "]"
  | JObject l =>
      js "{"
      ++ join (js ",")
           (map (fun kv => QuoteJSONString (fst kv) ++ js ":" ++ JSON_stringify (snd kv)) l)
      ++ js "}"
  end.

(** *** Objects *)

Fixpoint get {A : Type} (l : list (jsstring * A)) (k : jsstring) : option A :=
  match l with
  | [] => None
  | (k', v) :: r => if str_eqb k' k then Some v else get r k
  end.

Definition has {A : Type} (l : list (jsstring * A)) (k : jsstring) : bool :=
  match get l k with Some _ => true | None => false end.

(** The array index a property key denotes, if any: a canonical decimal
    numeral below 2^32 - 1. *)
Definition array_index (k : jsstring) : option N :=
  match k with
  | [] => None
  | c :: r =>
      if forallb is_digit k && (negb (c =? 48) || (List.length r =? 0)%nat)
         && (List.length k <=? 10)%nat && (digits_value k <? 4294967295)
      then Some (digits_value k) else None
  end.

Fixpoint replace_value {A : Type} (l : list (jsstring * A)) (k : jsstring) (v : A)
  : list (jsstring * A) :=
  match l with
  | [] => []
  | (k', v') :: r =>
      if str_eqb k' k then (k', v) :: r else (k', v') :: replace_value r k v
  end.

(** A new index key goes before the first key that is no index or a
    larger one. *)
Fixpoint insert_index {A : Type} (l : list (jsstring * A)) (i : N) (k : jsstring) (v : A)
  : list (jsstring * A) :=
  match l with
  | [] => [(k, v)]
  | (k', v') :: r =>
      match array_index k' with
      | Some j => if j <? i then (k', v') :: insert_index r i k v else (k, v) :: l
      | None => (k, v) :: l
      end
  end.

(** CreateDataProperty on an ordinary object: an existing key keeps its
    place; new index keys are kept in ascending order before the other
    keys, which stay in creation order. *)
Definition CreateDataProperty {A : Type} (l : list (jsstring * A)) (k : jsstring) (v : A)
  : list (jsstring * A) :=
  if has l k then replace_value l k v
  else match array_index k with
       | Some i => insert_index l i k v
       | None => l ++ [(k, v)]
       end.

(** *** The JSON grammar *)

Definition is_ws (c : N) : bool :=
  (c =? 9) || (c =? 10) || (c =? 13) || (c =? 32).

Fixpoint skip_ws (s : jsstring) : jsstring :=
  match s with
  | c :: r => if is_ws c then skip_ws r else s
  | [] => []
  end.

Fixpoint scan_digits (s : jsstring) : jsstring * jsstring :=
  match s with
  | c :: r =>
      if is_digit c then let '(ds, rest) := scan_digits r in (c :: ds, rest)
      else ([], s)
  | [] => ([], [])
  end.

Fixpoint strip_prefix (p s : jsstring) : option jsstring :=
  match p, s with
  | [], _ => Some s
  | a :: p', b :: s' => if a =? b then strip_prefix p' s' else None
  | _ :: _, [] => None
  end.

(** The integer part: [0], or a non-zero digit and more digits. *)
Definition scan_int (s : jsstring) : option (jsstring * jsstring) :=
  match s with
  | c :: r =>
      if c =? 48 then Some ([c], r)
      else if is_digit c then let '(ds, rest) := scan_digits r in Some (c :: ds, rest)
      else None
  | [] => None
  end.

(** The optional fraction: a point and at least one digit. *)
Definition scan_frac (s : jsstring) : option (jsstring * jsstring) :=
  match s with
  | c :: r =>
      if c =? 46 then
        match scan_digits r with
        | ([], _) => None
        | (ds, rest) => Some (ds, rest)
        end
      else Some ([], s)
  | [] => Some ([], [])
  end.

(** The optional sign of an exponent. *)
Definition scan_sign (s : jsstring) : bool * jsstring :=
  match s with
  | d :: r => if d =? 45 then (true, r) else if d =? 43 then (false, r) else (false, s)
  | [] => (false, [])
  end.

(** The optional exponent: [e] or [E], an optional sign, at least one digit. *)
Definition scan_exp (s : jsstring) : option (Z * jsstring) :=
  match s with
  | c :: r =>
      if (c =? 101) || (c =? 69) then
        let '(neg, r1) := scan_sign r in
        match scan_digits r1 with
        | ([], _) => None
        | (ds, rest) =>
            let x := Z.of_N (digits_value ds) in
            Some (if neg then (- x)%Z else x, rest)
        end
      else Some (0%Z, s)
  | [] => Some (0%Z, [])
  end.

(** The digits of a JSON number after its sign, and the Number value
    (StringToNumber). *)
Definition parse_unsigned (neg : bool) (s : jsstring) : option (Number.number * jsstring) :=
  match scan_int s with
  | Some (int, s2) =>
      match scan_frac s2 with
      | Some (frac, s3) =>
          match scan_exp s3 with
          | Some (x, s4) =>
              Some (Number.of_decimal neg (digits_value (int ++ frac))
                      (x - Z.of_nat (List.length frac)), s4)
          | None => None
          end
      | None => None
      end
  | None => None
  end.

Definition parse_number (s : jsstring) : option (Number.number * jsstring) :=
  match s with
  | c :: r => if c =? 45 then parse_unsigned true r else parse_unsigned false s
  | [] => None
  end.

Definition hex_value (c : N) : option N :=
  if is_digit c then Some (c - 48)
  else if (97 <=? c) && (c <=? 102) then Some (c - 87)
  else if (65 <=? c) && (c <=? 70) then Some (c - 55)
  else None.

Definition hex4 (a b c d : N) : option N :=
  match hex_value a, hex_value b, hex_value c, hex_value d with
  | Some x, Some y, Some z, Some w => Some (4096 * x + 256 * y + 16 * z + w)
  | _, _, _, _ => None
  end.

Definition simple_escape (c : N) : option N :=
  if c =? 34 then Some 34
  else if c =? 92 then Some 92
  else if c =? 47 then Some 47
  else if c =? 98 then Some 8
  else if c =? 102 then Some 12
  else if c =? 110 then Some 10
  else if c =? 114 then Some 13
  else if c =? 116 then Some 9
  else None.

Definition cons_unit (c : N) (r : option (jsstring * jsstring)) : option (jsstring * jsstring) :=
  match r with
  | Some (s, rest) => Some (c :: s, rest)
  | None => None
  end.

(** The characters of a string, after its opening quote, up to and with
    the closing one. *)
Fixpoint string_chars (s : jsstring) : option (jsstring * jsstring) :=
  match s with
  | [] => None
  | c :: r =>
      if c =? 34 then Some ([], r)
      else if c <? 32 then None
      else if c =? 92 then
        match r with
        | e :: r1 =>
            if e =? 117 then
              match r1 with
              | h1 :: h2 :: h3 :: h4 :: r2 =>
                  match hex4 h1 h2 h3 h4 with
                  | Some u => cons_unit u (string_chars r2)
                  | None => None
                  end
              | _ => None
              end
            else
              match simple_escape e with
              | Some u => cons_unit u (string_chars r1)
              | None => None
              end
        | [] => None
        end
      else cons_unit c (string_chars r)
  end.

Definition parse_literal (s : jsstring) : option (json * jsstring) :=
  match strip_prefix (js "true") s with
  | Some r => Some (JBool true, r)
  | None =>
      match strip_prefix (js "false") s with
      | Some r => Some (JBool false, r)
      | None =>
          match strip_prefix (js "null") s with
          | Some r => Some (JNull, r)
          | None =>
              match parse_number s with
              | Some (x, r) => Some (JNumber x, r)
              | None => None
              end
          end
      end
  end.

(** A value with the white space before it; [parse_elements] and
    [parse_members] read what follows the first element or member of a
    non-empty array or object.  Each call on the way down spends one unit of
    fuel; [JSON_parse] gives more than the text can use. *)
Fixpoint parse_value (fuel : nat) (s : jsstring) : option (json * jsstring) :=
  match fuel with
  | O => None
  | S f =>
      match skip_ws s with
      | [] => None
      | c :: r =>
          if c =? 123 then
            match skip_ws r with
            | c' :: r' =>
                if c' =? 125 then Some (JObject [], r') else parse_members f (c' :: r') []
            | [] => None
            end
          else if c =? 91 then
            match skip_ws r with
            | c' :: r' =>
                if c' =? 93 then Some (JArray [], r') else parse_elements f (c' :: r') []
            | [] => None
            end
          else if c =? 34 then
            match string_chars r with
            | Some (str, rest) => Some (JString str, rest)
            | None => None
            end
          else parse_literal (c :: r)
      end
  end
with parse_elements (fuel : nat) (s : jsstring) (acc : list json) : option (json * jsstring) :=
  match fuel with
  | O => None
  | S f =>
      match parse_value f s with
      | Some (v, r) =>
          match skip_ws r with
          | c :: r' =>
              if c =? 44 then parse_elements f r' (v :: acc)
              else if c =? 93 then Some (JArray (rev (v :: acc)), r')
              else None
          | [] => None
          end
      | None => None
      end
  end
with parse_members (fuel : nat) (s : jsstring) (acc : list (jsstring * json))
  : option (json * jsstring) :=
  match fuel with
  | O => None
  | S f =>
      match skip_ws s with
      | c :: r =>
          if c =? 34 then
            match string_chars r with
            | Some (k, r1) =>
                match skip_ws r1 with
                | c1 :: r2 =>
                    if c1 =? 58 then
                      match parse_value f r2 with
                      | Some (v, r3) =>
                          match skip_ws r3 with
                          | c3 :: r4 =>
                              if c3 =? 44 then parse_members f r4 (CreateDataProperty acc k v)
                              else if c3 =? 125 then
                                Some (JObject (CreateDataProperty acc k v), r4)
                              else None
                          | [] => None
                          end
                      | None => None
                      end
                    else None
                | [] => None
                end
            | None => None
            end
          else None
      | [] => None
      end
  end.

(** [JSON.parse(text)]: [None] stands for the SyntaxError. *)
Definition JSON_parse (text : jsstring) : option json :=
  match parse_value (S (List.length text)) text with
  | Some (v, rest) =>
      match skip_ws rest with
      | [] => Some v
      | _ :: _ => None
      end
  | None => None
  end.

(** What [JSON.parse] makes of the text [JSON.stringify] writes for a
    number: [null] for NaN and the infinities, else the Number value of the
    decimal digits of Number::toString. *)
Definition reparsed (x : Number.number) : json :=
  if Number.is_finite x then
    match parse_number (Number.to_string x) with
    | Some (y, _) => JNumber y
    | None => JNull
    end
  else JNull.

(** What [JSON.parse] makes of the text [JSON.stringify] writes for a
    value: the same strings, booleans and structure, the properties of an
    object defined again one after the other. *)
Fixpoint normalize (v : json) : json :=
  match v with
  | JNull => JNull
  | JBool b => JBool b
  | JNumber x => reparsed x
  | JString s => JString s
  | JArray l => JArray (map normalize l)
  | JObject l =>
      JObject (fold_left (fun acc kv => CreateDataProperty acc (fst kv) (normalize (snd kv)))
                 l [])
  end.

(** *** Conversions of the values [JSON.parse] builds *)

(** ToBoolean; [None] is [undefined]. *)
Definition ToBoolean (v : option json) : bool :=
  match v with
  | None => false
  | Some JNull => false
  | Some (JBool b) => b
  | Some (JNumber x) => Number.truthy x
  | Some (JString s) => negb (str_eqb s [])
  | Some (JArray _) => true
  | Some (JObject _) => true
  end.

Definition map_completion {A B : Type} (f : A -> B) (c : completion A) : completion B :=
  match c with
  | Normal a => Normal (f a)
  | Throw e => Throw e
  end.

(** ToString.  An array converts by [Array.prototype.join], where [null]
    elements give the empty string.  A plain object converts by
    [Object.prototype.toString] unless a property of its own named
    [toString] hides that method: such a property is never callable here, the
    inherited [valueOf] returns the object itself, and OrdinaryToPrimitive
    throws a TypeError. *)
Fixpoint ToString (E : engine) (v : json) : completion jsstring :=
  match v with
  | JNull => Normal (js "null")
  | JBool b => Normal (if b then js "true" else js "false")
  | JNumber x => Normal (Number.to_string x)
  | JString s => Normal s
  | JArray l =>
      map_completion (join (js ","))
        ((fix elements (l : list json) : completion (list jsstring) :=
            match l with
            | [] => Normal []
            | x :: r =>
                match (match x with JNull => Normal [] | _ => ToString E x end) with
                | Normal t => map_completion (cons t) (elements r)
                | Throw e => Throw e
                end
            end) l)
  | JObject l =>
      if has l (js "toString") then Throw (mkError (to_primitive_message E))
      else Normal (js "[object Object]")
  end.

(** [v.name] for a value [v] of [JSON.parse]: own properties only, since
    neither [Object.prototype] nor the prototypes of arrays and of the
    primitive wrappers have a property of the names read here. *)
Definition get_property (E : engine) (v : json) (name : jsstring) : completion (option json) :=
  match v with
  | JNull => Throw (mkError (null_read_message E name))
  | JObject l => Normal (get l name)
  | _ => Normal None
  end.

(** [a || b] *)
Definition or_else (a : option json) (b : json) : json :=
  match a with
  | Some v => if ToBoolean a then v else b
  | None => b
  end.

(** ** [URLSearchParams] *)

(** The code points of a string as the conversion to a USVString reads
    them: a surrogate pair is one code point, a lone surrogate is U+FFFD. *)
Fixpoint code_points (s : jsstring) : list N :=
  match s with
  | [] => []
  | c :: r =>
      if is_high_surrogate c then
        match r with
        | d :: r' =>
            if is_low_surrogate d
            then (65536 + (c - 55296) * 1024 + (d - 56320)) :: code_points r'
            else 65533 :: code_points r
        | [] => [65533]
        end
      else if is_low_surrogate c then 65533 :: code_points r
      else c :: code_points r
  end.

(** UTF-8 bytes of a code point. *)
Definition utf8 (cp : N) : list N :=
  if cp <? 128 then [cp]
  else if cp <? 2048 then
    [N.lor 192 (N.shiftr cp 6); N.lor 128 (N.land cp 63)]
  else if cp <? 65536 then
    [N.lor 224 (N.shiftr cp 12); N.lor 128 (N.land (N.shiftr cp 6) 63);
     N.lor 128 (N.land cp 63)]
  else
    [N.lor 240 (N.shiftr cp 18); N.lor 128 (N.land (N.shiftr cp 12) 63);
     N.lor 128 (N.land (N.shiftr cp 6) 63); N.lor 128 (N.land cp 63)].

Definition is_alnum (b : N) : bool :=
  is_digit b || ((65 <=? b) && (b <=? 90)) || ((97 <=? b) && (b <=? 122)).

(** Bytes the application/x-www-form-urlencoded serializer leaves as they
    are: ASCII letters and digits, [*], [-], [.] and [_]. *)
Definition urlencoded_safe (b : N) : bool :=
  is_alnum b || (b =? 42) || (b =? 45) || (b =? 46) || (b =? 95).

Definition upper_hex (n : N) : N := if n <? 10 then 48 + n else 55 + n.

Definition percent_encode_byte (b : N) : jsstring :=
  [37; upper_hex (N.shiftr b 4); upper_hex (N.land b 15)].

Definition urlencode_byte (b : N) : jsstring :=
  if b =? 32 then [43]
  else if urlencoded_safe b then [b]
  else percent_encode_byte b.

(** A name or a value of the query, serialized. *)
Definition urlencode (cps : list N) : jsstring :=
  flat_map urlencode_byte (flat_map utf8 cps).

(** Setting a key of a WebIDL record, an ordered map. *)
Definition record_set (l : list (list N * list N)) (k v : list N) : list (list N * list N) :=
  if has l k then replace_value l k v else l ++ [(k, v)].

(** [new URLSearchParams(o)] for an object [o] with string values: the
    object is read as a [record<USVString, USVString>], key by key in
    property order, and its entries become the list of pairs. *)
Definition URLSearchParams (o : list (jsstring * jsstring)) : list (list N * list N) :=
  fold_left (fun acc kv => record_set acc (code_points (fst kv)) (code_points (snd kv))) o [].

(** [params.toString()] *)
Definition URLSearchParams_toString (l : list (list N * list N)) : jsstring :=
  join (js "&") (map (fun kv => urlencode (fst kv) ++ js "=" ++ urlencode (snd kv)) l).

(** ** The platform: events, responses, [fetch] *)

(** The event of the invocation.  The handler reads
    [queryStringParameters], an object with one string per key when the
    platform passes one and [null] (here [None]) otherwise; the platform
    also passes the values of a repeated key one by one, in
    [multiValueQueryStringParameters]. *)
Record event := {
  queryStringParameters : option (list (jsstring * jsstring));
  multiValueQueryStringParameters : option (list (jsstring * list jsstring))
}.

(** What the handler returns. *)
Record response := {
  statusCode : N;
  headers : list (jsstring * jsstring);
  body : jsstring
}.

(** [process.env]; a variable that is not set reads as [undefined]. *)
Record process_env := { CWA_API_KEY : option jsstring }.

(** The arguments of [fetch]; with no [method] given the request is a GET. *)
Record request := {
  req_method : jsstring;
  req_url : jsstring;
  req_headers : list (jsstring * jsstring)
}.

(** The upstream [Response]: its status and what awaiting [text()] gives. *)
Record Response := {
  status : N;
  statusText : jsstring;
  text : completion jsstring
}.

(** [response.ok] *)
Definition ok (r : Response) : bool := (200 <=? status r) && (status r <=? 299).

(** Programs that await [fetch]: the continuation gets the settled
    promise. *)
Inductive prog (A : Type) :=
| Ret (a : A)
| Raise (e : Error)
| Await_fetch (rq : request) (k : completion Response -> prog A).
Arguments Ret {A} a.
Arguments Raise {A} e.
Arguments Await_fetch {A} rq k.

Fixpoint bind {A B : Type} (p : prog A) (f : A -> prog B) : prog B :=
  match p with
  | Ret a => f a
  | Raise e => Raise e
  | Await_fetch rq k => Await_fetch rq (fun c => bind (k c) f)
  end.

(** [try { p } catch (error) { h error }] *)
Fixpoint try_catch {A : Type} (p : prog A) (h : Error -> prog A) : prog A :=
  match p with
  | Ret a => Ret a
  | Raise e => h e
  | Await_fetch rq k => Await_fetch rq (fun c => try_catch (k c) h)
  end.

Definition settle {A : Type} (c : completion A) : prog A :=
  match c with
  | Normal a => Ret a
  | Throw e => Raise e
  end.

(** [await fetch(url, { headers })]: a rejected promise throws at the
    [await]. *)
Definition fetch (url : jsstring) (hs : list (jsstring * jsstring)) : prog Response :=
  Await_fetch {| req_method := js "GET"; req_url := url; req_headers := hs |} settle.

Declare Scope prog_scope.
Delimit Scope prog_scope with prog.
Notation "x <- p ;; q" := (bind p (fun x => q))
  (at level 61, p at next level, right associativity) : prog_scope.

(** One run against an upstream that answers each request: the requests
    made, in order, and how the handler's promise settles. *)
Fixpoint run {A : Type} (upstream : request -> completion Response) (p : prog A)
  : list request * completion A :=
  match p with
  | Ret a => ([], Normal a)
  | Raise e => ([], Throw e)
  | Await_fetch rq k =>
      let '(calls, c) := run upstream (k (upstream rq)) in (rq :: calls, c)
  end.

(** ** The handler *)

(** [`${x}`] for a string or [undefined]. *)
Definition template (x : option jsstring) : jsstring :=
  match x with
  | Some s => s
  | None => js "undefined"
  end.

(** [!x] for a string or [undefined]. *)
Definition falsy (x : option jsstring) : bool :=
  match x with
  | Some s => str_eqb s []
  | None => true
  end.

(** The properties [const { datasetId, ...otherParams }] leaves in
    [otherParams]. *)
Definition rest_properties (o : list (jsstring * jsstring)) (taken : jsstring)
  : list (jsstring * jsstring) :=
  filter (fun kv => negb (str_eqb (fst kv) taken)) o.

(** The headers every [return] of the handler writes out. *)
Definition json_cors_headers : list (jsstring * jsstring) :=
  [(js "Content-Type", js "application/json");
   (js "Access-Control-Allow-Origin", js "*")].

Definition cwaApiBaseUrl : jsstring :=
  js "https://opendata.cwa.gov.tw/api/v1/rest/datastore".

(** [`${cwaApiBaseUrl}/${datasetId}?${cwaQueryParams.toString()}`] *)
Definition cwaUrl (datasetId : option jsstring) (otherParams : list (jsstring * jsstring))
  : jsstring :=
  cwaApiBaseUrl ++ js "/" ++ template datasetId ++ js "?"
  ++ URLSearchParams_toString (URLSearchParams otherParams).

(** [{ 'Authorization': `CWA ${CWA_API_KEY}` }] *)
Definition authorization (env : process_env) : list (jsstring * jsstring) :=
  [(js "Authorization", js "CWA " ++ template (CWA_API_KEY env))].

(** The [return] of the validation. *)
Definition missing_datasetId : response :=
  {| statusCode := 400;
     body := JSON_stringify
               (JObject [(js "error", JString (js "Missing datasetId in query parameters."))]);
     headers := json_cors_headers |}.

(** The [return] of the outer [catch (error)]. *)
Definition internal_error (error : Error) : response :=
  {| statusCode := 500;
     body := JSON_stringify
               (JObject [(js "error",
                          JString (js "Serverless Function Internal Error: " ++ message error))]);
     headers := json_cors_headers |}.

(** [`CWA API error (${response.status}): ${data.message || 'Unknown error'}`] *)
Definition cwa_error_text (E : engine) (r : Response) (data : json) : completion jsstring :=
  match get_property E data (js "message") with
  | Normal m =>
      map_completion
        (fun t => js "CWA API error (" ++ decimal (status r) ++ js "): " ++ t)
        (ToString E (or_else m (JString (js "Unknown error"))))
  | Throw e => Throw e
  end.

(** The [return] of [if (!response.ok)]. *)
Definition upstream_error_response (r : Response) (error : jsstring) (data : json) : response :=
  {| statusCode := status r;
     headers := json_cors_headers;
     body := JSON_stringify
               (JObject [(js "error", JString error); (js "cwa_response", data)]) |}.

Definition upstream_error (E : engine) (r : Response) (data : json) : prog response :=
  (error <- settle (cwa_error_text E r data) ;;
   Ret (upstream_error_response r error data))%prog.

(** The last [return] of the [try] block. *)
Definition success (data : json) : response :=
  {| statusCode := 200;
     headers := json_cors_headers;
     body := JSON_stringify data |}.

(** src/unnamed/part_000: the body is read as text and parsed in a
    [try] of its own. *)
Module Part000.

(** The [return] of [catch (jsonParseError)]. *)
Definition parse_failure (E : engine) (rawResponseText : jsstring) (datasetId : option jsstring)
  : response :=
  {| statusCode := 500;
     headers := json_cors_headers;
     body := JSON_stringify
               (JObject
                  [(js "error",
                    JString (js "Serverless Function Internal Error: Failed to parse CWA API response as JSON. Original error: "
                             ++ syntax_error_message E rawResponseText));
                   (js "raw_cwa_response_snippet",
                    JString (substring0 200 rawResponseText ++ js "..."));
                   (js "datasetId", JString (template datasetId))]) |}.

(** The [try] block. *)
Definition try_block (E : engine) (env : process_env) (datasetId : option jsstring)
  (otherParams : list (jsstring * jsstring)) : prog response :=
  (response <- fetch (cwaUrl datasetId otherParams) (authorization env) ;;
   rawResponseText <- settle (text response) ;;
   match JSON_parse rawResponseText with
   | None => Ret (parse_failure E rawResponseText datasetId)
   | Some data =>
       if negb (ok response) then upstream_error E response data
       else Ret (success data)
   end)%prog.

Definition handler (E : engine) (env : process_env) (ev : event) : prog response :=
  match queryStringParameters ev with
  | None => Raise (mkError (destructure_message E))
  | Some q =>
      let datasetId := get q (js "datasetId") in
      let otherParams := rest_properties q (js "datasetId") in
      if falsy datasetId then Ret missing_datasetId
      else try_catch (try_block E env datasetId otherParams) (fun error => Ret (internal_error error))
  end.

End Part000.

(** src/netlify/functions/cwa-proxy.js: the body is read by
    [response.json()], whose SyntaxError the outer [catch] receives. *)
Module CwaProxy.

(** [await response.json()] *)
Definition json_body (E : engine) (r : Response) : prog json :=
  (raw <- settle (text r) ;;
   match JSON_parse raw with
   | Some data => Ret data
   | None => Raise (mkError (syntax_error_message E raw))
   end)%prog.

(** The [try] block. *)
Definition try_block (E : engine) (env : process_env) (datasetId : option jsstring)
  (otherParams : list (jsstring * jsstring)) : prog response :=
  (response <- fetch (cwaUrl datasetId otherParams) (authorization env) ;;
   data <- json_body E response ;;
   if negb (ok response) then upstream_error E response data
   else Ret (success data))%prog.

Definition handler (E : engine) (env : process_env) (ev : event) : prog response :=
  match queryStringParameters ev with
  | None => Raise (mkError (destructure_message E))
  | Some q =>
      let datasetId := get q (js "datasetId") in
      let otherParams := rest_properties q (js "datasetId") in
      if falsy datasetId then Ret missing_datasetId
      else try_catch (try_block E env datasetId otherParams) (fun error => Ret (internal_error error))
  end.

End CwaProxy.

(** ** The console

    The handlers write to the console as they go.  The calls change nothing
    of what the handler requests or returns; they are kept here, in a second
    embedding of the same two functions whose runs record every call of
    [console.log] and [console.error] in the order of the run, between the
    requests. *)

(** An argument of a console call: a string, or an [Error] object, which
    the console prints in a format of its own. *)
Inductive console_arg :=
| Text (s : jsstring)
| Thrown (e : Error).

Inductive console_call :=
| console_log (args : list console_arg)
| console_error (args : list console_arg).

(** What a run does besides returning. *)
Inductive io :=
| Fetched (rq : request)
| Console (c : console_call).

Module Logged.

Inductive prog (A : Type) :=
| Ret (a : A)
| Raise (e : Error)
| Await_fetch (rq : request) (k : completion Response -> prog A)
| Call (c : console_call) (next : prog A).
Arguments Ret {A} a.
Arguments Raise {A} e.
Arguments Await_fetch {A} rq k.
Arguments Call {A} c next.

Fixpoint bind {A B : Type} (p : prog A) (f : A -> prog B) : prog B :=
  match p with
  | Ret a => f a
  | Raise e => Raise e
  | Await_fetch rq k => Await_fetch rq (fun c => bind (k c) f)
  | Call c next => Call c (bind next f)
  end.

Fixpoint try_catch {A : Type} (p : prog A) (h : Error -> prog A) : prog A :=
  match p with
  | Ret a => Ret a
  | Raise e => h e
  | Await_fetch rq k => Await_fetch rq (fun c => try_catch (k c) h)
  | Call c next => Call c (try_catch next h)
  end.

Definition settle {A : Type} (c : completion A) : prog A :=
  match c with
  | Normal a => Ret a
  | Throw e => Raise e
  end.

Definition fetch (url : jsstring) (hs : list (jsstring * jsstring)) : prog Response :=
  Await_fetch {| req_method := js "GET"; req_url := url; req_headers := hs |} settle.

Definition log (args : list console_arg) : prog unit := Call (console_log args) (Ret tt).
Definition error (args : list console_arg) : prog unit := Call (console_error args) (Ret tt).

Fixpoint run {A : Type} (upstream : request -> completion Response) (p : prog A)
  : list io * completion A :=
  match p with
  | Ret a => ([], Normal a)
  | Raise e => ([], Throw e)
  | Await_fetch rq k =>
      let '(trace, c) := run upstream (k (upstream rq)) in (Fetched rq :: trace, c)
  | Call c next =>
      let '(trace, r) := run upstream next in (Console c :: trace, r)
  end.

End Logged.

Declare Scope logged_scope.
Delimit Scope logged_scope with logged.
Notation "x <- p ;; q" := (Logged.bind p (fun x => q))
  (at level 61, p at next level, right associativity) : logged_scope.
Notation "p ;; q" := (Logged.bind p (fun _ => q))
  (at level 61, right associativity) : logged_scope.

(** [`${data.message || 'Unknown error'}`] *)
Definition message_or_unknown (E : engine) (data : json) : completion jsstring :=
  match get_property E data (js "message") with
  | Normal m => ToString E (or_else m (JString (js "Unknown error")))
  | Throw e => Throw e
  end.

(** [console.log(`代理請求至 CWA API: ${cwaUrl}`)] *)
Definition log_url (url : jsstring) : Logged.prog unit :=
  Logged.log [Text ([20195; 29702; 35531; 27714; 33267] ++ js " CWA API: " ++ url)].

(** The [console.error] of the outer [catch (error)]. *)
Definition log_caught (datasetId : option jsstring) (error : Error) : Logged.prog unit :=
  Logged.error
    [Text (js "Proxy function caught an unexpected error for dataset "
           ++ template datasetId ++ js ":");
     Thrown error].

(** src/unnamed/part_000 with its console calls. *)
Module Part000Logged.

Definition upstream_error (E : engine) (datasetId : option jsstring) (r : Response) (data : json)
  : Logged.prog response :=
  (detail <- Logged.settle (message_or_unknown E data) ;;
   Logged.error
     [Text (js "Error from CWA API (non-OK status) for dataset " ++ template datasetId
            ++ js ": " ++ decimal (status r) ++ js " - " ++ detail)] ;;
   error <- Logged.settle (cwa_error_text E r data) ;;
   Logged.Ret (upstream_error_response r error data))%logged.

Definition try_block (E : engine) (env : process_env) (datasetId : option jsstring)
  (otherParams : list (jsstring * jsstring)) : Logged.prog response :=
  (response <- Logged.fetch (cwaUrl datasetId otherParams) (authorization env) ;;
   Logged.log
     [Text (js "CWA API Response Status for " ++ template datasetId ++ js ": "
            ++ decimal (status response) ++ js " - " ++ statusText response)] ;;
   rawResponseText <- Logged.settle (text response) ;;
   Logged.log
     [Text (js "CWA API Raw Response (first 500 chars) for " ++ template datasetId ++ js ": "
            ++ substring0 500 rawResponseText)] ;;
   match JSON_parse rawResponseText with
   | None =>
       Logged.error
         [Text (js "Error parsing JSON from CWA API for dataset " ++ template datasetId
                ++ js ":");
          Thrown (mkError (syntax_error_message E rawResponseText))] ;;
       Logged.error
         [Text (js "Full raw response that failed JSON parsing:"); Text rawResponseText] ;;
       Logged.Ret (Part000.parse_failure E rawResponseText datasetId)
   | Some data =>
       if negb (ok response) then upstream_error E datasetId response data
       else Logged.Ret (success data)
   end)%logged.

Definition handler (E : engine) (env : process_env) (ev : event) : Logged.prog response :=
  match queryStringParameters ev with
  | None => Logged.Raise (mkError (destructure_message E))
  | Some q =>
      let datasetId := get q (js "datasetId") in
      let otherParams := rest_properties q (js "datasetId") in
      if falsy datasetId then Logged.Ret missing_datasetId
      else
        (log_url (cwaUrl datasetId otherParams) ;;
         Logged.try_catch (try_block E env datasetId otherParams)
           (fun error => log_caught datasetId error ;; Logged.Ret (internal_error error)))%logged
  end.

End Part000Logged.

(** src/netlify/functions/cwa-proxy.js with its console calls. *)
Module CwaProxyLogged.

Definition json_body (E : engine) (r : Response) : Logged.prog json :=
  (raw <- Logged.settle (text r) ;;
   match JSON_parse raw with
   | Some data => Logged.Ret data
   | None => Logged.Raise (mkError (syntax_error_message E raw))
   end)%logged.

Definition upstream_error (E : engine) (datasetId : option jsstring) (r : Response) (data : json)
  : Logged.prog response :=
  (detail <- Logged.settle (message_or_unknown E data) ;;
   Logged.error
     [Text (js "Error from CWA API for dataset " ++ template datasetId
            ++ js ": " ++ decimal (status r) ++ js " - " ++ detail)] ;;
   error <- Logged.settle (cwa_error_text E r data) ;;
   Logged.Ret (upstream_error_response r error data))%logged.

Definition try_block (E : engine) (env : process_env) (datasetId : option jsstring)
  (otherParams : list (jsstring * jsstring)) : Logged.prog response :=
  (response <- Logged.fetch (cwaUrl datasetId otherParams) (authorization env) ;;
   data <- json_body E response ;;
   if negb (ok response) then upstream_error E datasetId response data
   else Logged.Ret (success data))%logged.

Definition handler (E : engine) (env : process_env) (ev : event) : Logged.prog response :=
  match queryStringParameters ev with
  | None => Logged.Raise (mkError (destructure_message E))
  | Some q =>
      let datasetId := get q (js "datasetId") in
      let otherParams := rest_properties q (js "datasetId") in
      if falsy datasetId then Logged.Ret missing_datasetId
      else
        (log_url (cwaUrl datasetId otherParams) ;;
         Logged.try_catch (try_block E env datasetId otherParams)
           (fun error => log_caught datasetId error ;; Logged.Ret (internal_error error)))%logged
  end.

End CwaProxyLogged.

(** The requests and the console calls of a run, each in order. *)
Fixpoint requests (trace : list io) : list request :=
  match trace with
  | [] => []
  | Fetched rq :: t => rq :: requests t
  | Console _ :: t => requests t
  end.

Fixpoint console (trace : list io) : list console_call :=
  match trace with
  | [] => []
  | Fetched _ :: t => console t
  | Console c :: t => c :: console t
  end.

Definition is_console_error (c : console_call) : bool :=
  match c with
  | console_error _ => true
  | console_log _ => false
  end.

(** ** Vocabulary of the statements *)

(** The one request the handler makes. *)
Definition upstream_request (env : process_env) (datasetId : option jsstring)
  (otherParams : list (jsstring * jsstring)) : request :=
  {| req_method := js "GET";
     req_url := cwaUrl datasetId otherParams;
     req_headers := authorization env |}.

(** The pieces of a text between the occurrences of a separator. *)
Fixpoint split_on (sep : N) (s : jsstring) : list jsstring :=
  match s with
  | [] => [[]]
  | c :: r =>
      if c =? sep then [] :: split_on sep r
      else match split_on sep r with
           | piece :: pieces => (c :: piece) :: pieces
           | [] => [[c]]
           end
  end.

(** The characters that end a name, a value, a pair, the query or the
    path of a URL, and the space. *)
Definition query_delimiter (c : N) : bool :=
  (c =? 38) || (c =? 61) || (c =? 63) || (c =? 35) || (c =? 47) || (c =? 32).

(** [name=value] as the serializer writes one pair. *)
Definition query_pair (name value : jsstring) : jsstring :=
  urlencode (code_points name) ++ js "=" ++ urlencode (code_points value).

(** Sample values for the statements about one run. *)
Definition sample_engine : engine :=
  {| syntax_error_message := fun _ => js "Unexpected token < in JSON at position 0";
     null_read_message := fun name => js "Cannot read properties of null (reading '" ++ name ++ js "')";
     to_primitive_message := js "Cannot convert object to primitive value";
     destructure_message := js "Cannot destructure property 'datasetId' of 'event.queryStringParameters' as it is null." |}.

Definition sample_env : process_env := {| CWA_API_KEY := Some (js "CWA-SAMPLE-KEY") |}.

(** [?datasetId=F-C0032-001&locationName=臺北] *)
Definition sample_event : event :=
  {| queryStringParameters :=
       Some [(js "datasetId", js "F-C0032-001"); (js "locationName", [33274; 21271])];
     multiValueQueryStringParameters :=
       Some [(js "datasetId", [js "F-C0032-001"]); (js "locationName", [[33274; 21271]])] |}.

(** An upstream that answers every request with one status and body. *)
Definition answers (st : N) (raw : jsstring) : request -> completion Response :=
  fun _ => Normal {| status := st; statusText := []; text := Normal raw |}.

(** An upstream that cannot be reached. *)
Definition unreachable (msg : jsstring) : request -> completion Response :=
  fun _ => Throw (mkError msg).

(** ** Vocabulary of the proofs *)

Definition all_digits (ds : jsstring) : Prop := Forall (fun c => is_digit c = true) ds.

(** What may follow a value inside a JSON text: the end, a comma, or a
    closing bracket or brace. *)
Definition delimited (rest : jsstring) : Prop :=
  match rest with
  | [] => True
  | c :: _ => c = 44 \/ c = 93 \/ c = 125
  end.

Definition no_digit_ahead (rest : jsstring) : Prop :=
  match rest with
  | [] => True
  | c :: _ => is_digit c = false
  end.

Definition valid_int (int : jsstring) : Prop :=
  int = [48] \/ exists d ds, int = d :: ds /\ d <> 48 /\ all_digits (d :: ds).

Definition frac_part (frac : jsstring) : jsstring :=
  match frac with [] => [] | _ :: _ => 46 :: frac end.

Definition exp_part (ex : option (N * jsstring)) : jsstring :=
  match ex with None => [] | Some (sg, ds) => 101 :: sg :: ds end.

Definition exp_value (ex : option (N * jsstring)) : Z :=
  match ex with
  | None => 0%Z
  | Some (sg, ds) =>
      if sg =? 45 then (- Z.of_N (digits_value ds))%Z else Z.of_N (digits_value ds)
  end.

Definition valid_exp (ex : option (N * jsstring)) : Prop :=
  match ex with
  | None => True
  | Some (sg, ds) => (sg = 43 \/ sg = 45) /\ ds <> [] /\ all_digits ds
  end.

(** A value never starts with white space or a closing bracket. *)
Definition opens_value (c : N) : Prop :=
  is_ws c = false /\ c <> 93 /\ c <> 125.

(** The property proved by induction: a serialized value is read back,
    whatever follows it, with fuel for its length. *)
Definition reads_back (v : json) : Prop :=
  forall f rest, delimited rest -> (List.length (JSON_stringify v) <= f)%nat ->
    parse_value f (JSON_stringify v ++ rest) = Some (normalize v, rest).

(** One more property defined on the object read so far. *)
Definition define_member (acc : list (jsstring * json)) (kv : jsstring * json)
  : list (jsstring * json) :=
  CreateDataProperty acc (fst kv) (normalize (snd kv)).

Definition member_text (kv : jsstring * json) : jsstring :=
  QuoteJSONString (fst kv) ++ js ":" ++ JSON_stringify (snd kv).

(** A successful parse consumes input, and succeeds the same way with any
    fuel that covers what it consumed. *)
Definition stable_value (f : nat) : Prop :=
  forall s v rest, parse_value f s = Some (v, rest) ->
    (List.length rest < List.length s)%nat
    /\ forall f', (List.length s - List.length rest <= f')%nat ->
         parse_value f' s = Some (v, rest).

Definition stable_elements (f : nat) : Prop :=
  forall s acc v rest, parse_elements f s acc = Some (v, rest) ->
    (List.length rest < List.length s)%nat
    /\ forall f', (List.length s - List.length rest <= f')%nat ->
         parse_elements f' s acc = Some (v, rest).

Definition stable_members (f : nat) : Prop :=
  forall s acc v rest, parse_members f s acc = Some (v, rest) ->
    (List.length rest < List.length s)%nat
    /\ forall f', (List.length s - List.length rest <= f')%nat ->
         parse_members f' s acc = Some (v, rest).

(** A handler past its validation: one request, and the [catch] turns
    what the [try] block throws into [internal_error]. *)
Definition caught (c : completion response) : response :=
  match c with
  | Normal r => r
  | Throw e => internal_error e
  end.

(** The responses the handlers write: the two headers, and a body that
    [JSON.stringify] wrote. *)
Definition written (r : response) : Prop :=
  headers r = json_cors_headers /\ exists v, body r = JSON_stringify v.

Definition usv_pair (kv : jsstring * jsstring) : list N * list N :=
  (code_points (fst kv), code_points (snd kv)).

(** The request [?datasetId=F-C0032-001&a=1&a=2] as a platform that joins
    repeated values delivers it. *)
Definition repeated_joined : event :=
  {| queryStringParameters := Some [(js "datasetId", js "F-C0032-001"); (js "a", js "1, 2")];
     multiValueQueryStringParameters :=
       Some [(js "datasetId", [js "F-C0032-001"]); (js "a", [js "1"; js "2"])] |}.

(** The same request as a platform that keeps the last value delivers it. *)
Definition repeated_last : event :=
  {| queryStringParameters := Some [(js "datasetId", js "F-C0032-001"); (js "a", js "2")];
     multiValueQueryStringParameters :=
       Some [(js "datasetId", [js "F-C0032-001"]); (js "a", [js "1"; js "2"])] |}.

(** Two settled [fetch] promises with the same status and body, or rejected
    with the same error. *)
Definition same_status_and_body (a b : completion Response) : Prop :=
  match a, b with
  | Normal r1, Normal r2 => status r1 = status r2 /\ text r1 = text r2
  | Throw e1, Throw e2 => e1 = e2
  | _, _ => False
  end.

(** What the [try] block of src/unnamed/part_000 writes to the console
    once [fetch] has settled, written out case by case. *)
Definition Part000_written_after (E : engine) (d : option jsstring)
  (c : completion Response) : list console_call :=
  match c with
  | Throw e => []
  | Normal r =>
      console_log
        [Text (js "CWA API Response Status for " ++ template d ++ js ": "
               ++ decimal (status r) ++ js " - " ++ statusText r)]
      :: match text r with
         | Throw e => []
         | Normal raw =>
             console_log
               [Text (js "CWA API Raw Response (first 500 chars) for " ++ template d ++ js ": "
                      ++ substring0 500 raw)]
             :: match JSON_parse raw with
                | None =>
                    [console_error
                       [Text (js "Error parsing JSON from CWA API for dataset " ++ template d
                              ++ js ":");
                        Thrown (mkError (syntax_error_message E raw))];
                     console_error
                       [Text (js "Full raw response that failed JSON parsing:"); Text raw]]
                | Some data =>
                    if ok r then []
                    else match message_or_unknown E data with
                         | Normal detail =>
                             [console_error
                                [Text (js "Error from CWA API (non-OK status) for dataset "
                                       ++ template d ++ js ": " ++ decimal (status r)
                                       ++ js " - " ++ detail)]]
                         | Throw e => []
                         end
                end
         end
  end.

(** The same for src/netlify/functions/cwa-proxy.js. *)
Definition CwaProxy_written_after (E : engine) (d : option jsstring)
  (c : completion Response) : list console_call :=
  match c with
  | Throw e => []
  | Normal r =>
      match text r with
      | Throw e => []
      | Normal raw =>
          match JSON_parse raw with
          | None => []
          | Some data =>
              if ok r then []
              else match message_or_unknown E data with
                   | Normal detail =>
                       [console_error
                          [Text (js "Error from CWA API for dataset "
                                 ++ template d ++ js ": " ++ decimal (status r)
                                 ++ js " - " ++ detail)]]
                   | Throw e => []
                   end
          end
      end
  end.

(** The console call of the outer [catch], when the [try] block threw. *)
Definition written_by_catch (d : option jsstring) (c : completion response)
  : list console_call :=
  match c with
  | Normal _ => []
  | Throw e =>
      [console_error
         [Text (js "Proxy function caught an unexpected error for dataset "
                ++ template d ++ js ":");
          Thrown e]]
  end.

(** The first console call of a run that gets past the validation. *)
Definition url_logged (url : jsstring) : console_call :=
  console_log [Text ([20195; 29702; 35531; 27714; 33267] ++ js " CWA API: " ++ url)].

(** The characters a JSON value can start with: a brace, a bracket, a
    quote, a minus sign, a digit, or the first letter of [true], [false]
    and [null]. *)
Definition opens_json (c : N) : bool :=
  (c =? 123) || (c =? 91) || (c =? 34) || (c =? 45) || is_digit c
  || (c =? 116) || (c =? 102) || (c =? 110).

(** A text that is blank, or whose first character after the white space
    opens no JSON value. *)
Definition opens_no_json (raw : jsstring) : bool :=
  match skip_ws raw with
  | [] => true
  | c :: _ => negb (opens_json c)
  end.

(** Two outcomes of the handler with the same status and headers. *)
Definition same_status_and_headers (a b : completion response) : Prop :=
  match a, b with
  | Normal r1, Normal r2 => statusCode r1 = statusCode r2 /\ headers r1 = headers r2
  | Throw e1, Throw e2 => e1 = e2
  | _, _ => False
  end.

(** A JavaScript string proper: every code unit is below 2^16. *)
Definition code_units (s : jsstring) : Prop := Forall (fun c => c < 65536) s.

(** The characters of a serialized query: the ones the serializer leaves
    as they are, [+] for the space, [%] and hexadecimal digits for the other
    bytes, [=] and [&]. *)
Definition query_char (c : N) : bool :=
  urlencoded_safe c || (c =? 43) || (c =? 37) || (c =? 61) || (c =? 38).

(** A name and a value of code points that UTF-8 writes in at most four
    bytes. *)
Definition scalar_pair (p : list N * list N) : Prop :=
  Forall (fun cp => cp < 2097152) (fst p) /\ Forall (fun cp => cp < 2097152) (snd p).

(** One pair of the list, serialized. *)
Definition pair_text (kv : list N * list N) : jsstring :=
  urlencode (fst kv) ++ js "=" ++ urlencode (snd kv).

(** Whether ToString converts a value of [JSON.parse]: it does unless the
    value is, or an array holds at some depth, an object with a property of
    its own named [toString]. *)
Fixpoint converts (v : json) : bool :=
  match v with
  | JArray l =>
      (fix all (l : list json) : bool :=
         match l with
         | [] => true
         | x :: r => converts x && all r
         end) l
  | JObject l => negb (has l (js "toString"))
  | _ => true
  end.

(** Whether [`${data.message || 'Unknown error'}`] evaluates to a string
    for the parsed body [data]. *)
Definition message_converts (data : json) : bool :=
  match data with
  | JNull => false
  | JObject l => converts (or_else (get l (js "message")) (JString (js "Unknown error")))
  | _ => true
  end.

(** Whether a key may stand before another among the own keys of an
    object: array indices come first, in ascending order, then the other
    keys. *)
Definition may_precede (k k' : jsstring) : bool :=
  match array_index k, array_index k' with
  | Some i, Some j => i <? j
  | Some _, None => true
  | None, Some _ => false
  | None, None => true
  end.

Fixpoint keys_ordered (ks : list jsstring) : Prop :=
  match ks with
  | [] => True
  | k :: r => Forall (fun k' => may_precede k k' = true) r /\ keys_ordered r
  end.

(** The keys of an ordinary object: no key twice, in the order of
    OrdinaryOwnPropertyKeys. *)
Definition own_keys (ks : list jsstring) : Prop := NoDup ks /\ keys_ordered ks.

(** The Number values [StringToNumber] produces: the significand is below
    2^53, the exponent is between -1074 and 971, and the significand has 53
    bits unless the exponent is the smallest. *)
Definition binary64 (x : Number.number) : Prop :=
  match x with
  | Number.Finite _ m e =>
      (Z.of_N m < 2 ^ 53 /\ -1074 <= e <= 971 /\ (2 ^ 52 <= Z.of_N m \/ e = -1074))%Z
  | _ => True
  end.

(** [2^e] for [e >= 0], and 1 below: the integer part of a power. *)
Definition pow_up (b e : Z) : Z := (b ^ Z.max e 0)%Z.

(** The quotient [scaled_div] computes. *)
Definition quotient_at (num den e : Z) : Z :=
  (num * pow_up 2 (- e) / (den * pow_up 2 e))%Z.

(** The exponent [nearest] first settles on, before the subnormal range
    is looked at. *)
Definition exponent_of (num den : Z) : Z :=
  (let e1 := Z.log2 num - Z.log2 den - 53 in
   if 2 ^ 53 <=? quotient_at num den e1 then e1 + 1 else e1)%Z.

(** The last steps of [nearest], from that exponent on. *)
Definition rounded_at (neg : bool) (num den e2 : Z) : Number.number :=
  (let e := Z.max e2 (-1074) in
   let '(q, r, d) := Number.scaled_div num den e in
   let m := Number.round_half_even q r d in
   let '(m, e) := if m =? 2 ^ 53 then (2 ^ 52, e + 1) else (m, e) in
   if 971 <? e then Number.Infinity neg else Number.Finite neg (Z.to_N m) e)%Z.

(** The values [JSON.parse] builds: every number is a binary64 value,
    every object has its keys distinct and in the order of its own keys. *)
Unset Elimination Schemes.
Inductive parsed : json -> Prop :=
| parsed_null : parsed JNull
| parsed_bool (b : bool) : parsed (JBool b)
| parsed_number (x : Number.number) : binary64 x -> parsed (JNumber x)
| parsed_string (s : jsstring) : parsed (JString s)
| parsed_array (l : list json) : Forall parsed l -> parsed (JArray l)
| parsed_object (l : list (jsstring * json)) :
    own_keys (map fst l) -> Forall (fun kv => parsed (snd kv)) l -> parsed (JObject l).
Set Elimination Schemes.

(** What a JSON text keeps of a number: [null] for NaN and the
    infinities, [0] for both zeros, the number itself otherwise. *)
Definition written_number (x : Number.number) : json :=
  match x with
  | Number.Finite _ 0 _ => JNumber (Number.Finite false 0 (-1074))
  | Number.Finite _ _ _ => JNumber x
  | _ => JNull
  end.

(** A value with its numbers as a JSON text keeps them. *)
Fixpoint written_value (v : json) : json :=
  match v with
  | JNumber x => written_number x
  | JArray l => JArray (map written_value l)
  | JObject l => JObject (map (fun kv => (fst kv, written_value (snd kv))) l)
  | _ => v
  end.

(** A text of white space only: tabs, line feeds, carriage returns and
    spaces. *)
Definition blank (t : jsstring) : Prop := Forall (fun c => is_ws c = true) t.

(** The upstream [w] with white space put around every body it sends. *)
Definition padded (before after : jsstring) (w : request -> completion Response)
  : request -> completion Response :=
  fun rq =>
    map_completion
      (fun R => {| status := status R;
                   statusText := statusText R;
                   text := map_completion (fun raw => before ++ raw ++ after) (text R) |})
      (w rq).

(** *** Reading the query back

    What a server that follows the URL standard finds in a query: the
    application/x-www-form-urlencoded parser, with its percent-decoding and
    its UTF-8 decoder, and the UTF-16 encoding of ECMA-262 that turns code
    points into a string again. *)

(** Percent-decoding: [%] and two hexadecimal digits are one byte, every
    other byte stands for itself. *)
Fixpoint percent_decode (s : jsstring) : list N :=
  match s with
  | [] => []
  | c :: r =>
      if c =? 37 then
        match r with
        | h :: l :: r' =>
            match hex_value h, hex_value l with
            | Some x, Some y => (16 * x + y) :: percent_decode r'
            | _, _ => c :: percent_decode r
            end
        | _ => c :: percent_decode r
        end
      else c :: percent_decode r
  end.

(** The state of the UTF-8 decoder of the Encoding standard. *)
Record utf8_state := {
  utf8_code_point : N;
  utf8_bytes_seen : N;
  utf8_bytes_needed : N;
  utf8_lower_boundary : N;
  utf8_upper_boundary : N
}.

Definition utf8_initial : utf8_state :=
  {| utf8_code_point := 0; utf8_bytes_seen := 0; utf8_bytes_needed := 0;
     utf8_lower_boundary := 128; utf8_upper_boundary := 191 |}.

(** A byte read when none is needed: what it emits and the state it
    leaves. *)
Definition utf8_lead (b : N) : list N * utf8_state :=
  if b <=? 127 then ([b], utf8_initial)
  else if (194 <=? b) && (b <=? 223) then
    ([], {| utf8_code_point := N.land b 31; utf8_bytes_seen := 0; utf8_bytes_needed := 1;
            utf8_lower_boundary := 128; utf8_upper_boundary := 191 |})
  else if (224 <=? b) && (b <=? 239) then
    ([], {| utf8_code_point := N.land b 15; utf8_bytes_seen := 0; utf8_bytes_needed := 2;
            utf8_lower_boundary := if b =? 224 then 160 else 128;
            utf8_upper_boundary := if b =? 237 then 159 else 191 |})
  else if (240 <=? b) && (b <=? 244) then
    ([], {| utf8_code_point := N.land b 7; utf8_bytes_seen := 0; utf8_bytes_needed := 3;
            utf8_lower_boundary := if b =? 240 then 144 else 128;
            utf8_upper_boundary := if b =? 244 then 143 else 191 |})
  else ([65533], utf8_initial).

(** The decoder, errors replaced by U+FFFD; a byte that ends a sequence
    too early is read again as the first byte of the next one. *)
Fixpoint utf8_decode_from (st : utf8_state) (bytes : list N) : list N :=
  match bytes with
  | [] => if utf8_bytes_needed st =? 0 then [] else [65533]
  | b :: r =>
      if utf8_bytes_needed st =? 0 then
        fst (utf8_lead b) ++ utf8_decode_from (snd (utf8_lead b)) r
      else if (utf8_lower_boundary st <=? b) && (b <=? utf8_upper_boundary st) then
        let cp := N.lor (N.shiftl (utf8_code_point st) 6) (N.land b 63) in
        if utf8_bytes_seen st + 1 =? utf8_bytes_needed st
        then cp :: utf8_decode_from utf8_initial r
        else utf8_decode_from
               {| utf8_code_point := cp; utf8_bytes_seen := utf8_bytes_seen st + 1;
                  utf8_bytes_needed := utf8_bytes_needed st;
                  utf8_lower_boundary := 128; utf8_upper_boundary := 191 |} r
      else 65533 :: fst (utf8_lead b) ++ utf8_decode_from (snd (utf8_lead b)) r
  end.

Definition utf8_decode (bytes : list N) : list N := utf8_decode_from utf8_initial bytes.

(** A text up to its first [sep], and what follows it. *)
Fixpoint cut_at (sep : N) (s : jsstring) : jsstring * jsstring :=
  match s with
  | [] => ([], [])
  | c :: r =>
      if c =? sep then ([], r)
      else (c :: fst (cut_at sep r), snd (cut_at sep r))
  end.

(** A name or a value of the query, read back: [+] is a space, the
    percent-encoded bytes are decoded as UTF-8. *)
Definition form_urlencoded_decode (s : jsstring) : list N :=
  utf8_decode (percent_decode (map (fun c => if c =? 43 then 32 else c) s)).

(** The application/x-www-form-urlencoded parser: the pieces between the
    ampersands, the empty ones left out, each cut at its first [=]. *)
Definition form_urlencoded_parse (input : jsstring) : list (list N * list N) :=
  flat_map
    (fun piece =>
       match piece with
       | [] => []
       | _ :: _ =>
           [(form_urlencoded_decode (fst (cut_at 61 piece)),
             form_urlencoded_decode (snd (cut_at 61 piece)))]
       end)
    (split_on 38 input).

(** A Unicode scalar value: a code point that is not a surrogate. *)
Definition scalar_value (cp : N) : bool :=
  (cp <? 55296) || ((57344 <=? cp) && (cp <? 1114112)).

(** The code units of a code point (UTF16EncodeCodePoint). *)
Definition utf16 (cp : N) : jsstring :=
  if cp <=? 65535 then [cp]
  else [(cp - 65536) / 1024 + 55296; (cp - 65536) mod 1024 + 56320].

(** [s.isWellFormed()]: no surrogate stands alone. *)
Fixpoint isWellFormed (s : jsstring) : bool :=
  match s with
  | [] => true
  | c :: r =>
      if is_high_surrogate c then
        match r with
        | d :: r' => is_low_surrogate d && isWellFormed r'
        | [] => false
        end
      else negb (is_low_surrogate c) && isWellFormed r
  end.
(** The pairs whose code points are all scalar values. *)
Definition scalar_values (p : list N * list N) : Prop :=
  Forall (fun cp => scalar_value cp = true) (fst p)
  /\ Forall (fun cp => scalar_value cp = true) (snd p).

(** Whether a JSON text keeps every number of a value: none of them, at
    any depth, is [-0], NaN or an infinity. *)
Fixpoint keeps_numbers (v : json) : bool :=
  match v with
  | JNumber (Number.Finite neg m _) => negb (neg && (m =? 0))
  | JNumber _ => false
  | JArray l => forallb keeps_numbers l
  | JObject l => forallb (fun kv => keeps_numbers (snd kv)) l
  | _ => true
  end.

(** * Properties *)

(** ** Strings and digits *)

Arguments is_digit : simpl never.
Arguments is_ws : simpl never.
Arguments N.eqb : simpl never.
Arguments N.ltb : simpl never.
Arguments N.leb : simpl never.

Lemma str_eqb_refl (a : jsstring) : str_eqb a a = true.
Proof. induction a; simpl; [reflexivity | now rewrite N.eqb_refl]. Qed.

Lemma str_eqb_eq (a b : jsstring) : str_eqb a b = true <-> a = b.
Proof.
  split; [| intros ->; apply str_eqb_refl].
  revert b; induction a as [| x a IH]; destruct b as [| y b]; simpl; try easy.
  intros H; apply andb_true_iff in H as [H1 H2].
  apply N.eqb_eq in H1; f_equal; auto.
Qed.

Lemma str_eqb_neq (a b : jsstring) : str_eqb a b = false <-> a <> b.
Proof.
  rewrite <- str_eqb_eq; destruct (str_eqb a b); split; intros; congruence.
Qed.

Lemma delimited_no_digit rest : delimited rest -> no_digit_ahead rest.
Proof. destruct rest; simpl; [easy | intros [-> | [-> | ->]]; reflexivity]. Qed.

Lemma is_digit_mod10 (n : N) : is_digit (48 + n mod 10) = true.
Proof.
  unfold is_digit; pose proof (N.mod_upper_bound n 10 ltac:(easy)) as H.
  revert H; generalize (n mod 10); intros r H.
  apply andb_true_iff; split; apply N.leb_le; lia.
Qed.

Lemma digits_fuel_shape (f : nat) :
  forall n acc, exists d ds,
    digits_fuel (S f) n acc = d :: ds ++ acc /\ all_digits (d :: ds).
Proof.
  induction f as [| f IH]; intros n acc.
  - exists (48 + n mod 10), []; simpl; split.
    + now destruct (n / 10 =? 0).
    + constructor; [apply is_digit_mod10 | constructor].
  - change (digits_fuel (S (S f)) n acc)
      with (if n / 10 =? 0 then (48 + n mod 10) :: acc
            else digits_fuel (S f) (n / 10) ((48 + n mod 10) :: acc)).
    destruct (n / 10 =? 0).
    + exists (48 + n mod 10), []; split; [reflexivity |].
      constructor; [apply is_digit_mod10 | constructor].
    + destruct (IH (n / 10) ((48 + n mod 10) :: acc)) as (d & ds & -> & Hd).
      exists d, (ds ++ [48 + n mod 10]); split.
      * now rewrite <- app_assoc.
      * inversion Hd; subst; constructor; [assumption |].
        apply Forall_app; split; [assumption |].
        constructor; [apply is_digit_mod10 | constructor].
Qed.

Lemma digits_fuel_leading (f : nat) :
  forall n acc, 0 < n -> n < 10 ^ N.of_nat f ->
    exists d ds, digits_fuel f n acc = d :: ds ++ acc /\ d <> 48 /\ all_digits (d :: ds).
Proof.
  induction f as [| f IH]; intros n acc Hpos Hlt.
  - change (10 ^ N.of_nat 0) with 1 in Hlt; lia.
  - rewrite Nat2N.inj_succ, N.pow_succ_r' in Hlt.
    change (digits_fuel (S f) n acc)
      with (if n / 10 =? 0 then (48 + n mod 10) :: acc
            else digits_fuel f (n / 10) ((48 + n mod 10) :: acc)).
    destruct (N.eqb_spec (n / 10) 0) as [Hq | Hq].
    + exists (48 + n mod 10), []; repeat split.
      * pose proof (N.div_mod n 10 ltac:(easy)) as Hdm.
        rewrite Hq in Hdm; revert Hdm; generalize (n mod 10); intros r Hdm; lia.
      * constructor; [apply is_digit_mod10 | constructor].
    + destruct (IH (n / 10) ((48 + n mod 10) :: acc)) as (d & ds & -> & Hnz & Hd).
      * destruct (n / 10); [congruence | lia].
      * apply N.Div0.div_lt_upper_bound; lia.
      * exists d, (ds ++ [48 + n mod 10]); repeat split; [| assumption |].
        -- now rewrite <- app_assoc.
        -- inversion Hd; subst; constructor; [assumption |].
           apply Forall_app; split; [assumption |].
           constructor; [apply is_digit_mod10 | constructor].
Qed.

Lemma decimal_digits (n : N) :
  exists d ds, decimal n = d :: ds /\ all_digits (d :: ds).
Proof.
  unfold decimal.
  destruct (digits_fuel_shape (N.to_nat (N.log2 n)) n []) as (d & ds & -> & H).
  exists d, ds; now rewrite app_nil_r.
Qed.

Lemma decimal_leading (n : N) :
  0 < n -> exists d ds, decimal n = d :: ds /\ d <> 48 /\ all_digits (d :: ds).
Proof.
  intros Hpos; unfold decimal.
  destruct (digits_fuel_leading (S (N.to_nat (N.log2 n))) n []) as (d & ds & -> & H);
    [assumption | | exists d, ds; now rewrite app_nil_r].
  rewrite Nat2N.inj_succ, N2Nat.id.
  destruct (N.log2_spec n Hpos) as [_ Hlt].
  eapply N.lt_le_trans; [exact Hlt |].
  apply N.pow_le_mono_l; lia.
Qed.

Lemma scan_digits_app (ds rest : jsstring) :
  all_digits ds -> no_digit_ahead rest -> scan_digits (ds ++ rest) = (ds, rest).
Proof.
  intros Hd Hr; induction Hd as [| c ds Hc _ IH]; simpl.
  - destruct rest as [| c r]; simpl in *; [reflexivity | now rewrite Hr].
  - now rewrite Hc, IH.
Qed.

Lemma skip_ws_head (c : N) (r : jsstring) : is_ws c = false -> skip_ws (c :: r) = c :: r.
Proof. intros H; simpl; now rewrite H. Qed.

(** ** Number::toString writes JSON numbers *)

Lemma all_digits_head (d : N) (ds : jsstring) : all_digits (d :: ds) -> is_digit d = true.
Proof. now inversion 1. Qed.

Lemma all_digits_tail (d : N) (ds : jsstring) : all_digits (d :: ds) -> all_digits ds.
Proof. now inversion 1. Qed.

Lemma scan_int_app (int rest : jsstring) :
  valid_int int -> no_digit_ahead rest -> scan_int (int ++ rest) = Some (int, rest).
Proof.
  intros [-> | (d & ds & -> & Hnz & Hd)] Hr; [reflexivity |].
  simpl. apply N.eqb_neq in Hnz. rewrite Hnz, (all_digits_head _ _ Hd).
  now rewrite (scan_digits_app ds rest (all_digits_tail _ _ Hd) Hr).
Qed.

Lemma scan_frac_app (frac rest : jsstring) :
  all_digits frac -> no_digit_ahead rest ->
  match rest with c :: _ => c <> 46 | [] => True end ->
  scan_frac (frac_part frac ++ rest) = Some (frac, rest).
Proof.
  intros Hd Hr Hp. destruct frac as [| d ds].
  - destruct rest as [| c r]; [reflexivity |].
    simpl. apply N.eqb_neq in Hp. now rewrite Hp.
  - simpl frac_part. change ((46 :: d :: ds) ++ rest) with (46 :: (d :: ds) ++ rest).
    unfold scan_frac. rewrite N.eqb_refl.
    now rewrite (scan_digits_app (d :: ds) rest Hd Hr).
Qed.

Lemma scan_exp_app (ex : option (N * jsstring)) (rest : jsstring) :
  valid_exp ex -> delimited rest ->
  scan_exp (exp_part ex ++ rest) = Some (exp_value ex, rest).
Proof.
  intros Hx Hr. destruct ex as [[sg ds] |].
  - destruct Hx as (Hsg & Hne & Hd). destruct ds as [| d ds]; [easy |].
    simpl exp_part. change ((101 :: sg :: d :: ds) ++ rest) with (101 :: sg :: (d :: ds) ++ rest).
    unfold scan_exp. rewrite N.eqb_refl. simpl orb.
    pose proof (scan_digits_app (d :: ds) rest Hd (delimited_no_digit _ Hr)) as Hs.
    destruct Hsg as [-> | ->]; simpl; simpl in Hs; rewrite Hs; reflexivity.
  - destruct rest as [| c r]; [reflexivity |].
    simpl. destruct Hr as [-> | [-> | ->]]; reflexivity.
Qed.

Lemma parse_number_shape (neg : bool) (int frac : jsstring) (ex : option (N * jsstring))
  (rest : jsstring) :
  valid_int int -> all_digits frac -> valid_exp ex -> delimited rest ->
  parse_number ((if neg then [45] else []) ++ int ++ frac_part frac ++ exp_part ex ++ rest)
  = Some (Number.of_decimal neg (digits_value (int ++ frac))
            (exp_value ex - Z.of_nat (List.length frac)), rest).
Proof.
  intros Hi Hf Hx Hr.
  assert (Hexp : no_digit_ahead (exp_part ex ++ rest)
                 /\ match exp_part ex ++ rest with c :: _ => c <> 46 | [] => True end).
  { destruct ex as [[sg ds] |]; simpl; [split; [reflexivity | lia] |].
    split; [now apply delimited_no_digit |].
    destruct rest; [easy | destruct Hr as [-> | [-> | ->]]; lia]. }
  destruct Hexp as [Hexp1 Hexp2].
  assert (Hfrac : no_digit_ahead (frac_part frac ++ exp_part ex ++ rest)).
  { destruct frac; [exact Hexp1 | reflexivity]. }
  pose proof (scan_exp_app ex rest Hx Hr) as Hse.
  assert (Hhead : match int with c :: _ => c <> 45 | [] => True end).
  { destruct Hi as [-> | (d & ds & -> & _ & Hd)]; [lia |].
    apply all_digits_head in Hd. intros ->. discriminate. }
  assert (Hu : parse_unsigned neg (int ++ frac_part frac ++ exp_part ex ++ rest)
               = Some (Number.of_decimal neg (digits_value (int ++ frac))
                         (exp_value ex - Z.of_nat (List.length frac)), rest)).
  { unfold parse_unsigned.
    now rewrite (scan_int_app _ _ Hi Hfrac), (scan_frac_app _ _ Hf Hexp1 Hexp2), Hse. }
  destruct neg.
  - simpl. exact Hu.
  - simpl app. destruct int as [| c r]; [destruct Hi as [Hi | (? & ? & Hi & _)]; discriminate |].
    simpl. apply N.eqb_neq in Hhead. rewrite Hhead. exact Hu.
Qed.

Lemma all_digits_zeros (n : Z) : all_digits (Number.zeros n).
Proof. unfold Number.zeros. apply Forall_forall. intros c Hc. apply repeat_spec in Hc. now subst. Qed.

Lemma all_digits_app (a b : jsstring) : all_digits a -> all_digits b -> all_digits (a ++ b).
Proof. intros; apply Forall_app; now split. Qed.

Lemma format_shape (p : positive) (n : Z) :
  exists int frac ex,
    Number.format p n = int ++ frac_part frac ++ exp_part ex
    /\ valid_int int /\ all_digits frac /\ valid_exp ex.
Proof.
  unfold Number.format.
  destruct (decimal_leading (Npos p) ltac:(lia)) as (d & ds & Hdec & Hnz & Hd).
  rewrite Hdec. set (k := Z.of_nat (List.length (d :: ds))).
  destruct ((k <=? n)%Z && (n <=? 21)%Z) eqn:Ha.
  { exists (d :: ds ++ Number.zeros (n - k)), [], None. repeat split.
    - simpl. now rewrite app_nil_r.
    - right. exists d, (ds ++ Number.zeros (n - k)). repeat split; [assumption |].
      change (all_digits ((d :: ds) ++ Number.zeros (n - k))).
      apply all_digits_app; [assumption | apply all_digits_zeros].
    - constructor. }
  destruct ((0 <? n)%Z && (n <=? 21)%Z) eqn:Hb.
  { apply andb_false_iff in Ha. apply andb_true_iff in Hb as [Hb1 Hb2].
    apply Z.ltb_lt in Hb1. rewrite Hb2 in Ha.
    assert (Hk : (n < k)%Z) by (destruct Ha as [Ha | Ha]; [apply Z.leb_gt in Ha; lia | discriminate]).
    destruct (Z.to_nat n) as [| j] eqn:Hj; [lia |].
    assert (Hlen : (j < List.length ds)%nat) by (subst k; simpl List.length in Hk; lia).
    exists (d :: firstn j ds), (skipn j ds), None.
    assert (Hsk : skipn j ds <> []).
    { intros Hnil. pose proof (f_equal (@List.length N) Hnil) as Hl.
      rewrite length_skipn in Hl. simpl in Hl. lia. }
    assert (Hparts : all_digits (firstn j ds) /\ all_digits (skipn j ds)).
    { apply all_digits_tail in Hd. rewrite <- (firstn_skipn j ds) in Hd.
      now apply Forall_app in Hd. }
    destruct Hparts as [Hfi Hsn].
    repeat split.
    - simpl. destruct (skipn j ds) eqn:Hs; [congruence |]. simpl. now rewrite app_nil_r.
    - right. exists d, (firstn j ds). repeat split; [assumption |].
      constructor; [now apply all_digits_head in Hd | assumption].
    - assumption. }
  destruct ((-6 <? n)%Z && (n <=? 0)%Z) eqn:Hc.
  { exists [48], (Number.zeros (- n) ++ d :: ds), None. repeat split.
    - destruct (Number.zeros (- n) ++ d :: ds) eqn:Hz.
      + destruct (Number.zeros (- n)); discriminate.
      + simpl. rewrite app_nil_r. reflexivity.
    - now left.
    - apply all_digits_app; [apply all_digits_zeros | assumption]. }
  set (x := (n - 1)%Z).
  destruct (decimal_digits (Z.to_N (Z.abs x))) as (e & es & He & Hes).
  assert (Hex : exists sg, js (if (0 <=? x)%Z then "e+" else "e-") = [101; sg] /\ (sg = 43 \/ sg = 45)).
  { destruct (0 <=? x)%Z; [exists 43 | exists 45]; split; auto. }
  destruct Hex as (sg & -> & Hsg). rewrite He.
  assert (Hone : valid_int [d]).
  { right. exists d, []. repeat split; [assumption |].
    constructor; [now apply all_digits_head in Hd | constructor]. }
  assert (Hexp : valid_exp (Some (sg, e :: es))).
  { split; [assumption | split; [discriminate | assumption]]. }
  destruct ds as [| d2 ds].
  - exists [d], [], (Some (sg, e :: es)).
    split; [reflexivity | split; [assumption | split; [constructor | assumption]]].
  - exists [d], (d2 :: ds), (Some (sg, e :: es)).
    split; [| split; [assumption | split; [now apply all_digits_tail in Hd | assumption]]].
    simpl. reflexivity.
Qed.

Lemma to_string_head (x : Number.number) :
  Number.is_finite x = true ->
  exists c r, Number.to_string x = c :: r /\ (c = 45 \/ is_digit c = true).
Proof.
  destruct x as [| neg | neg m e]; try discriminate. intros _.
  unfold Number.to_string. destruct (m =? 0); [exists 48, []; split; auto |].
  destruct (Number.digits_and_exponent m e) as [p n].
  destruct neg; [exists 45; eexists; split; [reflexivity | now left] |].
  destruct (format_shape p n) as (int & frac & ex & -> & Hi & _).
  destruct Hi as [-> | (d & ds & -> & _ & Hd)].
  - exists 48; eexists; split; [reflexivity | now right].
  - exists d; eexists; split; [reflexivity | right; now apply all_digits_head in Hd].
Qed.

Lemma parse_number_to_string (x : Number.number) :
  Number.is_finite x = true ->
  exists y, forall rest, delimited rest ->
    parse_number (Number.to_string x ++ rest) = Some (y, rest).
Proof.
  destruct x as [| neg | neg m e]; try discriminate. intros _.
  unfold Number.to_string. destruct (m =? 0).
  - eexists. intros rest Hr.
    apply (parse_number_shape false [48] [] None rest); simpl; auto; [now left | constructor].
  - destruct (Number.digits_and_exponent m e) as [p n].
    destruct (format_shape p n) as (int & frac & ex & -> & Hi & Hf & Hx).
    eexists. intros rest Hr.
    rewrite <- (parse_number_shape neg int frac ex rest Hi Hf Hx Hr).
    f_equal. now rewrite <- !app_assoc.
Qed.

(** The number read back from the text of a finite number is the one
    [reparsed] names, whatever follows the text. *)
Lemma parse_number_reparsed (x : Number.number) (rest : jsstring) :
  Number.is_finite x = true -> delimited rest ->
  exists y, reparsed x = JNumber y
            /\ parse_number (Number.to_string x ++ rest) = Some (y, rest).
Proof.
  intros Hf Hr. destruct (parse_number_to_string x Hf) as [y Hy].
  exists y. split; [| now apply Hy].
  unfold reparsed. rewrite Hf.
  pose proof (Hy [] I) as H0. rewrite app_nil_r in H0. now rewrite H0.
Qed.

(** ** QuoteJSONString writes JSON strings *)

Arguments unicode_escape : simpl never.
Arguments escape_unit : simpl never.

Lemma hex_value_hex_digit (x : N) : x < 16 -> hex_value (hex_digit x) = Some x.
Proof.
  intros Hx. unfold hex_digit, hex_value, is_digit.
  destruct (N.ltb_spec x 10) as [Hlt | Hge].
  - replace ((48 <=? 48 + x) && (48 + x <=? 57)) with true.
    + f_equal; lia.
    + symmetry; apply andb_true_iff; split; apply N.leb_le; lia.
  - replace ((48 <=? 87 + x) && (87 + x <=? 57)) with false.
    + replace ((97 <=? 87 + x) && (87 + x <=? 102)) with true; [f_equal; lia |].
      symmetry; apply andb_true_iff; split; apply N.leb_le; lia.
    + symmetry; apply andb_false_iff; right; apply N.leb_gt; lia.
Qed.

Lemma string_chars_plain (c : N) (t : jsstring) :
  32 <= c -> c <> 34 -> c <> 92 -> string_chars (c :: t) = cons_unit c (string_chars t).
Proof.
  intros H32 H34 H92. simpl.
  apply N.eqb_neq in H34, H92. rewrite H34, H92.
  replace (c <? 32) with false; [reflexivity |].
  symmetry; apply N.ltb_ge; assumption.
Qed.

Lemma hex4_unicode_escape (c : N) :
  c < 65536 ->
  hex4 (hex_digit (c / 4096 mod 16)) (hex_digit (c / 256 mod 16))
       (hex_digit (c / 16 mod 16)) (hex_digit (c mod 16)) = Some c.
Proof.
  intros Hc.
  assert (H16 : forall x, x mod 16 < 16) by (intros; apply N.mod_upper_bound; lia).
  unfold hex4. rewrite !hex_value_hex_digit by apply H16. f_equal.
  pose proof (N.div_mod c 16 ltac:(lia)) as H0.
  pose proof (N.div_mod (c / 16) 16 ltac:(lia)) as H1.
  pose proof (N.div_mod (c / 256) 16 ltac:(lia)) as H2.
  replace (c / 16 / 16) with (c / 256) in H1 by (rewrite N.Div0.div_div; reflexivity).
  replace (c / 256 / 16) with (c / 4096) in H2 by (rewrite N.Div0.div_div; reflexivity).
  assert (H3 : c / 4096 < 16) by (apply N.Div0.div_lt_upper_bound; lia).
  rewrite (N.mod_small (c / 4096) 16 H3).
  revert H0 H1 H2. generalize (c mod 16) ((c / 16) mod 16) ((c / 256) mod 16).
  generalize (c / 16) (c / 256) (c / 4096). intros. lia.
Qed.

Lemma string_chars_unicode_escape (c : N) (t : jsstring) :
  c < 65536 -> string_chars (unicode_escape c ++ t) = cons_unit c (string_chars t).
Proof.
  intros Hc. unfold unicode_escape. simpl. now rewrite (hex4_unicode_escape c Hc).
Qed.

Lemma string_chars_escape_unit (c : N) (t : jsstring) :
  string_chars (escape_unit c ++ t) = cons_unit c (string_chars t).
Proof.
  unfold escape_unit.
  repeat match goal with
         | |- context [if ?x =? ?y then _ else _] =>
             destruct (N.eqb_spec x y); [subst; reflexivity |]
         end.
  destruct (N.ltb_spec c 32); [apply string_chars_unicode_escape; lia |].
  apply string_chars_plain; assumption.
Qed.

Lemma quote_units_cons (c : N) (r : jsstring) :
  quote_units (c :: r) =
  if is_high_surrogate c then
    match r with
    | d :: r' =>
        if is_low_surrogate d then c :: d :: quote_units r'
        else unicode_escape c ++ quote_units r
    | [] => unicode_escape c
    end
  else if is_low_surrogate c then unicode_escape c ++ quote_units r
  else escape_unit c ++ quote_units r.
Proof. reflexivity. Qed.

Lemma surrogate_bounds (c : N) :
  is_high_surrogate c = true \/ is_low_surrogate c = true -> 55296 <= c <= 57343.
Proof.
  unfold is_high_surrogate, is_low_surrogate. intros [H | H];
    apply andb_true_iff in H as [H1 H2]; apply N.leb_le in H1, H2; lia.
Qed.

Lemma string_chars_quote_units_bounded (n : nat) :
  forall s rest, (List.length s <= n)%nat ->
    string_chars (quote_units s ++ 34 :: rest) = Some (s, rest).
Proof.
  induction n as [| n IH]; intros s rest Hlen.
  - destruct s; [reflexivity | simpl in Hlen; lia].
  - destruct s as [| c r]; [reflexivity |].
    simpl in Hlen. rewrite quote_units_cons.
    destruct (is_high_surrogate c) eqn:Hh.
    + pose proof (surrogate_bounds c (or_introl Hh)) as Hc.
      destruct r as [| d r'].
      * rewrite string_chars_unicode_escape by lia. reflexivity.
      * destruct (is_low_surrogate d) eqn:Hl.
        -- pose proof (surrogate_bounds d (or_intror Hl)) as Hd.
           change ((c :: d :: quote_units r') ++ 34 :: rest)
             with (c :: d :: quote_units r' ++ 34 :: rest).
           rewrite !string_chars_plain by lia.
           rewrite (IH r' rest) by (simpl in Hlen; lia). reflexivity.
        -- rewrite <- app_assoc, string_chars_unicode_escape by lia.
           rewrite (IH (d :: r') rest) by lia. reflexivity.
    + destruct (is_low_surrogate c) eqn:Hl.
      * pose proof (surrogate_bounds c (or_intror Hl)) as Hc.
        rewrite <- app_assoc, string_chars_unicode_escape by lia.
        rewrite (IH r rest) by lia. reflexivity.
      * rewrite <- app_assoc, string_chars_escape_unit.
        rewrite (IH r rest) by lia. reflexivity.
Qed.

(** A quoted string is read back as it was, lone surrogates and control
    characters included. *)
Lemma string_chars_quote (s rest : jsstring) :
  string_chars (quote_units s ++ 34 :: rest) = Some (s, rest).
Proof. exact (string_chars_quote_units_bounded (List.length s) s rest (le_n _)). Qed.

(** ** [JSON.stringify] writes JSON texts *)

(** Induction on the values, with the hypothesis for every element of an
    array and every property value of an object. *)
Lemma json_induction (P : json -> Prop) :
  P JNull ->
  (forall b, P (JBool b)) ->
  (forall x, P (JNumber x)) ->
  (forall s, P (JString s)) ->
  (forall l, Forall P l -> P (JArray l)) ->
  (forall l, Forall (fun kv => P (snd kv)) l -> P (JObject l)) ->
  forall v, P v.
Proof.
  intros Hnull Hbool Hnum Hstr Harr Hobj.
  fix self 1. intros [| b | x | s | l | l].
  - exact Hnull.
  - apply Hbool.
  - apply Hnum.
  - apply Hstr.
  - apply Harr. induction l as [| v l IHl]; constructor; [apply self | exact IHl].
  - apply Hobj. induction l as [| [k v] l IHl]; constructor; [apply self | exact IHl].
Qed.

Lemma parse_value_S (f : nat) (s : jsstring) :
  parse_value (S f) s =
  match skip_ws s with
  | [] => None
  | c :: r =>
      if c =? 123 then
        match skip_ws r with
        | c' :: r' =>
            if c' =? 125 then Some (JObject [], r') else parse_members f (c' :: r') []
        | [] => None
        end
      else if c =? 91 then
        match skip_ws r with
        | c' :: r' =>
            if c' =? 93 then Some (JArray [], r') else parse_elements f (c' :: r') []
        | [] => None
        end
      else if c =? 34 then
        match string_chars r with
        | Some (str, rest) => Some (JString str, rest)
        | None => None
        end
      else parse_literal (c :: r)
  end.
Proof. reflexivity. Qed.

Lemma parse_elements_S (f : nat) (s : jsstring) (acc : list json) :
  parse_elements (S f) s acc =
  match parse_value f s with
  | Some (v, r) =>
      match skip_ws r with
      | c :: r' =>
          if c =? 44 then parse_elements f r' (v :: acc)
          else if c =? 93 then Some (JArray (rev (v :: acc)), r')
          else None
      | [] => None
      end
  | None => None
  end.
Proof. reflexivity. Qed.

Lemma parse_members_S (f : nat) (s : jsstring) (acc : list (jsstring * json)) :
  parse_members (S f) s acc =
  match skip_ws s with
  | c :: r =>
      if c =? 34 then
        match string_chars r with
        | Some (k, r1) =>
            match skip_ws r1 with
            | c1 :: r2 =>
                if c1 =? 58 then
                  match parse_value f r2 with
                  | Some (v, r3) =>
                      match skip_ws r3 with
                      | c3 :: r4 =>
                          if c3 =? 44 then parse_members f r4 (CreateDataProperty acc k v)
                          else if c3 =? 125 then
                            Some (JObject (CreateDataProperty acc k v), r4)
                          else None
                      | [] => None
                      end
                  | None => None
                  end
                else None
            | [] => None
            end
        | None => None
        end
      else None
  | [] => None
  end.
Proof. reflexivity. Qed.

Lemma is_digit_bounds (c : N) : is_digit c = true -> 48 <= c <= 57.
Proof.
  unfold is_digit. intros H. apply andb_true_iff in H as [H1 H2].
  apply N.leb_le in H1, H2. lia.
Qed.

Lemma number_head_opens (c : N) : c = 45 \/ is_digit c = true -> opens_value c.
Proof.
  intros [-> | H]; [repeat split; lia |].
  apply is_digit_bounds in H. unfold opens_value, is_ws.
  repeat split; try lia.
  repeat (apply orb_false_iff; split); apply N.eqb_neq; lia.
Qed.

Lemma stringify_head (v : json) :
  exists c r, JSON_stringify v = c :: r /\ opens_value c.
Proof.
  destruct v as [| b | x | s | l | l].
  - exists 110; eexists; split; [reflexivity | repeat split; lia].
  - destruct b; [exists 116 | exists 102]; eexists; (split; [reflexivity | repeat split; lia]).
  - simpl. destruct (Number.is_finite x) eqn:Hf.
    + destruct (to_string_head x Hf) as (c & r & -> & Hc).
      exists c, r. split; [reflexivity | now apply number_head_opens].
    + exists 110; eexists; split; [reflexivity | repeat split; lia].
  - exists 34; eexists; split; [reflexivity | repeat split; lia].
  - exists 91; eexists; split; [reflexivity | repeat split; lia].
  - exists 123; eexists; split; [reflexivity | repeat split; lia].
Qed.

Lemma parse_literal_number (c : N) (r : jsstring) :
  c = 45 \/ is_digit c = true ->
  parse_literal (c :: r) =
  match parse_number (c :: r) with
  | Some (x, r') => Some (JNumber x, r')
  | None => None
  end.
Proof.
  intros Hc.
  assert (H : c <> 116 /\ c <> 102 /\ c <> 110).
  { destruct Hc as [-> | Hc]; [lia | apply is_digit_bounds in Hc; lia]. }
  destruct H as (Ht & Hf & Hn).
  unfold parse_literal. simpl strip_prefix.
  apply not_eq_sym in Ht, Hf, Hn. apply N.eqb_neq in Ht, Hf, Hn.
  now rewrite Ht, Hf, Hn.
Qed.

Lemma parse_value_number (f : nat) (x : Number.number) (rest : jsstring) :
  Number.is_finite x = true -> delimited rest ->
  parse_value (S f) (Number.to_string x ++ rest) = Some (reparsed x, rest).
Proof.
  intros Hf Hr.
  destruct (parse_number_reparsed x rest Hf Hr) as (y & -> & Hy).
  destruct (to_string_head x Hf) as (c & r & Hs & Hc).
  rewrite Hs in *. simpl app in *.
  destruct (number_head_opens c Hc) as (Hws & _ & _).
  rewrite parse_value_S, (skip_ws_head _ _ Hws).
  assert (H : c <> 123 /\ c <> 91 /\ c <> 34).
  { destruct Hc as [-> | Hc]; [lia | apply is_digit_bounds in Hc; lia]. }
  destruct H as (H1 & H2 & H3). apply N.eqb_neq in H1, H2, H3.
  rewrite H1, H2, H3, (parse_literal_number c _ Hc), Hy. reflexivity.
Qed.

Lemma stringify_array (l : list json) :
  JSON_stringify (JArray l) = 91 :: join [44] (map JSON_stringify l) ++ [93].
Proof. reflexivity. Qed.

Lemma stringify_object (l : list (jsstring * json)) :
  JSON_stringify (JObject l) = 123 :: join [44] (map member_text l) ++ [125].
Proof. reflexivity. Qed.

Arguments join : simpl never.
Arguments member_text : simpl never.

Lemma join_single (sep x : jsstring) : join sep [x] = x.
Proof. reflexivity. Qed.

Lemma join_cons2 (sep x y : jsstring) (l : list jsstring) :
  join sep (x :: y :: l) = x ++ sep ++ join sep (y :: l).
Proof. reflexivity. Qed.

Lemma parse_elements_join (l : list json) :
  Forall reads_back l -> l <> [] ->
  forall f acc rest,
    (List.length (join [44%N] (map JSON_stringify l)) + 1 <= f)%nat ->
    parse_elements f (join [44] (map JSON_stringify l) ++ 93 :: rest) acc
    = Some (JArray (rev acc ++ map normalize l), rest).
Proof.
  induction 1 as [| v l Hv Hl IH]; [easy |]. intros _ f acc rest Hlen.
  destruct f as [| f]; [lia |]. rewrite parse_elements_S.
  destruct l as [| v2 l].
  - simpl map in *. rewrite join_single in *.
    rewrite (Hv f (93 :: rest)); [| simpl; auto | lia].
    rewrite skip_ws_head by reflexivity. reflexivity.
  - simpl map in *. rewrite join_cons2 in *. rewrite !length_app in Hlen. simpl in Hlen.
    rewrite <- !app_assoc. simpl app.
    rewrite (Hv f (44 :: join [44] (JSON_stringify v2 :: map JSON_stringify l) ++ 93 :: rest));
      [| simpl; auto | lia].
    rewrite skip_ws_head by reflexivity. simpl.
    rewrite (IH ltac:(discriminate)) by (simpl; lia).
    simpl rev. now rewrite <- app_assoc.
Qed.

Lemma parse_members_join (l : list (jsstring * json)) :
  Forall (fun kv => reads_back (snd kv)) l -> l <> [] ->
  forall f acc rest,
    (List.length (join [44%N] (map member_text l)) + 1 <= f)%nat ->
    parse_members f (join [44] (map member_text l) ++ 125 :: rest) acc
    = Some (JObject (fold_left define_member l acc), rest).
Proof.
  induction 1 as [| [k v] l Hv Hl IH]; [easy |]. intros _ f acc rest Hlen.
  destruct f as [| f]; [lia |]. rewrite parse_members_S.
  assert (Hmember : forall t,
    member_text (k, v) ++ t = 34 :: quote_units k ++ 34 :: 58 :: JSON_stringify v ++ t).
  { intros t. unfold member_text, QuoteJSONString. simpl. now rewrite <- !app_assoc. }
  assert (Hmlen : (List.length (JSON_stringify v) < List.length (member_text (k, v)))%nat).
  { unfold member_text, QuoteJSONString. simpl. rewrite !length_app. simpl. lia. }
  simpl snd in Hv.
  destruct l as [| kv2 l].
  - simpl map in *. rewrite join_single in *. rewrite Hmember.
    rewrite skip_ws_head by reflexivity. simpl.
    rewrite (string_chars_quote k (58 :: JSON_stringify v ++ 125 :: rest)).
    rewrite skip_ws_head by reflexivity. simpl.
    rewrite (Hv f (125 :: rest)); [| simpl; auto | lia].
    rewrite skip_ws_head by reflexivity. reflexivity.
  - simpl map in *. rewrite join_cons2 in *.
    assert (Hsum : List.length (member_text (k, v) ++ [44]
                                ++ join [44] (member_text kv2 :: map member_text l))
                   = (List.length (member_text (k, v)) + 1
                      + List.length (join [44%N] (member_text kv2 :: map member_text l)))%nat).
    { rewrite !length_app. simpl List.length. lia. }
    rewrite Hsum in Hlen. clear Hsum.
    rewrite <- !app_assoc. rewrite Hmember.
    rewrite skip_ws_head by reflexivity. simpl.
    rewrite (string_chars_quote k
               (58 :: JSON_stringify v ++ 44 :: join [44] (member_text kv2 :: map member_text l)
                       ++ 125 :: rest)).
    rewrite skip_ws_head by reflexivity. simpl.
    rewrite (Hv f (44 :: join [44] (member_text kv2 :: map member_text l) ++ 125 :: rest));
      [| simpl; auto | lia].
    rewrite skip_ws_head by reflexivity. simpl.
    rewrite (IH ltac:(discriminate)) by (simpl; lia). reflexivity.
Qed.

Lemma join_head (sep x : jsstring) (l : list jsstring) (c : N) (r : jsstring) :
  x = c :: r -> exists r', join sep (x :: l) = c :: r'.
Proof. intros ->. destruct l; [rewrite join_single | rewrite join_cons2]; simpl; eauto. Qed.

Lemma normalize_object (l : list (jsstring * json)) :
  normalize (JObject l) = JObject (fold_left define_member l []).
Proof. reflexivity. Qed.

(** What [JSON.stringify] writes for a value is read back as the
    normalized value, whatever follows it. *)
Theorem stringify_reads_back (v : json) : reads_back v.
Proof.
  induction v as [| b | x | s | l IH | l IH] using json_induction;
    intros f rest Hr Hlen.
  - destruct f as [| f]; [simpl in Hlen; lia |]. reflexivity.
  - destruct f as [| f]; [destruct b; simpl in Hlen; lia |].
    destruct b; reflexivity.
  - simpl JSON_stringify in *. destruct (Number.is_finite x) eqn:Hf.
    + destruct f as [| f].
      { destruct (to_string_head x Hf) as (c & r & Hs & _). rewrite Hs in Hlen.
        simpl in Hlen. lia. }
      apply (parse_value_number f x rest Hf Hr).
    + destruct f as [| f]; [simpl in Hlen; lia |].
      simpl normalize. unfold reparsed. rewrite Hf. reflexivity.
  - destruct f as [| f]; [simpl in Hlen; lia |].
    simpl JSON_stringify. unfold QuoteJSONString. rewrite <- !app_assoc. simpl app.
    rewrite parse_value_S, skip_ws_head by reflexivity. simpl.
    now rewrite (string_chars_quote s rest).
  - rewrite stringify_array in *. destruct f as [| f]; [simpl in Hlen; lia |].
    simpl in Hlen. rewrite length_app in Hlen. simpl in Hlen.
    simpl app. rewrite <- app_assoc. simpl app.
    rewrite parse_value_S, skip_ws_head by reflexivity. simpl.
    destruct l as [| v l]; [reflexivity |].
    destruct (stringify_head v) as (c & r & Hs & Hws & H93 & _).
    destruct (join_head [44] _ (map JSON_stringify l) c r Hs) as [r' Hj].
    change (join [44] (map JSON_stringify (v :: l)) = c :: r') in Hj.
    rewrite Hj. simpl app. rewrite (skip_ws_head _ _ Hws).
    apply N.eqb_neq in H93. rewrite H93.
    change (c :: r' ++ 93 :: rest) with ((c :: r') ++ 93 :: rest). rewrite <- Hj.
    rewrite (parse_elements_join (v :: l) IH ltac:(discriminate)) by lia. reflexivity.
  - rewrite stringify_object in *. destruct f as [| f]; [simpl in Hlen; lia |].
    simpl in Hlen. rewrite length_app in Hlen. simpl in Hlen.
    simpl app. rewrite <- app_assoc. simpl app.
    rewrite parse_value_S, skip_ws_head by reflexivity. simpl.
    destruct l as [| kv l]; [reflexivity |].
    assert (Hs : member_text kv = 34 :: (quote_units (fst kv) ++ [34])
                                       ++ js ":" ++ JSON_stringify (snd kv)) by reflexivity.
    destruct (join_head [44] _ (map member_text l) 34 _ Hs) as [r' Hj].
    change (join [44] (map member_text (kv :: l)) = 34 :: r') in Hj.
    rewrite Hj. simpl app. rewrite skip_ws_head by reflexivity.
    simpl.
    change (34 :: r' ++ 125 :: rest) with ((34 :: r') ++ 125 :: rest). rewrite <- Hj.
    rewrite (parse_members_join (kv :: l) IH ltac:(discriminate)) by lia.
    reflexivity.
Qed.

(** [JSON.parse] accepts every text [JSON.stringify] writes, and reads the
    normalized value from it. *)
Theorem JSON_parse_stringify (v : json) :
  JSON_parse (JSON_stringify v) = Some (normalize v).
Proof.
  unfold JSON_parse.
  pose proof (stringify_reads_back v (S (List.length (JSON_stringify v))) [] I ltac:(lia))
    as Hv.
  rewrite app_nil_r in Hv. now rewrite Hv.
Qed.

(** ** The fuel of [JSON_parse] is enough *)

Lemma skip_ws_length (s : jsstring) : (List.length (skip_ws s) <= List.length s)%nat.
Proof.
  induction s as [| c r IH]; simpl; [lia |].
  destruct (is_ws c); simpl; lia.
Qed.

Lemma scan_digits_length (s : jsstring) :
  (List.length (snd (scan_digits s)) <= List.length s)%nat.
Proof.
  induction s as [| c r IH]; simpl; [lia |].
  destruct (is_digit c); [| simpl; lia].
  destruct (scan_digits r) as [ds rest]. simpl in *. lia.
Qed.

Lemma scan_int_length (s int rest : jsstring) :
  scan_int s = Some (int, rest) -> (List.length rest < List.length s)%nat.
Proof.
  destruct s as [| c r]; simpl; [discriminate |].
  destruct (c =? 48); [intros [= _ <-]; lia |].
  destruct (is_digit c); [| discriminate].
  pose proof (scan_digits_length r) as H.
  destruct (scan_digits r) as [ds rest']. intros [= _ <-]. simpl in H. lia.
Qed.

Lemma scan_frac_length (s frac rest : jsstring) :
  scan_frac s = Some (frac, rest) -> (List.length rest <= List.length s)%nat.
Proof.
  destruct s as [| c r]; simpl; [intros [= _ <-]; simpl; lia |].
  destruct (c =? 46); [| intros [= _ <-]; simpl; lia].
  pose proof (scan_digits_length r) as H.
  destruct (scan_digits r) as [[| d ds] rest']; [discriminate |].
  intros [= _ <-]. simpl in H. lia.
Qed.

Lemma scan_sign_length (s : jsstring) :
  (List.length (snd (scan_sign s)) <= List.length s)%nat.
Proof.
  destruct s as [| d r]; simpl; [lia |].
  destruct (d =? 45); [simpl; lia |]. destruct (d =? 43); simpl; lia.
Qed.

Lemma scan_exp_length (s : jsstring) (x : Z) (rest : jsstring) :
  scan_exp s = Some (x, rest) -> (List.length rest <= List.length s)%nat.
Proof.
  destruct s as [| c r]; simpl; [intros [= _ <-]; simpl; lia |].
  destruct ((c =? 101) || (c =? 69)); [| intros [= _ <-]; simpl; lia].
  pose proof (scan_sign_length r) as Hs.
  destruct (scan_sign r) as [neg r1]. simpl in Hs.
  pose proof (scan_digits_length r1) as Hd.
  destruct (scan_digits r1) as [[| d ds] rest']; [discriminate |].
  intros [= _ <-]. simpl in Hd. lia.
Qed.

Lemma parse_unsigned_length (neg : bool) (s : jsstring) (x : Number.number) (rest : jsstring) :
  parse_unsigned neg s = Some (x, rest) -> (List.length rest < List.length s)%nat.
Proof.
  unfold parse_unsigned.
  destruct (scan_int s) as [[int s2] |] eqn:Hi; [| discriminate].
  destruct (scan_frac s2) as [[frac s3] |] eqn:Hf; [| discriminate].
  destruct (scan_exp s3) as [[y s4] |] eqn:He; [| discriminate].
  intros [= _ <-].
  apply scan_int_length in Hi. apply scan_frac_length in Hf. apply scan_exp_length in He. lia.
Qed.

Lemma parse_number_length (s : jsstring) (x : Number.number) (rest : jsstring) :
  parse_number s = Some (x, rest) -> (List.length rest < List.length s)%nat.
Proof.
  destruct s as [| c r]; simpl; [discriminate |].
  destruct (c =? 45); intros H; apply parse_unsigned_length in H; simpl in *; lia.
Qed.

Lemma strip_prefix_length (p s rest : jsstring) :
  strip_prefix p s = Some rest -> List.length s = (List.length p + List.length rest)%nat.
Proof.
  revert s; induction p as [| a p IH]; intros s; simpl; [now intros [= <-] |].
  destruct s as [| b s]; [discriminate |].
  destruct (a =? b); [| discriminate]. intros H. apply IH in H. simpl. lia.
Qed.

Lemma parse_literal_length (s : jsstring) (v : json) (rest : jsstring) :
  parse_literal s = Some (v, rest) -> (List.length rest < List.length s)%nat.
Proof.
  unfold parse_literal.
  destruct (strip_prefix (js "true") s) eqn:Ht.
  { intros [= _ <-]. apply strip_prefix_length in Ht. simpl in Ht. lia. }
  destruct (strip_prefix (js "false") s) eqn:Hf.
  { intros [= _ <-]. apply strip_prefix_length in Hf. simpl in Hf. lia. }
  destruct (strip_prefix (js "null") s) eqn:Hn.
  { intros [= _ <-]. apply strip_prefix_length in Hn. simpl in Hn. lia. }
  destruct (parse_number s) as [[x r] |] eqn:Hx; [| discriminate].
  intros [= _ <-]. now apply parse_number_length in Hx.
Qed.

Lemma cons_unit_length (u : N) (o : option (jsstring * jsstring)) (str rest : jsstring) :
  cons_unit u o = Some (str, rest) -> exists str', o = Some (str', rest).
Proof. destruct o as [[s r] |]; simpl; [intros [= _ <-]; eauto | discriminate]. Qed.

Lemma string_chars_length_bounded (n : nat) :
  forall s str rest, (List.length s <= n)%nat ->
    string_chars s = Some (str, rest) -> (List.length rest < List.length s)%nat.
Proof.
  induction n as [| n IH]; intros s str rest Hn.
  - destruct s; [discriminate | simpl in Hn; lia].
  - destruct s as [| c r]; [discriminate |]. simpl in Hn. simpl string_chars.
    destruct (c =? 34); [intros [= _ <-]; simpl; lia |].
    destruct (c <? 32); [discriminate |].
    destruct (c =? 92).
    + destruct r as [| e r1]; [discriminate |].
      destruct (e =? 117).
      * destruct r1 as [| h1 [| h2 [| h3 [| h4 r2]]]]; try discriminate.
        destruct (hex4 h1 h2 h3 h4); [| discriminate].
        intros H. apply cons_unit_length in H as [str' H].
        apply IH in H; simpl in *; lia.
      * destruct (simple_escape e); [| discriminate].
        intros H. apply cons_unit_length in H as [str' H].
        apply IH in H; simpl in *; lia.
    + intros H. apply cons_unit_length in H as [str' H].
      apply IH in H; simpl in *; lia.
Qed.

Lemma string_chars_length (s str rest : jsstring) :
  string_chars s = Some (str, rest) -> (List.length rest < List.length s)%nat.
Proof. apply (string_chars_length_bounded (List.length s)). lia. Qed.

Lemma parse_fuel_stable (f : nat) : stable_value f /\ stable_elements f /\ stable_members f.
Proof.
  induction f as [| f (IHv & IHe & IHm)].
  { repeat split; intros; discriminate. }
  split; [| split].
  - intros s v rest. rewrite parse_value_S.
    pose proof (skip_ws_length s) as Hs.
    destruct (skip_ws s) as [| c r] eqn:Hskip; [discriminate |]. simpl in Hs.
    destruct (c =? 123) eqn:Hc1; [| destruct (c =? 91) eqn:Hc2; [| destruct (c =? 34) eqn:Hc3]].
    + pose proof (skip_ws_length r) as Hr.
      destruct (skip_ws r) as [| c' r'] eqn:Hskip2; [discriminate |]. simpl in Hr.
      destruct (c' =? 125) eqn:Hc4.
      * intros [= <- <-]. split; [lia |]. intros [| g] Hg; [lia |].
        now rewrite parse_value_S, Hskip, Hc1, Hskip2, Hc4.
      * intros H. apply IHm in H as [Hlt Hst]. simpl in Hlt. split; [lia |].
        intros [| g] Hg; [lia |].
        rewrite parse_value_S, Hskip, Hc1, Hskip2, Hc4. apply Hst. cbn [List.length]. lia.
    + pose proof (skip_ws_length r) as Hr.
      destruct (skip_ws r) as [| c' r'] eqn:Hskip2; [discriminate |]. simpl in Hr.
      destruct (c' =? 93) eqn:Hc4.
      * intros [= <- <-]. split; [lia |]. intros [| g] Hg; [lia |].
        now rewrite parse_value_S, Hskip, Hc1, Hc2, Hskip2, Hc4.
      * intros H. apply IHe in H as [Hlt Hst]. simpl in Hlt. split; [lia |].
        intros [| g] Hg; [lia |].
        rewrite parse_value_S, Hskip, Hc1, Hc2, Hskip2, Hc4. apply Hst. cbn [List.length]. lia.
    + destruct (string_chars r) as [[str rest'] |] eqn:Hstr; [| discriminate].
      intros [= <- <-]. pose proof (string_chars_length _ _ _ Hstr) as Hl. split; [lia |].
      intros [| g] Hg; [lia |].
      now rewrite parse_value_S, Hskip, Hc1, Hc2, Hc3, Hstr.
    + intros H. pose proof (parse_literal_length _ _ _ H) as Hl. simpl in Hl.
      split; [lia |]. intros [| g] Hg; [lia |].
      now rewrite parse_value_S, Hskip, Hc1, Hc2, Hc3.
  - intros s acc v rest. rewrite parse_elements_S.
    destruct (parse_value f s) as [[v1 r1] |] eqn:Hv; [| discriminate].
    apply IHv in Hv as [Hlt1 Hst1].
    pose proof (skip_ws_length r1) as Hr1.
    destruct (skip_ws r1) as [| c r'] eqn:Hskip; [discriminate |]. simpl in Hr1.
    destruct (c =? 44) eqn:Hc1; [| destruct (c =? 93) eqn:Hc2; [| discriminate]].
    + intros H. apply IHe in H as [Hlt Hst]. split; [lia |].
      intros [| g] Hg; [lia |].
      rewrite parse_elements_S, (Hst1 g) by lia. rewrite Hskip, Hc1. apply Hst. lia.
    + intros [= <- <-]. split; [lia |]. intros [| g] Hg; [lia |].
      rewrite parse_elements_S, (Hst1 g) by lia. now rewrite Hskip, Hc1, Hc2.
  - intros s acc v rest. rewrite parse_members_S.
    pose proof (skip_ws_length s) as Hs.
    destruct (skip_ws s) as [| c r] eqn:Hskip; [discriminate |]. simpl in Hs.
    destruct (c =? 34) eqn:Hc; [| discriminate].
    destruct (string_chars r) as [[k r1] |] eqn:Hstr; [| discriminate].
    pose proof (string_chars_length _ _ _ Hstr) as Hk.
    pose proof (skip_ws_length r1) as Hr1.
    destruct (skip_ws r1) as [| c1 r2] eqn:Hskip1; [discriminate |]. simpl in Hr1.
    destruct (c1 =? 58) eqn:Hc1; [| discriminate].
    destruct (parse_value f r2) as [[v1 r3] |] eqn:Hv; [| discriminate].
    apply IHv in Hv as [Hlt1 Hst1].
    pose proof (skip_ws_length r3) as Hr3.
    destruct (skip_ws r3) as [| c3 r4] eqn:Hskip3; [discriminate |]. simpl in Hr3.
    destruct (c3 =? 44) eqn:Hc3; [| destruct (c3 =? 125) eqn:Hc4; [| discriminate]].
    + intros H. apply IHm in H as [Hlt Hst]. split; [lia |].
      intros [| g] Hg; [lia |].
      rewrite parse_members_S, Hskip, Hc, Hstr, Hskip1, Hc1, (Hst1 g) by lia.
      rewrite Hskip3, Hc3. apply Hst. lia.
    + intros [= <- <-]. split; [lia |]. intros [| g] Hg; [lia |].
      rewrite parse_members_S, Hskip, Hc, Hstr, Hskip1, Hc1, (Hst1 g) by lia.
      now rewrite Hskip3, Hc3, Hc4.
Qed.

(** No amount of fuel reads more than [JSON_parse] does: a text it
    rejects is rejected with any fuel. *)
Theorem JSON_parse_fuel_enough (text : jsstring) (f : nat) (v : json) (rest : jsstring) :
  parse_value f text = Some (v, rest) ->
  parse_value (S (List.length text)) text = Some (v, rest).
Proof.
  intros H. destruct (parse_fuel_stable f) as (Hv & _ & _).
  apply Hv in H as [_ Hst]. apply Hst. lia.
Qed.

(** ** Running the handlers *)

Lemma run_bind {A B : Type} (w : request -> completion Response) (p : prog A) (f : A -> prog B) :
  run w (bind p f) =
  match run w p with
  | (calls, Normal a) => let '(more, c) := run w (f a) in (calls ++ more, c)
  | (calls, Throw e) => (calls, Throw e)
  end.
Proof.
  induction p as [a | e | rq k IH]; simpl.
  - now destruct (run w (f a)).
  - reflexivity.
  - rewrite IH. destruct (run w (k (w rq))) as [calls [a | e]]; [| reflexivity].
    now destruct (run w (f a)).
Qed.

Lemma run_try_catch {A : Type} (w : request -> completion Response) (p : prog A)
  (h : Error -> prog A) :
  run w (try_catch p h) =
  match run w p with
  | (calls, Normal a) => (calls, Normal a)
  | (calls, Throw e) => let '(more, c) := run w (h e) in (calls ++ more, c)
  end.
Proof.
  induction p as [a | e | rq k IH]; simpl.
  - reflexivity.
  - now destruct (run w (h e)).
  - rewrite IH. destruct (run w (k (w rq))) as [calls [a | e]]; [reflexivity |].
    now destruct (run w (h e)).
Qed.

(** What the [try] block of src/unnamed/part_000 makes of the settled
    [fetch]. *)
Lemma Part000_try_block_run (E : engine) (env : process_env) (d : option jsstring)
  (o : list (jsstring * jsstring)) (w : request -> completion Response) :
  run w (Part000.try_block E env d o) =
  ([upstream_request env d o],
   match w (upstream_request env d o) with
   | Throw e => Throw e
   | Normal r =>
       match text r with
       | Throw e => Throw e
       | Normal raw =>
           match JSON_parse raw with
           | None => Normal (Part000.parse_failure E raw d)
           | Some data =>
               if ok r then Normal (success data)
               else map_completion (fun t => upstream_error_response r t data)
                      (cwa_error_text E r data)
           end
       end
   end).
Proof.
  unfold Part000.try_block, fetch, upstream_request. simpl.
  destruct (w _) as [r | e]; simpl; [| reflexivity].
  destruct (text r) as [raw | e]; simpl; [| reflexivity].
  destruct (JSON_parse raw) as [data |]; simpl; [| reflexivity].
  destruct (ok r); simpl; [reflexivity |].
  unfold upstream_error. now destruct (cwa_error_text E r data).
Qed.

(** The same for src/netlify/functions/cwa-proxy.js. *)
Lemma CwaProxy_try_block_run (E : engine) (env : process_env) (d : option jsstring)
  (o : list (jsstring * jsstring)) (w : request -> completion Response) :
  run w (CwaProxy.try_block E env d o) =
  ([upstream_request env d o],
   match w (upstream_request env d o) with
   | Throw e => Throw e
   | Normal r =>
       match text r with
       | Throw e => Throw e
       | Normal raw =>
           match JSON_parse raw with
           | None => Throw (mkError (syntax_error_message E raw))
           | Some data =>
               if ok r then Normal (success data)
               else map_completion (fun t => upstream_error_response r t data)
                      (cwa_error_text E r data)
           end
       end
   end).
Proof.
  unfold CwaProxy.try_block, CwaProxy.json_body, fetch, upstream_request. simpl.
  destruct (w _) as [r | e]; simpl; [| reflexivity].
  destruct (text r) as [raw | e]; simpl; [| reflexivity].
  destruct (JSON_parse raw) as [data |]; simpl; [| reflexivity].
  destruct (ok r); simpl; [reflexivity |].
  unfold upstream_error. now destruct (cwa_error_text E r data).
Qed.

Lemma Part000_handler_run (E : engine) (env : process_env) (ev : event)
  (q : list (jsstring * jsstring)) (w : request -> completion Response) :
  queryStringParameters ev = Some q ->
  falsy (get q (js "datasetId")) = false ->
  run w (Part000.handler E env ev) =
  ([upstream_request env (get q (js "datasetId")) (rest_properties q (js "datasetId"))],
   Normal (caught (snd (run w (Part000.try_block E env (get q (js "datasetId"))
                                 (rest_properties q (js "datasetId"))))))).
Proof.
  intros Hq Hd. unfold Part000.handler. rewrite Hq, Hd, run_try_catch.
  pose proof (Part000_try_block_run E env (get q (js "datasetId"))
                (rest_properties q (js "datasetId")) w) as Hrun.
  destruct (run w (Part000.try_block _ _ _ _)) as [calls c].
  injection Hrun as -> _.
  destruct c as [r | e]; reflexivity.
Qed.

Lemma CwaProxy_handler_run (E : engine) (env : process_env) (ev : event)
  (q : list (jsstring * jsstring)) (w : request -> completion Response) :
  queryStringParameters ev = Some q ->
  falsy (get q (js "datasetId")) = false ->
  run w (CwaProxy.handler E env ev) =
  ([upstream_request env (get q (js "datasetId")) (rest_properties q (js "datasetId"))],
   Normal (caught (snd (run w (CwaProxy.try_block E env (get q (js "datasetId"))
                                 (rest_properties q (js "datasetId"))))))).
Proof.
  intros Hq Hd. unfold CwaProxy.handler. rewrite Hq, Hd, run_try_catch.
  pose proof (CwaProxy_try_block_run E env (get q (js "datasetId"))
                (rest_properties q (js "datasetId")) w) as Hrun.
  destruct (run w (CwaProxy.try_block _ _ _ _)) as [calls c].
  injection Hrun as -> _.
  destruct c as [r | e]; reflexivity.
Qed.

Lemma falsy_present (q : list (jsstring * jsstring)) (d : jsstring) :
  get q (js "datasetId") = Some d -> d <> [] -> falsy (get q (js "datasetId")) = false.
Proof. intros -> Hd. simpl. now apply str_eqb_neq. Qed.

Lemma falsy_missing (q : list (jsstring * jsstring)) :
  get q (js "datasetId") = None \/ get q (js "datasetId") = Some [] ->
  falsy (get q (js "datasetId")) = true.
Proof. intros [-> | ->]; reflexivity. Qed.

(** One invocation makes one outbound call when [datasetId] is there, and
    none otherwise: there is no retry. *)
Theorem one_outbound_call_at_most (E : engine) (env : process_env) (ev : event)
  (w : request -> completion Response) :
  (List.length (fst (run w (Part000.handler E env ev))) <= 1)%nat
  /\ (List.length (fst (run w (CwaProxy.handler E env ev))) <= 1)%nat.
Proof.
  destruct (queryStringParameters ev) as [q |] eqn:Hq.
  - destruct (falsy (get q (js "datasetId"))) eqn:Hd.
    + unfold Part000.handler, CwaProxy.handler. rewrite Hq, Hd. simpl. lia.
    + rewrite (Part000_handler_run E env ev q w Hq Hd),
        (CwaProxy_handler_run E env ev q w Hq Hd). simpl. lia.
  - unfold Part000.handler, CwaProxy.handler. rewrite Hq. simpl. lia.
Qed.

(** ** Every response is JSON with the CORS header (C1) *)

Lemma written_caught_Part000 (E : engine) (env : process_env) (d : option jsstring)
  (o : list (jsstring * jsstring)) (w : request -> completion Response) :
  written (caught (snd (run w (Part000.try_block E env d o)))).
Proof.
  rewrite Part000_try_block_run. simpl snd.
  destruct (w _) as [r | e]; [| split; [reflexivity | eexists; reflexivity]].
  destruct (text r) as [raw | e]; [| split; [reflexivity | eexists; reflexivity]].
  destruct (JSON_parse raw) as [data |]; [| split; [reflexivity | eexists; reflexivity]].
  destruct (ok r); [split; [reflexivity | eexists; reflexivity] |].
  destruct (cwa_error_text E r data); split; try reflexivity; eexists; reflexivity.
Qed.

Lemma written_caught_CwaProxy (E : engine) (env : process_env) (d : option jsstring)
  (o : list (jsstring * jsstring)) (w : request -> completion Response) :
  written (caught (snd (run w (CwaProxy.try_block E env d o)))).
Proof.
  rewrite CwaProxy_try_block_run. simpl snd.
  destruct (w _) as [r | e]; [| split; [reflexivity | eexists; reflexivity]].
  destruct (text r) as [raw | e]; [| split; [reflexivity | eexists; reflexivity]].
  destruct (JSON_parse raw) as [data |]; [| split; [reflexivity | eexists; reflexivity]].
  destruct (ok r); [split; [reflexivity | eexists; reflexivity] |].
  destruct (cwa_error_text E r data); split; try reflexivity; eexists; reflexivity.
Qed.

Lemma written_missing_datasetId : written missing_datasetId.
Proof. split; [reflexivity | eexists; reflexivity]. Qed.

Lemma Part000_returns_written (E : engine) (env : process_env) (ev : event)
  (w : request -> completion Response) (calls : list request) (r : response) :
  run w (Part000.handler E env ev) = (calls, Normal r) -> written r.
Proof.
  destruct (queryStringParameters ev) as [q |] eqn:Hq.
  - destruct (falsy (get q (js "datasetId"))) eqn:Hd.
    + unfold Part000.handler. rewrite Hq, Hd. simpl. intros [= _ <-].
      apply written_missing_datasetId.
    + rewrite (Part000_handler_run E env ev q w Hq Hd). intros [= _ <-].
      apply written_caught_Part000.
  - unfold Part000.handler. rewrite Hq. discriminate.
Qed.

Lemma CwaProxy_returns_written (E : engine) (env : process_env) (ev : event)
  (w : request -> completion Response) (calls : list request) (r : response) :
  run w (CwaProxy.handler E env ev) = (calls, Normal r) -> written r.
Proof.
  destruct (queryStringParameters ev) as [q |] eqn:Hq.
  - destruct (falsy (get q (js "datasetId"))) eqn:Hd.
    + unfold CwaProxy.handler. rewrite Hq, Hd. simpl. intros [= _ <-].
      apply written_missing_datasetId.
    + rewrite (CwaProxy_handler_run E env ev q w Hq Hd). intros [= _ <-].
      apply written_caught_CwaProxy.
  - unfold CwaProxy.handler. rewrite Hq. discriminate.
Qed.

(** C1.  Whatever the event, the environment and the upstream do, a response
    returned by the handler (of either source file) has exactly the headers
    [Content-Type: application/json] and [Access-Control-Allow-Origin: *],
    and its body is a text that [JSON.parse] accepts. *)
Theorem C1_response_is_json_with_cors (E : engine) (env : process_env) (ev : event)
  (w : request -> completion Response) (calls : list request) (r : response) :
  run w (Part000.handler E env ev) = (calls, Normal r)
  \/ run w (CwaProxy.handler E env ev) = (calls, Normal r) ->
  headers r = [(js "Content-Type", js "application/json");
               (js "Access-Control-Allow-Origin", js "*")]
  /\ exists v, JSON_parse (body r) = Some v.
Proof.
  intros H.
  assert (Hw : written r).
  { destruct H as [H | H];
      [eapply Part000_returns_written | eapply CwaProxy_returns_written]; exact H. }
  destruct Hw as [Hh [v Hb]]. split; [exact Hh |].
  rewrite Hb. exists (normalize v). apply JSON_parse_stringify.
Qed.

Lemma C1_witness :
  headers (success (JObject [(js "foo", JString (js "bar"))]))
  = [(js "Content-Type", js "application/json");
     (js "Access-Control-Allow-Origin", js "*")]
  /\ exists v, JSON_parse (body (success (JObject [(js "foo", JString (js "bar"))]))) = Some v.
Proof.
  apply (C1_response_is_json_with_cors sample_engine sample_env sample_event
           (answers 200 (jsq "{'foo':'bar'}"))
           [upstream_request sample_env (Some (js "F-C0032-001"))
              [(js "locationName", [33274; 21271])]]).
  left. vm_compute. reflexivity.
Defined.

(** ** The handler returns whenever the event carries an object (C2) *)

(** C2, as the code has it.  When [event.queryStringParameters] is an
    object, whatever its keys, the handler of either source file settles by
    returning a response: no exception leaves it. *)
Theorem C2_returns_when_parameters_are_an_object (E : engine) (env : process_env)
  (ev : event) (q : list (jsstring * jsstring)) (w : request -> completion Response) :
  queryStringParameters ev = Some q ->
  (exists calls r, run w (Part000.handler E env ev) = (calls, Normal r))
  /\ (exists calls r, run w (CwaProxy.handler E env ev) = (calls, Normal r)).
Proof.
  intros Hq. destruct (falsy (get q (js "datasetId"))) eqn:Hd.
  - unfold Part000.handler, CwaProxy.handler. rewrite Hq, Hd.
    split; exists [], missing_datasetId; reflexivity.
  - rewrite (Part000_handler_run E env ev q w Hq Hd),
      (CwaProxy_handler_run E env ev q w Hq Hd).
    split; eexists; eexists; reflexivity.
Qed.

Lemma C2_witness :
  (exists calls r,
      run (unreachable (js "fetch failed")) (Part000.handler sample_engine sample_env sample_event)
      = (calls, Normal r))
  /\ (exists calls r,
         run (unreachable (js "fetch failed")) (CwaProxy.handler sample_engine sample_env sample_event)
         = (calls, Normal r)).
Proof.
  apply (C2_returns_when_parameters_are_an_object sample_engine sample_env sample_event
           [(js "datasetId", js "F-C0032-001"); (js "locationName", [33274; 21271])]).
  reflexivity.
Defined.

(** C2 fails as stated.  The destructuring of [event.queryStringParameters]
    stands before the [try]: with [null] there it throws, and the handler's
    promise is rejected. *)
Lemma C2_null_parameters_counterexample :
  let ev := {| queryStringParameters := None; multiValueQueryStringParameters := None |} in
  run (answers 200 (jsq "{'foo':'bar'}")) (Part000.handler sample_engine sample_env ev)
  = ([], Throw (mkError (destructure_message sample_engine)))
  /\ run (answers 200 (jsq "{'foo':'bar'}")) (CwaProxy.handler sample_engine sample_env ev)
     = ([], Throw (mkError (destructure_message sample_engine)))
  /\ ~ (exists calls r,
           run (answers 200 (jsq "{'foo':'bar'}")) (Part000.handler sample_engine sample_env ev)
           = (calls, Normal r)).
Proof.
  repeat split. intros (calls & r & H). discriminate H.
Qed.

(** ** Validation (C3) *)

(** C3, as the code has it.  When the event carries a parameters object
    and [datasetId] is absent from it or is the empty string, the handler of
    either source file returns without any outbound call; the response has
    status 400 and its body is the JSON object whose [error] is
    "Missing datasetId in query parameters.". *)
Theorem C3_missing_datasetId (E : engine) (env : process_env) (ev : event)
  (q : list (jsstring * jsstring)) (w : request -> completion Response) :
  queryStringParameters ev = Some q ->
  get q (js "datasetId") = None \/ get q (js "datasetId") = Some [] ->
  (exists r,
      run w (Part000.handler E env ev) = ([], Normal r)
      /\ run w (CwaProxy.handler E env ev) = ([], Normal r)
      /\ statusCode r = 400
      /\ JSON_parse (body r)
         = Some (JObject [(js "error", JString (js "Missing datasetId in query parameters."))])).
Proof.
  intros Hq Hd. apply falsy_missing in Hd. exists missing_datasetId.
  unfold Part000.handler, CwaProxy.handler. rewrite Hq, Hd.
  split; [reflexivity | split; [reflexivity | split; [reflexivity |]]].
  vm_compute. reflexivity.
Qed.

Lemma C3_witness :
  exists r,
    run (answers 200 (jsq "{'foo':'bar'}"))
      (Part000.handler sample_engine sample_env
         {| queryStringParameters := Some [(js "locationName", [33274; 21271]); (js "datasetId", [])];
            multiValueQueryStringParameters := None |})
    = ([], Normal r)
    /\ run (answers 200 (jsq "{'foo':'bar'}"))
         (CwaProxy.handler sample_engine sample_env
            {| queryStringParameters := Some [(js "locationName", [33274; 21271]); (js "datasetId", [])];
               multiValueQueryStringParameters := None |})
       = ([], Normal r)
    /\ statusCode r = 400
    /\ JSON_parse (body r)
       = Some (JObject [(js "error", JString (js "Missing datasetId in query parameters."))]).
Proof.
  apply (C3_missing_datasetId sample_engine sample_env _
           [(js "locationName", [33274; 21271]); (js "datasetId", [])]).
  - reflexivity.
  - right. reflexivity.
Defined.

(** C3 fails as stated.  A request without a parameters object has no
    [datasetId] either, and there the destructuring, which stands before
    the validation, throws: the handler returns no response, and so no 400
    (it makes no outbound call). *)
Lemma C3_no_parameters_counterexample :
  let ev := {| queryStringParameters := None; multiValueQueryStringParameters := None |} in
  run (unreachable (js "fetch failed")) (Part000.handler sample_engine sample_env ev)
  = ([], Throw (mkError (destructure_message sample_engine)))
  /\ run (unreachable (js "fetch failed")) (CwaProxy.handler sample_engine sample_env ev)
     = ([], Throw (mkError (destructure_message sample_engine)))
  /\ ~ (exists r,
           run (unreachable (js "fetch failed")) (Part000.handler sample_engine sample_env ev)
           = ([], Normal r) /\ statusCode r = 400)
  /\ ~ (exists r,
           run (unreachable (js "fetch failed")) (CwaProxy.handler sample_engine sample_env ev)
           = ([], Normal r) /\ statusCode r = 400).
Proof.
  repeat split; intros (r & H & _); discriminate H.
Qed.

(** ** The pairs of [URLSearchParams] *)

Lemma has_false_not_in {A : Type} (l : list (jsstring * A)) (k : jsstring) :
  has l k = false <-> ~ In k (map fst l).
Proof.
  unfold has. induction l as [| [k' v] l IH]; simpl; [easy |].
  destruct (str_eqb k' k) eqn:Hk.
  - apply str_eqb_eq in Hk. split; [discriminate | intros H; exfalso; apply H; now left].
  - apply str_eqb_neq in Hk. rewrite IH. tauto.
Qed.

Lemma replace_value_keys {A : Type} (l : list (jsstring * A)) (k : jsstring) (v : A) :
  map fst (replace_value l k v) = map fst l.
Proof.
  induction l as [| [k' v'] l IH]; simpl; [reflexivity |].
  destruct (str_eqb k' k); simpl; [reflexivity | now rewrite IH].
Qed.

Lemma record_set_NoDup (l : list (list N * list N)) (k v : list N) :
  NoDup (map fst l) -> NoDup (map fst (record_set l k v)).
Proof.
  intros Hl. unfold record_set. destruct (has l k) eqn:Hk.
  - now rewrite replace_value_keys.
  - apply has_false_not_in in Hk. rewrite map_app. simpl.
    apply NoDup_app; [assumption | constructor; [easy | constructor] |].
    intros x Hx [<- | []]. contradiction.
Qed.

Lemma URLSearchParams_fold_NoDup (o : list (jsstring * jsstring)) :
  forall acc, NoDup (map fst acc) ->
    NoDup (map fst (fold_left (fun acc kv =>
                                 record_set acc (code_points (fst kv)) (code_points (snd kv)))
                              o acc)).
Proof.
  induction o as [| kv o IH]; intros acc Hacc; simpl; [assumption |].
  apply IH. now apply record_set_NoDup.
Qed.

(** No name is written twice, whatever the object holds. *)
Lemma URLSearchParams_NoDup (o : list (jsstring * jsstring)) :
  NoDup (map fst (URLSearchParams o)).
Proof. apply URLSearchParams_fold_NoDup. constructor. Qed.

Lemma URLSearchParams_fold_distinct (o : list (jsstring * jsstring)) :
  forall acc,
    NoDup (map fst acc ++ map (fun kv => code_points (fst kv)) o) ->
    fold_left (fun acc kv => record_set acc (code_points (fst kv)) (code_points (snd kv))) o acc
    = acc ++ map usv_pair o.
Proof.
  induction o as [| kv o IH]; intros acc Hnd; simpl; [now rewrite app_nil_r |].
  simpl in Hnd.
  assert (Hk : has acc (code_points (fst kv)) = false).
  { apply has_false_not_in. intros Hin.
    apply NoDup_remove_2 in Hnd. apply Hnd. apply in_or_app. now left. }
  unfold record_set at 2. rewrite Hk. rewrite IH.
  - now rewrite <- app_assoc.
  - rewrite map_app, <- app_assoc. exact Hnd.
Qed.

(** With keys that stay distinct as USVStrings, the pairs are the
    properties of the object, one for one and in order. *)
Lemma URLSearchParams_distinct (o : list (jsstring * jsstring)) :
  NoDup (map (fun kv => code_points (fst kv)) o) ->
  URLSearchParams o = map usv_pair o.
Proof. intros H. apply (URLSearchParams_fold_distinct o []). exact H. Qed.

(** Taking [datasetId] out keeps the other keys distinct. *)
Lemma rest_properties_distinct (q : list (jsstring * jsstring)) (taken : jsstring) :
  NoDup (map (fun kv => code_points (fst kv)) q) ->
  NoDup (map (fun kv => code_points (fst kv)) (rest_properties q taken)).
Proof.
  unfold rest_properties.
  induction q as [| [k v] q IH]; intros Hq; [constructor |].
  apply NoDup_cons_iff in Hq as [Hfresh Hq]. simpl.
  destruct (negb (str_eqb k taken)); [| now apply IH].
  simpl. apply NoDup_cons_iff. split; [| now apply IH].
  intros Hin. apply in_map_iff in Hin as (kv & Hkv & Hin). apply Hfresh.
  apply filter_In in Hin as [Hin _]. apply in_map_iff. now exists kv.
Qed.

Lemma URLSearchParams_toString_distinct (o : list (jsstring * jsstring)) :
  NoDup (map (fun kv => code_points (fst kv)) o) ->
  URLSearchParams_toString (URLSearchParams o)
  = join (js "&") (map (fun kv => query_pair (fst kv) (snd kv)) o).
Proof.
  intros H. rewrite (URLSearchParams_distinct o H).
  unfold URLSearchParams_toString. now rewrite map_map.
Qed.

(** ** What the serializer of [URLSearchParams] leaves out *)

Lemma upper_hex_no_delimiter (n : N) : query_delimiter (upper_hex n) = false.
Proof.
  unfold upper_hex, query_delimiter.
  destruct (N.ltb_spec n 10);
    repeat (apply orb_false_iff; split); apply N.eqb_neq; lia.
Qed.

Lemma urlencode_byte_no_delimiter (b : N) :
  Forall (fun c => query_delimiter c = false) (urlencode_byte b).
Proof.
  unfold urlencode_byte.
  destruct (N.eqb_spec b 32); [repeat constructor |].
  destruct (urlencoded_safe b) eqn:Hs.
  - constructor; [| constructor].
    unfold urlencoded_safe, is_alnum, is_digit in Hs. unfold query_delimiter.
    destruct (N.eqb_spec b 38); [subst; discriminate |].
    destruct (N.eqb_spec b 61); [subst; discriminate |].
    destruct (N.eqb_spec b 63); [subst; discriminate |].
    destruct (N.eqb_spec b 35); [subst; discriminate |].
    destruct (N.eqb_spec b 47); [subst; discriminate |].
    apply N.eqb_neq in n. now rewrite n.
  - unfold percent_encode_byte.
    repeat constructor; apply upper_hex_no_delimiter.
Qed.

(** No name and no value is written with [&], [=], [?], [#], [/] or a
    space in it. *)
Lemma urlencode_no_delimiter (cps : list N) :
  Forall (fun c => query_delimiter c = false) (urlencode cps).
Proof.
  unfold urlencode. induction (flat_map utf8 cps) as [| b bs IH]; simpl; [constructor |].
  apply Forall_app. split; [apply urlencode_byte_no_delimiter | exact IH].
Qed.

Lemma query_pair_no_ampersand (name value : jsstring) : ~ In 38 (query_pair name value).
Proof.
  unfold query_pair. intros Hin.
  apply in_app_or in Hin as [Hin | Hin]; [| apply in_app_or in Hin as [Hin | Hin]].
  - pose proof (urlencode_no_delimiter (code_points name)) as H.
    rewrite Forall_forall in H. apply H in Hin. discriminate.
  - simpl in Hin. destruct Hin as [Hin | []]. discriminate.
  - pose proof (urlencode_no_delimiter (code_points value)) as H.
    rewrite Forall_forall in H. apply H in Hin. discriminate.
Qed.

Lemma split_on_piece (sep : N) (p rest : jsstring) :
  ~ In sep p ->
  split_on sep (p ++ sep :: rest) = p :: split_on sep rest.
Proof.
  induction p as [| c p IH]; intros Hp; simpl.
  - now rewrite N.eqb_refl.
  - destruct (N.eqb_spec c sep) as [-> | Hc]; [exfalso; apply Hp; now left |].
    rewrite IH; [reflexivity |]. intros Hin. apply Hp. now right.
Qed.

Lemma split_on_last (sep : N) (p : jsstring) : ~ In sep p -> split_on sep p = [p].
Proof.
  induction p as [| c p IH]; intros Hp; simpl; [reflexivity |].
  destruct (N.eqb_spec c sep) as [-> | Hc]; [exfalso; apply Hp; now left |].
  rewrite IH; [reflexivity |]. intros Hin. apply Hp. now right.
Qed.

(** Joined pieces that hold no separator are found again by splitting. *)
Lemma split_on_join (sep : N) (pieces : list jsstring) :
  pieces <> [] -> Forall (fun p => ~ In sep p) pieces ->
  split_on sep (join [sep] pieces) = pieces.
Proof.
  intros Hne Hall. induction Hall as [| p pieces Hp Hall IH]; [easy |].
  destruct pieces as [| p2 pieces].
  - rewrite join_single. now apply split_on_last.
  - rewrite join_cons2. change (p ++ [sep] ++ join [sep] (p2 :: pieces))
      with (p ++ sep :: join [sep] (p2 :: pieces)).
    rewrite split_on_piece by assumption. f_equal. apply IH. discriminate.
Qed.

(** ** One pair per key of the parameters object (C5) *)

(** C5, as the code has it.  The handler of either source file reads
    [event.queryStringParameters] only, an object with one string per key:
    events that differ in the values listed one by one for a repeated key
    get the same run; no name is written twice into the upstream query; and
    with keys that are distinct (as USVStrings) the query, cut at its [&],
    is exactly one [name=value] pair for each key other than [datasetId], in
    order, from the one string the object holds for it. *)
Theorem C5_one_pair_per_key (E : engine) (env : process_env) (ev : event)
  (q : list (jsstring * jsstring)) (d : jsstring) (w : request -> completion Response) :
  queryStringParameters ev = Some q ->
  get q (js "datasetId") = Some d ->
  d <> [] ->
  let others := rest_properties q (js "datasetId") in
  let query := URLSearchParams_toString (URLSearchParams others) in
  (forall mv,
      run w (Part000.handler E env
               {| queryStringParameters := Some q; multiValueQueryStringParameters := mv |})
      = run w (Part000.handler E env ev)
      /\ run w (CwaProxy.handler E env
                  {| queryStringParameters := Some q; multiValueQueryStringParameters := mv |})
         = run w (CwaProxy.handler E env ev))
  /\ map req_url (fst (run w (Part000.handler E env ev)))
     = [cwaApiBaseUrl ++ js "/" ++ d ++ js "?" ++ query]
  /\ map req_url (fst (run w (CwaProxy.handler E env ev)))
     = [cwaApiBaseUrl ++ js "/" ++ d ++ js "?" ++ query]
  /\ NoDup (map fst (URLSearchParams others))
  /\ (NoDup (map (fun kv => code_points (fst kv)) q) -> others <> [] ->
      split_on 38 query = map (fun kv => query_pair (fst kv) (snd kv)) others).
Proof.
  intros Hq Hg Hd others query. pose proof (falsy_present q d Hg Hd) as Hf.
  split; [| split; [| split; [| split]]].
  - intros mv. unfold Part000.handler, CwaProxy.handler. simpl queryStringParameters.
    now rewrite Hq.
  - rewrite (Part000_handler_run E env ev q w Hq Hf), Hg. reflexivity.
  - rewrite (CwaProxy_handler_run E env ev q w Hq Hf), Hg. reflexivity.
  - apply URLSearchParams_NoDup.
  - intros Hnd Hne. unfold query.
    rewrite (URLSearchParams_toString_distinct others) by now apply rest_properties_distinct.
    apply (split_on_join 38).
    + intros Hnil. apply map_eq_nil in Hnil. contradiction.
    + apply Forall_forall. intros p Hp. apply in_map_iff in Hp as (kv & <- & _).
      apply query_pair_no_ampersand.
Qed.

Lemma C5_witness :
  split_on 38 (URLSearchParams_toString (URLSearchParams [(js "a", js "1, 2")]))
  = [query_pair (js "a") (js "1, 2")].
Proof.
  pose proof (C5_one_pair_per_key sample_engine sample_env repeated_joined
                [(js "datasetId", js "F-C0032-001"); (js "a", js "1, 2")] (js "F-C0032-001")
                (answers 200 (jsq "{'foo':'bar'}"))
                eq_refl eq_refl ltac:(discriminate)) as (_ & _ & _ & _ & H).
  apply H.
  - vm_compute. repeat constructor; simpl; intuition discriminate.
  - discriminate.
Defined.

(** C5 fails as stated.  For [?datasetId=F-C0032-001&a=1&a=2] the upstream
    query is the single pair made of the one string the platform passed for
    [a], whether it joined the two values or kept the last: the values [1] and
    [2] are not both there as pairs of their own. *)
Lemma C5_repeated_key_counterexample :
  (map req_url (fst (run (answers 200 (jsq "{'foo':'bar'}"))
                       (Part000.handler sample_engine sample_env repeated_joined)))
   = [js "https://opendata.cwa.gov.tw/api/v1/rest/datastore/F-C0032-001?a=1%2C+2"]
   /\ map req_url (fst (run (answers 200 (jsq "{'foo':'bar'}"))
                          (CwaProxy.handler sample_engine sample_env repeated_joined)))
      = [js "https://opendata.cwa.gov.tw/api/v1/rest/datastore/F-C0032-001?a=1%2C+2"]
   /\ split_on 38 (js "a=1%2C+2") = [js "a=1%2C+2"]
   /\ ~ In (query_pair (js "a") (js "1")) (split_on 38 (js "a=1%2C+2"))
   /\ ~ In (query_pair (js "a") (js "2")) (split_on 38 (js "a=1%2C+2")))
  /\ (map req_url (fst (run (answers 200 (jsq "{'foo':'bar'}"))
                          (Part000.handler sample_engine sample_env repeated_last)))
      = [js "https://opendata.cwa.gov.tw/api/v1/rest/datastore/F-C0032-001?a=2"]
      /\ map req_url (fst (run (answers 200 (jsq "{'foo':'bar'}"))
                             (CwaProxy.handler sample_engine sample_env repeated_last)))
         = [js "https://opendata.cwa.gov.tw/api/v1/rest/datastore/F-C0032-001?a=2"]
      /\ ~ In (query_pair (js "a") (js "1")) (split_on 38 (js "a=2"))).
Proof.
  repeat split; try (vm_compute; reflexivity);
    vm_compute; intros H; repeat (destruct H as [H | H]; [discriminate H |]); exact H.
Qed.

(** ** The envelopes, read back *)

Lemma parse_error_envelope (t : jsstring) :
  JSON_parse (JSON_stringify (JObject [(js "error", JString t)]))
  = Some (JObject [(js "error", JString t)]).
Proof. now rewrite JSON_parse_stringify. Qed.

Lemma parse_upstream_envelope (t : jsstring) (data : json) :
  JSON_parse (JSON_stringify (JObject [(js "error", JString t); (js "cwa_response", data)]))
  = Some (JObject [(js "error", JString t); (js "cwa_response", normalize data)]).
Proof. now rewrite JSON_parse_stringify. Qed.

Lemma parse_failure_envelope (t snippet d : jsstring) :
  JSON_parse (JSON_stringify
                (JObject [(js "error", JString t);
                          (js "raw_cwa_response_snippet", JString snippet);
                          (js "datasetId", JString d)]))
  = Some (JObject [(js "error", JString t);
                   (js "raw_cwa_response_snippet", JString snippet);
                   (js "datasetId", JString d)]).
Proof. now rewrite JSON_parse_stringify. Qed.

(** ** Upstream errors (C6) *)

Lemma handlers_run_parsed (E : engine) (env : process_env) (ev : event)
  (q : list (jsstring * jsstring)) (d : jsstring) (w : request -> completion Response)
  (r : Response) (raw : jsstring) (data : json) :
  queryStringParameters ev = Some q ->
  get q (js "datasetId") = Some d ->
  d <> [] ->
  w (upstream_request env (Some d) (rest_properties q (js "datasetId"))) = Normal r ->
  text r = Normal raw ->
  JSON_parse raw = Some data ->
  let result :=
    ([upstream_request env (Some d) (rest_properties q (js "datasetId"))],
     Normal (caught (if ok r then Normal (success data)
                     else map_completion (fun t => upstream_error_response r t data)
                            (cwa_error_text E r data)))) in
  run w (Part000.handler E env ev) = result /\ run w (CwaProxy.handler E env ev) = result.
Proof.
  intros Hq Hg Hd Hw Ht Hp result. pose proof (falsy_present q d Hg Hd) as Hf.
  rewrite (Part000_handler_run E env ev q w Hq Hf), (CwaProxy_handler_run E env ev q w Hq Hf).
  rewrite Part000_try_block_run, CwaProxy_try_block_run.
  rewrite Hg, Hw, Ht, Hp. split; reflexivity.
Qed.

(** C6, as the code has it.  For an upstream response with a non-2xx status
    whose body parses as JSON to a value other than [null], the [message]
    of the parsed body can be read, and when it is falsy or converts to a
    string the handler of either source file returns the upstream status
    and the body
    [{ error: "CWA API error (<status>): <message>", cwa_response: <parsed body> }],
    where [<message>] is the [message] field when it is a non-empty string,
    ['Unknown error'] when the field is absent or falsy, and the string
    conversion of the field when it is another truthy value that converts.
    The body is a JSON text of an object with these two fields.  When the
    parsed body is [null], or the [message] is truthy and its conversion
    throws, the error goes to the outer [catch] and the response is the
    500 of [internal_error]. *)
Theorem C6_upstream_error (E : engine) (env : process_env) (ev : event)
  (q : list (jsstring * jsstring)) (d : jsstring) (w : request -> completion Response)
  (r : Response) (raw : jsstring) (data : json) :
  queryStringParameters ev = Some q ->
  get q (js "datasetId") = Some d ->
  d <> [] ->
  w (upstream_request env (Some d) (rest_properties q (js "datasetId"))) = Normal r ->
  text r = Normal raw ->
  JSON_parse raw = Some data ->
  ok r = false ->
  let error m := js "CWA API error (" ++ decimal (status r) ++ js "): " ++ m in
  let reply m :=
    ([upstream_request env (Some d) (rest_properties q (js "datasetId"))],
     Normal {| statusCode := status r;
               headers := json_cors_headers;
               body := JSON_stringify
                         (JObject [(js "error", JString (error m));
                                   (js "cwa_response", data)]) |}) in
  (forall l s,
      data = JObject l -> get l (js "message") = Some (JString s) -> s <> [] ->
      run w (Part000.handler E env ev) = reply s
      /\ run w (CwaProxy.handler E env ev) = reply s)
  /\ (forall field,
         get_property E data (js "message") = Normal field -> ToBoolean field = false ->
         run w (Part000.handler E env ev) = reply (js "Unknown error")
         /\ run w (CwaProxy.handler E env ev) = reply (js "Unknown error"))
  /\ (forall v t,
         get_property E data (js "message") = Normal (Some v) -> ToBoolean (Some v) = true ->
         ToString E v = Normal t ->
         run w (Part000.handler E env ev) = reply t
         /\ run w (CwaProxy.handler E env ev) = reply t)
  /\ (forall m,
         JSON_parse (JSON_stringify (JObject [(js "error", JString (error m));
                                              (js "cwa_response", data)]))
         = Some (JObject [(js "error", JString (error m));
                          (js "cwa_response", normalize data)]))
  /\ (data <> JNull -> exists field, get_property E data (js "message") = Normal field)
  /\ (forall v e,
         get_property E data (js "message") = Normal (Some v) -> ToBoolean (Some v) = true ->
         ToString E v = Throw e ->
         snd (run w (Part000.handler E env ev)) = Normal (internal_error e)
         /\ snd (run w (CwaProxy.handler E env ev)) = Normal (internal_error e))
  /\ (data = JNull ->
      snd (run w (Part000.handler E env ev))
      = Normal (internal_error (mkError (null_read_message E (js "message"))))
      /\ snd (run w (CwaProxy.handler E env ev))
         = Normal (internal_error (mkError (null_read_message E (js "message"))))).
Proof.
  intros Hq Hg Hd Hw Ht Hp Hok error reply.
  pose proof (handlers_run_parsed E env ev q d w r raw data Hq Hg Hd Hw Ht Hp) as Hrun.
  cbv zeta in Hrun. rewrite Hok in Hrun.
  assert (Htruthy : forall v t,
             get_property E data (js "message") = Normal (Some v) -> ToBoolean (Some v) = true ->
             ToString E v = Normal t ->
             run w (Part000.handler E env ev) = reply t
             /\ run w (CwaProxy.handler E env ev) = reply t).
  { intros v t Hm Hb Hs. unfold cwa_error_text in Hrun. rewrite Hm in Hrun.
    unfold or_else in Hrun. rewrite Hb, Hs in Hrun. exact Hrun. }
  split; [| split; [| split; [exact Htruthy | split; [| split; [| split]]]]].
  - intros l s -> Hm Hs. apply (Htruthy (JString s) s).
    + simpl. now rewrite Hm.
    + simpl. apply str_eqb_neq in Hs. now rewrite Hs.
    + reflexivity.
  - intros field Hm Hb. unfold cwa_error_text in Hrun. rewrite Hm in Hrun.
    unfold or_else in Hrun. destruct field as [v |]; [rewrite Hb in Hrun |]; exact Hrun.
  - intros m. apply parse_upstream_envelope.
  - intros Hnull. destruct data; try (eexists; reflexivity). contradiction.
  - intros v e Hm Hb Hs. unfold cwa_error_text in Hrun. rewrite Hm in Hrun.
    unfold or_else in Hrun. rewrite Hb, Hs in Hrun.
    destruct Hrun as [-> ->]. split; reflexivity.
  - intros ->. destruct Hrun as [-> ->]. split; reflexivity.
Qed.

(** The example of the specification: upstream 404 with body
    [{"message":"not found"}]. *)
Lemma C6_witness :
  let reply :=
    ([upstream_request sample_env (Some (js "F-C0032-001")) [(js "locationName", [33274; 21271])]],
     Normal {| statusCode := 404;
               headers := json_cors_headers;
               body := jsq "{'error':'CWA API error (404): not found','cwa_response':{'message':'not found'}}" |}) in
  run (answers 404 (jsq "{'message':'not found'}")) (Part000.handler sample_engine sample_env sample_event)
  = reply
  /\ run (answers 404 (jsq "{'message':'not found'}")) (CwaProxy.handler sample_engine sample_env sample_event)
     = reply.
Proof.
  refine (proj1 (C6_upstream_error sample_engine sample_env sample_event
                   [(js "datasetId", js "F-C0032-001"); (js "locationName", [33274; 21271])]
                   (js "F-C0032-001") (answers 404 (jsq "{'message':'not found'}"))
                   {| status := 404; statusText := []; text := Normal (jsq "{'message':'not found'}") |}
                   (jsq "{'message':'not found'}")
                   (JObject [(js "message", JString (js "not found"))])
                   eq_refl eq_refl _ eq_refl eq_refl _ eq_refl)
            [(js "message", JString (js "not found"))] (js "not found") eq_refl eq_refl _).
  - discriminate.
  - vm_compute. reflexivity.
  - discriminate.
Defined.

(** C6 fails as stated.  A [message] that is present and empty is replaced
    by ['Unknown error'].  A parsed body [null] has no [message] to read,
    and a [message] that is an object with a property named [toString] does
    not convert to a string: either TypeError goes to the outer [catch] and
    the status is 500, not the upstream's. *)
Lemma C6_message_counterexample :
  (JSON_parse (jsq "{'message':''}") = Some (JObject [(js "message", JString [])])
   /\ snd (run (answers 404 (jsq "{'message':''}"))
             (Part000.handler sample_engine sample_env sample_event))
      = Normal {| statusCode := 404;
                  headers := json_cors_headers;
                  body := jsq "{'error':'CWA API error (404): Unknown error','cwa_response':{'message':''}}" |}
   /\ snd (run (answers 404 (jsq "{'message':''}"))
             (CwaProxy.handler sample_engine sample_env sample_event))
      = Normal {| statusCode := 404;
                  headers := json_cors_headers;
                  body := jsq "{'error':'CWA API error (404): Unknown error','cwa_response':{'message':''}}" |}
   /\ jsq "{'error':'CWA API error (404): Unknown error','cwa_response':{'message':''}}"
      <> jsq "{'error':'CWA API error (404): ','cwa_response':{'message':''}}")
  /\ (JSON_parse (js "null") = Some JNull
      /\ snd (run (answers 404 (js "null"))
                (Part000.handler sample_engine sample_env sample_event))
         = Normal (internal_error (mkError (null_read_message sample_engine (js "message"))))
      /\ snd (run (answers 404 (js "null"))
                (CwaProxy.handler sample_engine sample_env sample_event))
         = Normal (internal_error (mkError (null_read_message sample_engine (js "message"))))
      /\ statusCode (internal_error (mkError (null_read_message sample_engine (js "message"))))
         <> 404)
  /\ (JSON_parse (jsq "{'message':{'toString':null}}")
      = Some (JObject [(js "message", JObject [(js "toString", JNull)])])
      /\ snd (run (answers 404 (jsq "{'message':{'toString':null}}"))
                (Part000.handler sample_engine sample_env sample_event))
         = Normal (internal_error (mkError (to_primitive_message sample_engine)))
      /\ snd (run (answers 404 (jsq "{'message':{'toString':null}}"))
                (CwaProxy.handler sample_engine sample_env sample_event))
         = Normal (internal_error (mkError (to_primitive_message sample_engine)))
      /\ statusCode (internal_error (mkError (to_primitive_message sample_engine))) <> 404).
Proof.
  repeat split; try (vm_compute; reflexivity); vm_compute; discriminate.
Qed.

(** ** Bodies that are not JSON (C8) *)

(** C8, as the code has it.  For an upstream response whose body does not
    parse as JSON, whatever its status, the handler of src/unnamed/part_000
    returns status 500 with a body that is the JSON text of the object
    [{ error, raw_cwa_response_snippet, datasetId }]: the [error] is a fixed
    text followed by the message of the SyntaxError and nothing else of it,
    the snippet is the first 200 code units of the raw body followed by
    ["..."], and [datasetId] is the one of the request.  The handler of
    src/netlify/functions/cwa-proxy.js has no branch of its own for this: the
    SyntaxError of [response.json()] reaches the outer [catch], and the body
    is the JSON text of
    [{ error: "Serverless Function Internal Error: <message>" }]. *)
Theorem C8_parse_failure (E : engine) (env : process_env) (ev : event)
  (q : list (jsstring * jsstring)) (d : jsstring) (w : request -> completion Response)
  (r : Response) (raw : jsstring) :
  queryStringParameters ev = Some q ->
  get q (js "datasetId") = Some d ->
  d <> [] ->
  w (upstream_request env (Some d) (rest_properties q (js "datasetId"))) = Normal r ->
  text r = Normal raw ->
  JSON_parse raw = None ->
  let envelope :=
    JObject
      [(js "error",
        JString (js "Serverless Function Internal Error: Failed to parse CWA API response as JSON. Original error: "
                 ++ syntax_error_message E raw));
       (js "raw_cwa_response_snippet", JString (firstn 200 raw ++ js "..."));
       (js "datasetId", JString d)] in
  let generic :=
    JObject
      [(js "error",
        JString (js "Serverless Function Internal Error: " ++ syntax_error_message E raw))] in
  run w (Part000.handler E env ev)
  = ([upstream_request env (Some d) (rest_properties q (js "datasetId"))],
     Normal {| statusCode := 500;
               headers := json_cors_headers;
               body := JSON_stringify envelope |})
  /\ JSON_parse (JSON_stringify envelope) = Some envelope
  /\ run w (CwaProxy.handler E env ev)
     = ([upstream_request env (Some d) (rest_properties q (js "datasetId"))],
        Normal {| statusCode := 500;
                  headers := json_cors_headers;
                  body := JSON_stringify generic |})
  /\ JSON_parse (JSON_stringify generic) = Some generic.
Proof.
  intros Hq Hg Hd Hw Ht Hp envelope generic. pose proof (falsy_present q d Hg Hd) as Hf.
  rewrite (Part000_handler_run E env ev q w Hq Hf), (CwaProxy_handler_run E env ev q w Hq Hf).
  rewrite Part000_try_block_run, CwaProxy_try_block_run.
  rewrite Hg, Hw, Ht, Hp.
  split; [reflexivity | split; [apply parse_failure_envelope | split; [reflexivity |]]].
  apply parse_error_envelope.
Qed.

(** The example of the specification: upstream 200 with the body
    [<html>error</html>]. *)
Lemma C8_witness :
  let envelope :=
    JObject
      [(js "error",
        JString (js "Serverless Function Internal Error: Failed to parse CWA API response as JSON. Original error: Unexpected token < in JSON at position 0"));
       (js "raw_cwa_response_snippet", JString (js "<html>error</html>..."));
       (js "datasetId", JString (js "F-C0032-001"))] in
  let generic :=
    JObject
      [(js "error",
        JString (js "Serverless Function Internal Error: Unexpected token < in JSON at position 0"))] in
  run (answers 200 (js "<html>error</html>")) (Part000.handler sample_engine sample_env sample_event)
  = ([upstream_request sample_env (Some (js "F-C0032-001")) [(js "locationName", [33274; 21271])]],
     Normal {| statusCode := 500;
               headers := json_cors_headers;
               body := jsq "{'error':'Serverless Function Internal Error: Failed to parse CWA API response as JSON. Original error: Unexpected token < in JSON at position 0','raw_cwa_response_snippet':'<html>error</html>...','datasetId':'F-C0032-001'}" |})
  /\ JSON_parse (JSON_stringify envelope) = Some envelope
  /\ run (answers 200 (js "<html>error</html>")) (CwaProxy.handler sample_engine sample_env sample_event)
     = ([upstream_request sample_env (Some (js "F-C0032-001")) [(js "locationName", [33274; 21271])]],
        Normal {| statusCode := 500;
                  headers := json_cors_headers;
                  body := jsq "{'error':'Serverless Function Internal Error: Unexpected token < in JSON at position 0'}" |})
  /\ JSON_parse (JSON_stringify generic) = Some generic.
Proof.
  refine (C8_parse_failure sample_engine sample_env sample_event
            [(js "datasetId", js "F-C0032-001"); (js "locationName", [33274; 21271])]
            (js "F-C0032-001") (answers 200 (js "<html>error</html>"))
            {| status := 200; statusText := []; text := Normal (js "<html>error</html>") |}
            (js "<html>error</html>") eq_refl eq_refl _ eq_refl eq_refl _).
  - discriminate.
  - vm_compute. reflexivity.
Defined.

(** C8 fails as stated.  For the body [<html>error</html>] the snippet of
    src/unnamed/part_000 is [<html>error</html>...], not the first 200
    characters of the body, and the response of
    src/netlify/functions/cwa-proxy.js has neither a snippet nor a
    [datasetId]. *)
Lemma C8_snippet_counterexample :
  let raw := js "<html>error</html>" in
  JSON_parse raw = None
  /\ (exists r l,
         snd (run (answers 200 raw) (Part000.handler sample_engine sample_env sample_event))
         = Normal r
         /\ JSON_parse (body r) = Some (JObject l)
         /\ get l (js "raw_cwa_response_snippet") = Some (JString (js "<html>error</html>..."))
         /\ js "<html>error</html>..." <> substring0 200 raw)
  /\ (exists r l,
         snd (run (answers 200 raw) (CwaProxy.handler sample_engine sample_env sample_event))
         = Normal r
         /\ JSON_parse (body r) = Some (JObject l)
         /\ get l (js "raw_cwa_response_snippet") = None
         /\ get l (js "datasetId") = None).
Proof.
  split; [vm_compute; reflexivity |]. split.
  - eexists. eexists. split; [vm_compute; reflexivity |].
    split; [vm_compute; reflexivity |]. split; [vm_compute; reflexivity |].
    vm_compute. discriminate.
  - eexists. eexists. split; [vm_compute; reflexivity |].
    split; [vm_compute; reflexivity |]. split; vm_compute; reflexivity.
Qed.

(** ** The outer [catch] (C9) *)

(** C9.  Past the validation, an exception raised in the [try] block and
    not caught inside it, the rejection of [fetch] by a network failure
    first of all, is caught: the handler of either source file returns
    status 500 with a body that is the JSON text of
    [{ error: "Serverless Function Internal Error: <message>" }], where
    [<message>] is the message of the exception. *)
Theorem C9_unexpected_failure (E : engine) (env : process_env) (ev : event)
  (q : list (jsstring * jsstring)) (d : jsstring) (w : request -> completion Response)
  (e : Error) :
  queryStringParameters ev = Some q ->
  get q (js "datasetId") = Some d ->
  d <> [] ->
  let others := rest_properties q (js "datasetId") in
  let envelope :=
    JObject [(js "error",
              JString (js "Serverless Function Internal Error: " ++ message e))] in
  let reply :=
    Normal {| statusCode := 500;
              headers := json_cors_headers;
              body := JSON_stringify envelope |} in
  (w (upstream_request env (Some d) others) = Throw e ->
   run w (Part000.handler E env ev) = ([upstream_request env (Some d) others], reply)
   /\ run w (CwaProxy.handler E env ev) = ([upstream_request env (Some d) others], reply))
  /\ (forall calls,
         run w (Part000.try_block E env (Some d) others) = (calls, Throw e) ->
         run w (Part000.handler E env ev) = (calls, reply))
  /\ (forall calls,
         run w (CwaProxy.try_block E env (Some d) others) = (calls, Throw e) ->
         run w (CwaProxy.handler E env ev) = (calls, reply))
  /\ JSON_parse (JSON_stringify envelope) = Some envelope.
Proof.
  intros Hq Hg Hd others envelope reply. pose proof (falsy_present q d Hg Hd) as Hf.
  split; [| split; [| split]].
  - intros Hw.
    rewrite (Part000_handler_run E env ev q w Hq Hf), (CwaProxy_handler_run E env ev q w Hq Hf).
    rewrite Part000_try_block_run, CwaProxy_try_block_run.
    rewrite Hg. fold others. rewrite Hw. split; reflexivity.
  - intros calls Hrun. unfold Part000.handler. rewrite Hq, Hf, run_try_catch, Hg.
    fold others. rewrite Hrun. simpl. now rewrite app_nil_r.
  - intros calls Hrun. unfold CwaProxy.handler. rewrite Hq, Hf, run_try_catch, Hg.
    fold others. rewrite Hrun. simpl. now rewrite app_nil_r.
  - apply parse_error_envelope.
Qed.

(** A network failure before any upstream response. *)
Lemma C9_witness :
  let reply :=
    ([upstream_request sample_env (Some (js "F-C0032-001")) [(js "locationName", [33274; 21271])]],
     Normal {| statusCode := 500;
               headers := json_cors_headers;
               body := jsq "{'error':'Serverless Function Internal Error: fetch failed'}" |}) in
  run (unreachable (js "fetch failed")) (Part000.handler sample_engine sample_env sample_event)
  = reply
  /\ run (unreachable (js "fetch failed")) (CwaProxy.handler sample_engine sample_env sample_event)
     = reply.
Proof.
  refine (proj1 (C9_unexpected_failure sample_engine sample_env sample_event
                   [(js "datasetId", js "F-C0032-001"); (js "locationName", [33274; 21271])]
                   (js "F-C0032-001") (unreachable (js "fetch failed"))
                   (mkError (js "fetch failed")) eq_refl eq_refl _) eq_refl).
  discriminate.
Defined.

(** ** The key reaches the upstream request only (C10) *)

Lemma caught_same_Part000 (E : engine) (env1 env2 : process_env) (d : option jsstring)
  (o : list (jsstring * jsstring)) (w1 w2 : request -> completion Response) :
  same_status_and_body (w1 (upstream_request env1 d o)) (w2 (upstream_request env2 d o)) ->
  caught (snd (run w1 (Part000.try_block E env1 d o)))
  = caught (snd (run w2 (Part000.try_block E env2 d o))).
Proof.
  intros H. rewrite !Part000_try_block_run. cbn [snd].
  destruct (w1 _) as [r1 | e1], (w2 _) as [r2 | e2];
    cbn [same_status_and_body] in H; try contradiction.
  - destruct H as [Hs Ht]. rewrite Ht. destruct (text r2) as [raw | e]; [| reflexivity].
    destruct (JSON_parse raw) as [data |]; [| reflexivity].
    unfold ok, cwa_error_text, upstream_error_response. rewrite Hs. reflexivity.
  - subst e2. reflexivity.
Qed.

Lemma caught_same_CwaProxy (E : engine) (env1 env2 : process_env) (d : option jsstring)
  (o : list (jsstring * jsstring)) (w1 w2 : request -> completion Response) :
  same_status_and_body (w1 (upstream_request env1 d o)) (w2 (upstream_request env2 d o)) ->
  caught (snd (run w1 (CwaProxy.try_block E env1 d o)))
  = caught (snd (run w2 (CwaProxy.try_block E env2 d o))).
Proof.
  intros H. rewrite !CwaProxy_try_block_run. cbn [snd].
  destruct (w1 _) as [r1 | e1], (w2 _) as [r2 | e2];
    cbn [same_status_and_body] in H; try contradiction.
  - destruct H as [Hs Ht]. rewrite Ht. destruct (text r2) as [raw | e]; [| reflexivity].
    destruct (JSON_parse raw) as [data |]; [| reflexivity].
    unfold ok, cwa_error_text, upstream_error_response. rewrite Hs. reflexivity.
  - subst e2. reflexivity.
Qed.

(** C10.  Take any event and any two values of [CWA_API_KEY], each run
    against its own upstream.  If the two upstreams settle the request with
    the same status and body, the handler (of either source file) settles the
    same way in both runs, with the same response: the key is written into
    the [Authorization] header of the upstream request and nowhere into what
    the caller gets.  The two requests differ in that header alone. *)
Theorem C10_key_does_not_reach_the_caller (E : engine) (ev : event)
  (env1 env2 : process_env) (w1 w2 : request -> completion Response) :
  (forall q,
      queryStringParameters ev = Some q ->
      same_status_and_body
        (w1 (upstream_request env1 (get q (js "datasetId")) (rest_properties q (js "datasetId"))))
        (w2 (upstream_request env2 (get q (js "datasetId")) (rest_properties q (js "datasetId"))))) ->
  snd (run w1 (Part000.handler E env1 ev)) = snd (run w2 (Part000.handler E env2 ev))
  /\ snd (run w1 (CwaProxy.handler E env1 ev)) = snd (run w2 (CwaProxy.handler E env2 ev))
  /\ map req_url (fst (run w1 (Part000.handler E env1 ev)))
     = map req_url (fst (run w2 (Part000.handler E env2 ev)))
  /\ map req_method (fst (run w1 (Part000.handler E env1 ev)))
     = map req_method (fst (run w2 (Part000.handler E env2 ev))).
Proof.
  intros Hsame.
  destruct (queryStringParameters ev) as [q |] eqn:Hq.
  - specialize (Hsame q eq_refl).
    destruct (falsy (get q (js "datasetId"))) eqn:Hf.
    + unfold Part000.handler, CwaProxy.handler. rewrite Hq, Hf. repeat split.
    + rewrite !(Part000_handler_run E _ ev q _ Hq Hf), !(CwaProxy_handler_run E _ ev q _ Hq Hf).
      cbn [snd fst map req_url req_method upstream_request].
      rewrite (caught_same_Part000 E env1 env2 _ _ w1 w2 Hsame).
      rewrite (caught_same_CwaProxy E env1 env2 _ _ w1 w2 Hsame).
      repeat split.
  - unfold Part000.handler, CwaProxy.handler. rewrite Hq. repeat split.
Qed.

Lemma C10_witness :
  let env1 := {| CWA_API_KEY := Some (js "CWA-FIRST-KEY") |} in
  let env2 := {| CWA_API_KEY := Some (js "CWA-OTHER-KEY") |} in
  let w := answers 404 (jsq "{'message':'not found'}") in
  snd (run w (Part000.handler sample_engine env1 sample_event))
  = snd (run w (Part000.handler sample_engine env2 sample_event))
  /\ snd (run w (CwaProxy.handler sample_engine env1 sample_event))
     = snd (run w (CwaProxy.handler sample_engine env2 sample_event))
  /\ map req_url (fst (run w (Part000.handler sample_engine env1 sample_event)))
     = map req_url (fst (run w (Part000.handler sample_engine env2 sample_event)))
  /\ map req_method (fst (run w (Part000.handler sample_engine env1 sample_event)))
     = map req_method (fst (run w (Part000.handler sample_engine env2 sample_event))).
Proof.
  apply (C10_key_does_not_reach_the_caller sample_engine sample_event
           {| CWA_API_KEY := Some (js "CWA-FIRST-KEY") |}
           {| CWA_API_KEY := Some (js "CWA-OTHER-KEY") |}
           (answers 404 (jsq "{'message':'not found'}"))
           (answers 404 (jsq "{'message':'not found'}"))).
  intros q _. split; reflexivity.
Defined.

(** ** The console calls *)

Lemma Logged_run_bind {A B : Type} (w : request -> completion Response) (p : Logged.prog A)
  (f : A -> Logged.prog B) :
  Logged.run w (Logged.bind p f) =
  match Logged.run w p with
  | (trace, Normal a) => let '(more, c) := Logged.run w (f a) in (trace ++ more, c)
  | (trace, Throw e) => (trace, Throw e)
  end.
Proof.
  induction p as [a | e | rq k IH | c next IH]; simpl.
  - now destruct (Logged.run w (f a)).
  - reflexivity.
  - rewrite IH. destruct (Logged.run w (k (w rq))) as [trace [a | e]]; [| reflexivity].
    now destruct (Logged.run w (f a)).
  - rewrite IH. destruct (Logged.run w next) as [trace [a | e]]; [| reflexivity].
    now destruct (Logged.run w (f a)).
Qed.

Lemma Logged_run_try_catch {A : Type} (w : request -> completion Response) (p : Logged.prog A)
  (h : Error -> Logged.prog A) :
  Logged.run w (Logged.try_catch p h) =
  match Logged.run w p with
  | (trace, Normal a) => (trace, Normal a)
  | (trace, Throw e) => let '(more, c) := Logged.run w (h e) in (trace ++ more, c)
  end.
Proof.
  induction p as [a | e | rq k IH | c next IH]; simpl.
  - reflexivity.
  - now destruct (Logged.run w (h e)).
  - rewrite IH. destruct (Logged.run w (k (w rq))) as [trace [a | e]]; [reflexivity |].
    now destruct (Logged.run w (h e)).
  - rewrite IH. destruct (Logged.run w next) as [trace [a | e]]; [reflexivity |].
    now destruct (Logged.run w (h e)).
Qed.

Lemma cwa_error_text_detail (E : engine) (r : Response) (data : json) :
  cwa_error_text E r data
  = map_completion (fun t => js "CWA API error (" ++ decimal (status r) ++ js "): " ++ t)
      (message_or_unknown E data).
Proof.
  unfold cwa_error_text, message_or_unknown.
  now destruct (get_property E data (js "message")).
Qed.

(** The run of the [try] block of src/unnamed/part_000, console calls
    included: the request, then the calls, and the outcome of the embedding
    without the console. *)
Lemma Part000Logged_try_block_run (E : engine) (env : process_env) (d : option jsstring)
  (o : list (jsstring * jsstring)) (w : request -> completion Response) :
  Logged.run w (Part000Logged.try_block E env d o) =
  (Fetched (upstream_request env d o)
   :: map Console (Part000_written_after E d (w (upstream_request env d o))),
   snd (run w (Part000.try_block E env d o))).
Proof.
  rewrite Part000_try_block_run. cbn [snd].
  unfold Part000Logged.try_block, Logged.fetch, upstream_request, Part000_written_after.
  cbn [Logged.bind Logged.run]. 
  destruct (w _) as [r | e]; cbn [Logged.settle Logged.bind Logged.run Logged.log map]; [| reflexivity].
  destruct (text r) as [raw | e]; cbn [Logged.settle Logged.bind Logged.run Logged.log map];
    [| reflexivity].
  destruct (JSON_parse raw) as [data |];
    cbn [Logged.settle Logged.bind Logged.run Logged.log Logged.error map]; [| reflexivity].
  destruct (ok r); cbn [negb Logged.run map]; [reflexivity |].
  unfold Part000Logged.upstream_error. rewrite cwa_error_text_detail.
  destruct (message_or_unknown E data) as [detail | e];
    cbn [Logged.settle Logged.bind Logged.run Logged.error map map_completion]; reflexivity.
Qed.

Lemma CwaProxyLogged_try_block_run (E : engine) (env : process_env) (d : option jsstring)
  (o : list (jsstring * jsstring)) (w : request -> completion Response) :
  Logged.run w (CwaProxyLogged.try_block E env d o) =
  (Fetched (upstream_request env d o)
   :: map Console (CwaProxy_written_after E d (w (upstream_request env d o))),
   snd (run w (CwaProxy.try_block E env d o))).
Proof.
  rewrite CwaProxy_try_block_run. cbn [snd].
  unfold CwaProxyLogged.try_block, CwaProxyLogged.json_body, Logged.fetch, upstream_request,
    CwaProxy_written_after.
  cbn [Logged.bind Logged.run].
  destruct (w _) as [r | e]; cbn [Logged.settle Logged.bind Logged.run Logged.log map]; [| reflexivity].
  destruct (text r) as [raw | e]; cbn [Logged.settle Logged.bind Logged.run Logged.log map];
    [| reflexivity].
  destruct (JSON_parse raw) as [data |];
    cbn [Logged.settle Logged.bind Logged.run Logged.log Logged.error map]; [| reflexivity].
  destruct (ok r); cbn [negb Logged.run map]; [reflexivity |].
  unfold CwaProxyLogged.upstream_error. rewrite cwa_error_text_detail.
  destruct (message_or_unknown E data) as [detail | e];
    cbn [Logged.settle Logged.bind Logged.run Logged.error map map_completion]; reflexivity.
Qed.

(** The whole run past the validation. *)
Lemma Part000Logged_handler_run (E : engine) (env : process_env) (ev : event)
  (q : list (jsstring * jsstring)) (w : request -> completion Response) :
  queryStringParameters ev = Some q ->
  falsy (get q (js "datasetId")) = false ->
  let d := get q (js "datasetId") in
  let o := rest_properties q (js "datasetId") in
  Logged.run w (Part000Logged.handler E env ev) =
  (Console (url_logged (cwaUrl d o))
   :: Fetched (upstream_request env d o)
   :: map Console (Part000_written_after E d (w (upstream_request env d o))
                   ++ written_by_catch d (snd (run w (Part000.try_block E env d o)))),
   Normal (caught (snd (run w (Part000.try_block E env d o))))).
Proof.
  intros Hq Hd d o. unfold Part000Logged.handler. rewrite Hq. cbv zeta. rewrite Hd. fold d o.
  unfold log_url, Logged.log. cbn [Logged.bind Logged.run].
  rewrite Logged_run_try_catch, Part000Logged_try_block_run.
  destruct (snd (run w (Part000.try_block E env d o))) as [r | e].
  - cbn [written_by_catch caught]. now rewrite app_nil_r.
  - unfold log_caught, Logged.error. cbn [Logged.bind Logged.run written_by_catch caught].
    now rewrite map_app.
Qed.

Lemma CwaProxyLogged_handler_run (E : engine) (env : process_env) (ev : event)
  (q : list (jsstring * jsstring)) (w : request -> completion Response) :
  queryStringParameters ev = Some q ->
  falsy (get q (js "datasetId")) = false ->
  let d := get q (js "datasetId") in
  let o := rest_properties q (js "datasetId") in
  Logged.run w (CwaProxyLogged.handler E env ev) =
  (Console (url_logged (cwaUrl d o))
   :: Fetched (upstream_request env d o)
   :: map Console (CwaProxy_written_after E d (w (upstream_request env d o))
                   ++ written_by_catch d (snd (run w (CwaProxy.try_block E env d o)))),
   Normal (caught (snd (run w (CwaProxy.try_block E env d o))))).
Proof.
  intros Hq Hd d o. unfold CwaProxyLogged.handler. rewrite Hq. cbv zeta. rewrite Hd. fold d o.
  unfold log_url, Logged.log. cbn [Logged.bind Logged.run].
  rewrite Logged_run_try_catch, CwaProxyLogged_try_block_run.
  destruct (snd (run w (CwaProxy.try_block E env d o))) as [r | e].
  - cbn [written_by_catch caught]. now rewrite app_nil_r.
  - unfold log_caught, Logged.error. cbn [Logged.bind Logged.run written_by_catch caught].
    now rewrite map_app.
Qed.

Lemma requests_map_Console (l : list console_call) : requests (map Console l) = [].
Proof. induction l; simpl; auto. Qed.

Lemma console_map_Console (l : list console_call) : console (map Console l) = l.
Proof. induction l; simpl; congruence. Qed.

(** The console calls change nothing of what the embedding without the
    console does: the same requests, the same outcome. *)
Lemma Logged_handlers_agree (E : engine) (env : process_env) (ev : event)
  (w : request -> completion Response) :
  (requests (fst (Logged.run w (Part000Logged.handler E env ev))),
   snd (Logged.run w (Part000Logged.handler E env ev)))
  = run w (Part000.handler E env ev)
  /\ (requests (fst (Logged.run w (CwaProxyLogged.handler E env ev))),
      snd (Logged.run w (CwaProxyLogged.handler E env ev)))
     = run w (CwaProxy.handler E env ev).
Proof.
  destruct (queryStringParameters ev) as [q |] eqn:Hq.
  - destruct (falsy (get q (js "datasetId"))) eqn:Hd.
    + unfold Part000Logged.handler, CwaProxyLogged.handler, Part000.handler, CwaProxy.handler.
      rewrite Hq. cbv zeta. rewrite Hd. split; reflexivity.
    + rewrite (Part000Logged_handler_run E env ev q w Hq Hd),
        (CwaProxyLogged_handler_run E env ev q w Hq Hd),
        (Part000_handler_run E env ev q w Hq Hd), (CwaProxy_handler_run E env ev q w Hq Hd).
      cbn [fst snd requests]. rewrite !requests_map_Console. split; reflexivity.
  - unfold Part000Logged.handler, CwaProxyLogged.handler, Part000.handler, CwaProxy.handler.
    rewrite Hq. split; reflexivity.
Qed.

(** X17.  The key is not written to the console.  Take any event and any two
    values of [CWA_API_KEY]: if the upstream settles the request the same
    way in both runs, the console calls of the two runs are the same, call
    for call and argument for argument, in either source file. *)
Theorem console_does_not_show_the_key (E : engine) (ev : event)
  (env1 env2 : process_env) (w1 w2 : request -> completion Response) :
  (forall q,
      queryStringParameters ev = Some q ->
      w1 (upstream_request env1 (get q (js "datasetId")) (rest_properties q (js "datasetId")))
      = w2 (upstream_request env2 (get q (js "datasetId")) (rest_properties q (js "datasetId")))) ->
  console (fst (Logged.run w1 (Part000Logged.handler E env1 ev)))
  = console (fst (Logged.run w2 (Part000Logged.handler E env2 ev)))
  /\ console (fst (Logged.run w1 (CwaProxyLogged.handler E env1 ev)))
     = console (fst (Logged.run w2 (CwaProxyLogged.handler E env2 ev))).
Proof.
  intros Hsame.
  destruct (queryStringParameters ev) as [q |] eqn:Hq.
  - specialize (Hsame q eq_refl).
    destruct (falsy (get q (js "datasetId"))) eqn:Hd.
    + unfold Part000Logged.handler, CwaProxyLogged.handler.
      rewrite Hq. cbv zeta. rewrite Hd. split; reflexivity.
    + rewrite !(Part000Logged_handler_run E _ ev q _ Hq Hd),
        !(CwaProxyLogged_handler_run E _ ev q _ Hq Hd).
      cbn [fst console]. rewrite !console_map_Console.
      rewrite !Part000_try_block_run, !CwaProxy_try_block_run. cbn [snd].
      rewrite Hsame. split; reflexivity.
  - unfold Part000Logged.handler, CwaProxyLogged.handler. rewrite Hq. split; reflexivity.
Qed.

Lemma console_does_not_show_the_key_witness :
  let env1 := {| CWA_API_KEY := Some (js "CWA-FIRST-KEY") |} in
  let env2 := {| CWA_API_KEY := Some (js "CWA-SECOND-KEY") |} in
  let w := answers 404 (jsq "{'message':'not found'}") in
  console (fst (Logged.run w (Part000Logged.handler sample_engine env1 sample_event)))
  = console (fst (Logged.run w (Part000Logged.handler sample_engine env2 sample_event)))
  /\ console (fst (Logged.run w (CwaProxyLogged.handler sample_engine env1 sample_event)))
     = console (fst (Logged.run w (CwaProxyLogged.handler sample_engine env2 sample_event))).
Proof.
  intros env1 env2 w.
  apply (console_does_not_show_the_key sample_engine sample_event env1 env2 w w).
  intros q _. reflexivity.
Defined.

Lemma ok_false_not_200 (r : Response) : ok r = false -> (status r =? 200) = false.
Proof.
  unfold ok. intros H. apply N.eqb_neq. intros Hs. rewrite Hs in H. discriminate.
Qed.

Lemma existsb_console_error_app (a b : list console_call) :
  existsb is_console_error (a ++ b)
  = existsb is_console_error a || existsb is_console_error b.
Proof. apply existsb_app. Qed.

(** Past the validation, [console.error] is called exactly when the status
    of the response is not 200. *)
Lemma Part000_console_error_status (E : engine) (env : process_env) (d : option jsstring)
  (o : list (jsstring * jsstring)) (w : request -> completion Response) :
  existsb is_console_error
    (Part000_written_after E d (w (upstream_request env d o))
     ++ written_by_catch d (snd (run w (Part000.try_block E env d o))))
  = negb (statusCode (caught (snd (run w (Part000.try_block E env d o)))) =? 200).
Proof.
  rewrite Part000_try_block_run. cbn [snd]. unfold Part000_written_after.
  destruct (w _) as [r | e]; [| reflexivity].
  destruct (text r) as [raw | e]; [| reflexivity].
  destruct (JSON_parse raw) as [data |]; [| reflexivity].
  destruct (ok r) eqn:Hok; [reflexivity |].
  rewrite cwa_error_text_detail.
  destruct (message_or_unknown E data) as [detail | e]; [| reflexivity].
  cbn [map_completion caught upstream_error_response statusCode].
  rewrite (ok_false_not_200 r Hok). reflexivity.
Qed.

Lemma CwaProxy_console_error_status (E : engine) (env : process_env) (d : option jsstring)
  (o : list (jsstring * jsstring)) (w : request -> completion Response) :
  existsb is_console_error
    (CwaProxy_written_after E d (w (upstream_request env d o))
     ++ written_by_catch d (snd (run w (CwaProxy.try_block E env d o))))
  = negb (statusCode (caught (snd (run w (CwaProxy.try_block E env d o)))) =? 200).
Proof.
  rewrite CwaProxy_try_block_run. cbn [snd]. unfold CwaProxy_written_after.
  destruct (w _) as [r | e]; [| reflexivity].
  destruct (text r) as [raw | e]; [| reflexivity].
  destruct (JSON_parse raw) as [data |]; [| reflexivity].
  destruct (ok r) eqn:Hok; [reflexivity |].
  rewrite cwa_error_text_detail.
  destruct (message_or_unknown E data) as [detail | e]; [| reflexivity].
  cbn [map_completion caught upstream_error_response statusCode].
  rewrite (ok_false_not_200 r Hok). reflexivity.
Qed.

(** X18.  [console.error] marks the failures.  A run that returns a response
    either stopped at the validation, with the 400 response and nothing
    written to the console at all, or made its request, and then it called
    [console.error] if and only if the status of its response is not 200. *)
Theorem console_error_marks_failures (E : engine) (env : process_env) (ev : event)
  (w : request -> completion Response) (trace : list io) (r : response) :
  Logged.run w (Part000Logged.handler E env ev) = (trace, Normal r)
  \/ Logged.run w (CwaProxyLogged.handler E env ev) = (trace, Normal r) ->
  (trace = [] /\ r = missing_datasetId)
  \/ (requests trace <> []
      /\ existsb is_console_error (console trace) = negb (statusCode r =? 200)).
Proof.
  destruct (queryStringParameters ev) as [q |] eqn:Hq.
  - destruct (falsy (get q (js "datasetId"))) eqn:Hd.
    + unfold Part000Logged.handler, CwaProxyLogged.handler.
      rewrite Hq. cbv zeta. rewrite Hd. cbn [Logged.run].
      intros [[= <- <-] | [= <- <-]]; left; split; reflexivity.
    + rewrite (Part000Logged_handler_run E env ev q w Hq Hd),
        (CwaProxyLogged_handler_run E env ev q w Hq Hd).
      intros [[= <- <-] | [= <- <-]]; right; (split; [discriminate |]);
        cbn [console existsb is_console_error url_logged orb];
        rewrite console_map_Console.
      * apply Part000_console_error_status.
      * apply CwaProxy_console_error_status.
  - unfold Part000Logged.handler, CwaProxyLogged.handler. rewrite Hq. cbn [Logged.run].
    intros [[=] | [=]].
Qed.

Lemma console_error_marks_failures_witness :
  exists trace r,
    Logged.run (answers 404 (jsq "{'message':'not found'}"))
      (Part000Logged.handler sample_engine sample_env sample_event) = (trace, Normal r)
    /\ statusCode r = 404
    /\ ((trace = [] /\ r = missing_datasetId)
        \/ (requests trace <> []
            /\ existsb is_console_error (console trace) = negb (statusCode r =? 200))).
Proof.
  eexists. eexists. split; [vm_compute; reflexivity |]. split; [reflexivity |].
  apply (console_error_marks_failures sample_engine sample_env sample_event
           (answers 404 (jsq "{'message':'not found'}"))).
  left. vm_compute. reflexivity.
Defined.

(** X19.  The URL written to the console is the URL requested, and it is
    written before the request is made: with a [datasetId], the run starts
    with the [console.log] of the URL, then the one request, to that URL;
    nothing is requested after it. *)
Theorem url_is_logged_before_the_request (E : engine) (env : process_env) (ev : event)
  (q : list (jsstring * jsstring)) (d : jsstring) (w : request -> completion Response) :
  queryStringParameters ev = Some q ->
  get q (js "datasetId") = Some d ->
  d <> [] ->
  let rq := upstream_request env (Some d) (rest_properties q (js "datasetId")) in
  let first :=
    console_log [Text ([20195; 29702; 35531; 27714; 33267] ++ js " CWA API: " ++ req_url rq)] in
  (exists rest,
      fst (Logged.run w (Part000Logged.handler E env ev)) = Console first :: Fetched rq :: rest
      /\ requests rest = [])
  /\ (exists rest,
         fst (Logged.run w (CwaProxyLogged.handler E env ev)) = Console first :: Fetched rq :: rest
         /\ requests rest = []).
Proof.
  intros Hq Hg Hd rq first. pose proof (falsy_present q d Hg Hd) as Hf.
  rewrite (Part000Logged_handler_run E env ev q w Hq Hf),
    (CwaProxyLogged_handler_run E env ev q w Hq Hf).
  rewrite Hg. fold rq. cbn [fst].
  split; eexists; (split; [reflexivity | apply requests_map_Console]).
Qed.

Lemma url_is_logged_before_the_request_witness :
  let rq := upstream_request sample_env (Some (js "F-C0032-001"))
              [(js "locationName", [33274; 21271])] in
  let first :=
    console_log [Text ([20195; 29702; 35531; 27714; 33267] ++ js " CWA API: " ++ req_url rq)] in
  (exists rest,
      fst (Logged.run (answers 200 (jsq "{'foo':'bar'}"))
             (Part000Logged.handler sample_engine sample_env sample_event))
      = Console first :: Fetched rq :: rest
      /\ requests rest = [])
  /\ (exists rest,
         fst (Logged.run (answers 200 (jsq "{'foo':'bar'}"))
                (CwaProxyLogged.handler sample_engine sample_env sample_event))
         = Console first :: Fetched rq :: rest
         /\ requests rest = []).
Proof.
  refine (url_is_logged_before_the_request sample_engine sample_env sample_event
            [(js "datasetId", js "F-C0032-001"); (js "locationName", [33274; 21271])]
            (js "F-C0032-001") (answers 200 (jsq "{'foo':'bar'}")) eq_refl eq_refl _).
  discriminate.
Defined.

(** X20.  A body that does not parse is written to the console in full by
    src/unnamed/part_000: after the status line and the first 500 code units
    of the body, [console.error] gets the SyntaxError and then the whole raw
    body, however long, while the response carries 200 code units of it.
    src/netlify/functions/cwa-proxy.js writes the SyntaxError from its outer
    [catch] and nothing of the body. *)
Theorem parse_failure_logs_the_whole_body (E : engine) (env : process_env) (ev : event)
  (q : list (jsstring * jsstring)) (d : jsstring) (w : request -> completion Response)
  (r : Response) (raw : jsstring) :
  queryStringParameters ev = Some q ->
  get q (js "datasetId") = Some d ->
  d <> [] ->
  w (upstream_request env (Some d) (rest_properties q (js "datasetId"))) = Normal r ->
  text r = Normal raw ->
  JSON_parse raw = None ->
  let url := req_url (upstream_request env (Some d) (rest_properties q (js "datasetId"))) in
  let syntax_error := mkError (syntax_error_message E raw) in
  console (fst (Logged.run w (Part000Logged.handler E env ev)))
  = [console_log [Text ([20195; 29702; 35531; 27714; 33267] ++ js " CWA API: " ++ url)];
     console_log [Text (js "CWA API Response Status for " ++ d ++ js ": "
                        ++ decimal (status r) ++ js " - " ++ statusText r)];
     console_log [Text (js "CWA API Raw Response (first 500 chars) for " ++ d ++ js ": "
                        ++ firstn 500 raw)];
     console_error [Text (js "Error parsing JSON from CWA API for dataset " ++ d ++ js ":");
                    Thrown syntax_error];
     console_error [Text (js "Full raw response that failed JSON parsing:"); Text raw]]
  /\ console (fst (Logged.run w (CwaProxyLogged.handler E env ev)))
     = [console_log [Text ([20195; 29702; 35531; 27714; 33267] ++ js " CWA API: " ++ url)];
        console_error [Text (js "Proxy function caught an unexpected error for dataset "
                             ++ d ++ js ":");
                       Thrown syntax_error]].
Proof.
  intros Hq Hg Hd Hw Ht Hp url syntax_error. pose proof (falsy_present q d Hg Hd) as Hf.
  rewrite (Part000Logged_handler_run E env ev q w Hq Hf),
    (CwaProxyLogged_handler_run E env ev q w Hq Hf).
  cbn [fst console]. rewrite !console_map_Console.
  rewrite Part000_try_block_run, CwaProxy_try_block_run. cbn [snd].
  rewrite Hg, Hw. unfold Part000_written_after, CwaProxy_written_after. rewrite Ht, Hp.
  split; reflexivity.
Qed.

Lemma parse_failure_logs_the_whole_body_witness :
  In (console_error [Text (js "Full raw response that failed JSON parsing:");
                     Text (js "<html>error</html>")])
    (console (fst (Logged.run (answers 502 (js "<html>error</html>"))
                     (Part000Logged.handler sample_engine sample_env sample_event)))).
Proof.
  pose proof
    (parse_failure_logs_the_whole_body sample_engine sample_env sample_event
       [(js "datasetId", js "F-C0032-001"); (js "locationName", [33274; 21271])]
       (js "F-C0032-001") (answers 502 (js "<html>error</html>"))
       {| status := 502; statusText := []; text := Normal (js "<html>error</html>") |}
       (js "<html>error</html>") eq_refl eq_refl ltac:(discriminate) eq_refl eq_refl
       ltac:(vm_compute; reflexivity)) as [H _].
  rewrite H. right. right. right. right. left. reflexivity.
Defined.

(** ** What the status of the response tells *)

Lemma caught_200_is_success (E : engine) (r : Response) (c : completion jsstring)
  (data : json) (out : response) :
  ok r = false ->
  caught (map_completion (fun t => upstream_error_response r t data) c) = out ->
  statusCode out <> 200.
Proof.
  intros Hok <-. destruct c as [t | e]; cbn [map_completion caught].
  - cbn [upstream_error_response statusCode]. apply N.eqb_neq. now apply ok_false_not_200.
  - discriminate.
Qed.

(** X1.  A 200 means that the upstream succeeded.  A response with status 200
    is returned only after one request that the upstream answered with a
    2xx status and a body that parses as JSON, and its body is then
    [JSON.stringify] of the parsed value; no error path, and no upstream
    failure, ends in a 200. *)
Theorem status_200_means_upstream_success (E : engine) (env : process_env) (ev : event)
  (w : request -> completion Response) (calls : list request) (r : response) :
  run w (Part000.handler E env ev) = (calls, Normal r)
  \/ run w (CwaProxy.handler E env ev) = (calls, Normal r) ->
  statusCode r = 200 ->
  exists rq R raw data,
    calls = [rq] /\ w rq = Normal R /\ ok R = true /\ text R = Normal raw
    /\ JSON_parse raw = Some data /\ body r = JSON_stringify data.
Proof.
  destruct (queryStringParameters ev) as [q |] eqn:Hq.
  - destruct (falsy (get q (js "datasetId"))) eqn:Hd.
    + unfold Part000.handler, CwaProxy.handler. rewrite Hq. cbv zeta. rewrite Hd. cbn [run].
      intros [[= <- <-] | [= <- <-]]; discriminate.
    + rewrite (Part000_handler_run E env ev q w Hq Hd), (CwaProxy_handler_run E env ev q w Hq Hd).
      rewrite Part000_try_block_run, CwaProxy_try_block_run. cbn [snd].
      set (rq := upstream_request env _ _).
      intros H Hs. exists rq.
      assert (Hr : exists R raw data, w rq = Normal R /\ ok R = true /\ text R = Normal raw
                     /\ JSON_parse raw = Some data /\ r = success data
                     /\ calls = [rq]).
      { destruct (w rq) as [R | e] eqn:Hw.
        2: { destruct H as [[= <- <-] | [= <- <-]]; discriminate. }
        destruct (text R) as [raw | e] eqn:Ht.
        2: { destruct H as [[= <- <-] | [= <- <-]]; discriminate. }
        destruct (JSON_parse raw) as [data |] eqn:Hp.
        2: { destruct H as [[= <- <-] | [= <- <-]]; discriminate. }
        destruct (ok R) eqn:Hok.
        - exists R, raw, data.
          destruct H as [[= <- <-] | [= <- <-]]; repeat split; assumption.
        - exfalso.
          destruct H as [[= _ H] | [= _ H]];
            exact (caught_200_is_success E R _ data r Hok H Hs). }
      destruct Hr as (R & raw & data & HR & Hok & Ht & Hp & -> & ->).
      exists R, raw, data. repeat split; assumption.
  - unfold Part000.handler, CwaProxy.handler. rewrite Hq. cbn [run].
    intros [[=] | [=]].
Qed.

Lemma status_200_means_upstream_success_witness :
  exists rq R raw data,
    [upstream_request sample_env (Some (js "F-C0032-001")) [(js "locationName", [33274; 21271])]]
    = [rq]
    /\ answers 201 (jsq "{'foo':'bar'}") rq = Normal R /\ ok R = true /\ text R = Normal raw
    /\ JSON_parse raw = Some data
    /\ jsq "{'foo':'bar'}" = JSON_stringify data.
Proof.
  apply (status_200_means_upstream_success sample_engine sample_env sample_event
           (answers 201 (jsq "{'foo':'bar'}"))
           [upstream_request sample_env (Some (js "F-C0032-001"))
              [(js "locationName", [33274; 21271])]]
           {| statusCode := 200; headers := json_cors_headers; body := jsq "{'foo':'bar'}" |}).
  - left. vm_compute. reflexivity.
  - reflexivity.
Defined.

(** ** The two versions of the handler, side by side *)

(** X3.  The two source files answer alike.  For every event, environment and
    upstream they make the same requests and settle with the same status
    code and headers (or throw the same error); and unless the upstream
    answers with a body that is not JSON, they return the very same
    response.  The versions differ in the body of that one 500 alone. *)
Theorem versions_differ_on_unparsable_bodies_only (E : engine) (env : process_env)
  (ev : event) (w : request -> completion Response) :
  fst (run w (Part000.handler E env ev)) = fst (run w (CwaProxy.handler E env ev))
  /\ same_status_and_headers (snd (run w (Part000.handler E env ev)))
       (snd (run w (CwaProxy.handler E env ev)))
  /\ ((forall rq R raw, In rq (fst (run w (Part000.handler E env ev))) ->
         w rq = Normal R -> text R = Normal raw -> JSON_parse raw <> None) ->
      run w (Part000.handler E env ev) = run w (CwaProxy.handler E env ev)).
Proof.
  destruct (queryStringParameters ev) as [q |] eqn:Hq.
  - destruct (falsy (get q (js "datasetId"))) eqn:Hd.
    + unfold Part000.handler, CwaProxy.handler. rewrite Hq. cbv zeta. rewrite Hd. cbn.
      repeat split.
    + rewrite (Part000_handler_run E env ev q w Hq Hd), (CwaProxy_handler_run E env ev q w Hq Hd).
      rewrite Part000_try_block_run, CwaProxy_try_block_run. cbn [fst snd].
      set (rq := upstream_request env _ _).
      split; [reflexivity |].
      destruct (w rq) as [R | e] eqn:Hw; [| repeat split].
      destruct (text R) as [raw | e] eqn:Ht; [| repeat split].
      destruct (JSON_parse raw) as [data |] eqn:Hp; [repeat split |].
      split; [split; reflexivity |].
      intros H. exfalso. apply (H rq R raw); [now left | assumption | assumption | assumption].
  - unfold Part000.handler, CwaProxy.handler. rewrite Hq. cbn. repeat split.
Qed.

(** ** The body of a failure *)

(** X2.  Every response whose status is not 200 names its error: the body is
    the JSON text of an object whose first member is [error], with a string
    for its value. *)
Theorem failure_bodies_name_the_error (E : engine) (env : process_env) (ev : event)
  (w : request -> completion Response) (calls : list request) (r : response) :
  run w (Part000.handler E env ev) = (calls, Normal r)
  \/ run w (CwaProxy.handler E env ev) = (calls, Normal r) ->
  statusCode r <> 200 ->
  exists text others,
    JSON_parse (body r) = Some (JObject ((js "error", JString text) :: others)).
Proof.
  assert (Hmissing : exists text others,
             JSON_parse (body missing_datasetId)
             = Some (JObject ((js "error", JString text) :: others))).
  { eexists. eexists. exact (parse_error_envelope _). }
  assert (Hinternal : forall e, exists text others,
             JSON_parse (body (internal_error e))
             = Some (JObject ((js "error", JString text) :: others))).
  { intros e. eexists. eexists. exact (parse_error_envelope _). }
  assert (Hfailure : forall raw d, exists text others,
             JSON_parse (body (Part000.parse_failure E raw d))
             = Some (JObject ((js "error", JString text) :: others))).
  { intros raw d. eexists. eexists. exact (parse_failure_envelope _ _ _). }
  assert (Hupstream : forall R t data, exists text others,
             JSON_parse (body (upstream_error_response R t data))
             = Some (JObject ((js "error", JString text) :: others))).
  { intros R t data. eexists. eexists. exact (parse_upstream_envelope _ _). }
  destruct (queryStringParameters ev) as [q |] eqn:Hq.
  - destruct (falsy (get q (js "datasetId"))) eqn:Hd.
    + unfold Part000.handler, CwaProxy.handler. rewrite Hq. cbv zeta. rewrite Hd. cbn [run].
      intros [[= <- <-] | [= <- <-]] _; exact Hmissing.
    + rewrite (Part000_handler_run E env ev q w Hq Hd), (CwaProxy_handler_run E env ev q w Hq Hd).
      rewrite Part000_try_block_run, CwaProxy_try_block_run. cbn [snd].
      set (rq := upstream_request env _ _).
      intros H Hs.
      destruct (w rq) as [R | e].
      2: { destruct H as [[= <- <-] | [= <- <-]]; apply Hinternal. }
      destruct (text R) as [raw | e].
      2: { destruct H as [[= <- <-] | [= <- <-]]; apply Hinternal. }
      destruct (JSON_parse raw) as [data |].
      2: { destruct H as [[= <- <-] | [= <- <-]]; [apply Hfailure | apply Hinternal]. }
      destruct (ok R).
      { destruct H as [[= <- <-] | [= <- <-]]; now contradiction Hs. }
      destruct (cwa_error_text E R data) as [t | e].
      * destruct H as [[= <- <-] | [= <- <-]]; apply Hupstream.
      * destruct H as [[= <- <-] | [= <- <-]]; apply Hinternal.
  - unfold Part000.handler, CwaProxy.handler. rewrite Hq. cbn [run].
    intros [[=] | [=]].
Qed.

Lemma failure_bodies_name_the_error_witness :
  exists text others,
    JSON_parse
      (body (upstream_error_response
               {| status := 404; statusText := []; text := Normal (jsq "{'message':'not found'}") |}
               (js "CWA API error (404): not found")
               (JObject [(js "message", JString (js "not found"))])))
    = Some (JObject ((js "error", JString text) :: others)).
Proof.
  apply (failure_bodies_name_the_error sample_engine sample_env sample_event
           (answers 404 (jsq "{'message':'not found'}"))
           [upstream_request sample_env (Some (js "F-C0032-001"))
              [(js "locationName", [33274; 21271])]]).
  - left. vm_compute. reflexivity.
  - discriminate.
Defined.

(** ** Bodies that cannot be JSON *)

Lemma parse_literal_opens (c : N) (r : jsstring) (v : json) (rest : jsstring) :
  parse_literal (c :: r) = Some (v, rest) -> opens_json c = true.
Proof.
  unfold parse_literal, opens_json. intros H.
  destruct (N.eqb_spec c 116); [now rewrite !orb_true_r |].
  destruct (N.eqb_spec c 102); [now rewrite !orb_true_r |].
  destruct (N.eqb_spec c 110); [now rewrite !orb_true_r |].
  destruct (N.eqb_spec c 45); [now rewrite !orb_true_r |].
  destruct (is_digit c) eqn:Hdig; [now rewrite !orb_true_r |].
  exfalso. revert H.
  change (js "true") with [116; 114; 117; 101].
  change (js "false") with [102; 97; 108; 115; 101].
  change (js "null") with [110; 117; 108; 108].
  cbn [strip_prefix].
  destruct (N.eqb_spec 116 c); [congruence |].
  destruct (N.eqb_spec 102 c); [congruence |].
  destruct (N.eqb_spec 110 c); [congruence |].
  unfold parse_number. destruct (N.eqb_spec c 45); [congruence |].
  unfold parse_unsigned, scan_int.
  destruct (N.eqb_spec c 48) as [-> | _]; [discriminate |].
  rewrite Hdig. discriminate.
Qed.

(** [JSON.parse] rejects the empty text, a blank text and every text whose
    first character after the white space opens no JSON value. *)
Lemma JSON_parse_opens_no_json (raw : jsstring) :
  opens_no_json raw = true -> JSON_parse raw = None.
Proof.
  unfold opens_no_json, JSON_parse. rewrite parse_value_S.
  destruct (skip_ws raw) as [| c r]; [reflexivity |].
  intros H. apply negb_true_iff in H.
  assert (H1 : (c =? 123) = false) by (unfold opens_json in H; now destruct (c =? 123)).
  assert (H2 : (c =? 91) = false)
    by (unfold opens_json in H; destruct (c =? 91); [now rewrite ?orb_true_r in H | reflexivity]).
  assert (H3 : (c =? 34) = false)
    by (unfold opens_json in H; destruct (c =? 34); [now rewrite ?orb_true_r in H | reflexivity]).
  rewrite H1, H2, H3.
  destruct (parse_literal (c :: r)) as [[v rest] |] eqn:Hl; [| reflexivity].
  apply parse_literal_opens in Hl. congruence.
Qed.

(** X4.  An empty or blank upstream body, or one that starts with a character
    that opens no JSON value, such as the [<] of an HTML page, is answered
    with status 500 whatever the upstream status, 2xx included: the handler
    parses the body before it looks at the status. *)
Theorem body_that_opens_no_json_is_a_500 (E : engine) (env : process_env) (ev : event)
  (q : list (jsstring * jsstring)) (d : jsstring) (w : request -> completion Response)
  (r : Response) (raw : jsstring) :
  queryStringParameters ev = Some q ->
  get q (js "datasetId") = Some d ->
  d <> [] ->
  w (upstream_request env (Some d) (rest_properties q (js "datasetId"))) = Normal r ->
  text r = Normal raw ->
  opens_no_json raw = true ->
  snd (run w (Part000.handler E env ev)) = Normal (Part000.parse_failure E raw (Some d))
  /\ snd (run w (CwaProxy.handler E env ev))
     = Normal (internal_error (mkError (syntax_error_message E raw)))
  /\ statusCode (Part000.parse_failure E raw (Some d)) = 500
  /\ statusCode (internal_error (mkError (syntax_error_message E raw))) = 500.
Proof.
  intros Hq Hg Hd Hw Ht Hb. pose proof (falsy_present q d Hg Hd) as Hf.
  rewrite (Part000_handler_run E env ev q w Hq Hf), (CwaProxy_handler_run E env ev q w Hq Hf).
  rewrite Part000_try_block_run, CwaProxy_try_block_run.
  rewrite Hg, Hw, Ht, (JSON_parse_opens_no_json raw Hb).
  repeat split.
Qed.

Lemma body_that_opens_no_json_is_a_500_witness :
  snd (run (answers 204 []) (Part000.handler sample_engine sample_env sample_event))
  = Normal (Part000.parse_failure sample_engine [] (Some (js "F-C0032-001")))
  /\ snd (run (answers 204 []) (CwaProxy.handler sample_engine sample_env sample_event))
     = Normal (internal_error (mkError (syntax_error_message sample_engine [])))
  /\ statusCode (Part000.parse_failure sample_engine [] (Some (js "F-C0032-001"))) = 500
  /\ statusCode (internal_error (mkError (syntax_error_message sample_engine []))) = 500.
Proof.
  refine (body_that_opens_no_json_is_a_500 sample_engine sample_env sample_event
            [(js "datasetId", js "F-C0032-001"); (js "locationName", [33274; 21271])]
            (js "F-C0032-001") (answers 204 [])
            {| status := 204; statusText := []; text := Normal [] |}
            [] eq_refl eq_refl _ eq_refl eq_refl eq_refl).
  discriminate.
Defined.

(** ** The query string, character by character *)

Lemma lor_128 (y : N) : y < 64 -> N.lor 128 y = 128 + y.
Proof.
  intros H. destruct y as [| p]; [reflexivity |].
  repeat (destruct p as [p | p |]; try (exfalso; lia)); reflexivity.
Qed.

Lemma lor_192 (y : N) : y < 32 -> N.lor 192 y = 192 + y.
Proof.
  intros H. destruct y as [| p]; [reflexivity |].
  repeat (destruct p as [p | p |]; try (exfalso; lia)); reflexivity.
Qed.

Lemma lor_224 (y : N) : y < 16 -> N.lor 224 y = 224 + y.
Proof.
  intros H. destruct y as [| p]; [reflexivity |].
  repeat (destruct p as [p | p |]; try (exfalso; lia)); reflexivity.
Qed.

Lemma lor_240 (y : N) : y < 8 -> N.lor 240 y = 240 + y.
Proof.
  intros H. destruct y as [| p]; [reflexivity |].
  repeat (destruct p as [p | p |]; try (exfalso; lia)); reflexivity.
Qed.

Lemma base64_digits (cp : N) :
  cp = 64 * (cp / 64) + cp mod 64
  /\ cp / 64 = 64 * (cp / 4096) + (cp / 64) mod 64
  /\ cp / 4096 = 64 * (cp / 262144) + (cp / 4096) mod 64
  /\ cp mod 64 < 64 /\ (cp / 64) mod 64 < 64 /\ (cp / 4096) mod 64 < 64.
Proof.
  assert (H1 : cp / 4096 = cp / 64 / 64) by (now rewrite N.Div0.div_div).
  assert (H2 : cp / 262144 = cp / 4096 / 64) by (now rewrite N.Div0.div_div).
  rewrite H2, H1.
  repeat split; try apply N.div_mod'; apply N.mod_lt; discriminate.
Qed.

Lemma utf8_shape (cp : N) :
  cp < 2097152 ->
  (cp < 128 /\ utf8 cp = [cp])
  \/ (exists x y, x < 32 /\ y < 64 /\ cp = 64 * x + y /\ utf8 cp = [192 + x; 128 + y])
  \/ (exists x y z, x < 16 /\ y < 64 /\ z < 64 /\ cp = 4096 * x + 64 * y + z
                    /\ utf8 cp = [224 + x; 128 + y; 128 + z])
  \/ (exists x y z t, x < 8 /\ y < 64 /\ z < 64 /\ t < 64
                      /\ cp = 262144 * x + 4096 * y + 64 * z + t
                      /\ utf8 cp = [240 + x; 128 + y; 128 + z; 128 + t]).
Proof.
  intros Hcp. unfold utf8.
  destruct (base64_digits cp) as (E1 & E2 & E3 & B1 & B2 & B3).
  change 63 with (N.ones 6). rewrite !N.land_ones, !N.shiftr_div_pow2.
  change (2 ^ 6) with 64. change (2 ^ 12) with 4096. change (2 ^ 18) with 262144.
  set (t := cp mod 64) in *. set (z := (cp / 64) mod 64) in *.
  set (y := (cp / 4096) mod 64) in *.
  set (q1 := cp / 64) in *. set (q2 := cp / 4096) in *. set (q3 := cp / 262144) in *.
  clearbody t z y q1 q2 q3.
  destruct (N.ltb_spec cp 128); [left; split; [assumption | reflexivity] |].
  right. destruct (N.ltb_spec cp 2048).
  { left. exists q1, t. rewrite lor_192, lor_128 by lia. repeat split; lia. }
  right. destruct (N.ltb_spec cp 65536).
  { left. exists q2, z, t. rewrite lor_224, !lor_128 by lia. repeat split; lia. }
  right. exists q3, y, z, t. rewrite lor_240, !lor_128 by lia. repeat split; lia.
Qed.

Lemma utf8_bytes (cp : N) : cp < 2097152 -> Forall (fun b => b < 256) (utf8 cp).
Proof.
  intros H.
  destruct (utf8_shape cp H)
    as [[Hc ->] | [(x & y & Hx & Hy & _ & ->) | [(x & y & z & Hx & Hy & Hz & _ & ->)
       | (x & y & z & t & Hx & Hy & Hz & Ht & _ & ->)]]];
    repeat constructor; lia.
Qed.

Lemma cons_eq {A : Type} (a b : A) (l m : list A) : a :: l = b :: m -> a = b /\ l = m.
Proof. intros H. now injection H. Qed.

Lemma utf8_app_inj (a b : N) (r1 r2 : list N) :
  a < 2097152 -> b < 2097152 -> utf8 a ++ r1 = utf8 b ++ r2 -> a = b /\ r1 = r2.
Proof.
  intros Ha Hb.
  destruct (utf8_shape a Ha)
    as [[Hc ->] | [(x & y & Hx & Hy & Ea & ->) | [(x & y & z & Hx & Hy & Hz & Ea & ->)
       | (x & y & z & t & Hx & Hy & Hz & Ht & Ea & ->)]]];
    destruct (utf8_shape b Hb)
      as [[Hc' ->] | [(x' & y' & Hx' & Hy' & Eb & ->)
         | [(x' & y' & z' & Hx' & Hy' & Hz' & Eb & ->)
         | (x' & y' & z' & t' & Hx' & Hy' & Hz' & Ht' & Eb & ->)]]];
    cbn [app]; intros H; repeat (apply cons_eq in H; destruct H as [? H]);
      subst; split; try reflexivity; try lia; exfalso; lia.
Qed.

Lemma upper_hex_inj (a b : N) : a < 16 -> b < 16 -> upper_hex a = upper_hex b -> a = b.
Proof.
  unfold upper_hex. intros Ha Hb.
  destruct (N.ltb_spec a 10), (N.ltb_spec b 10); lia.
Qed.

Lemma upper_hex_is_alnum (a : N) : a < 16 -> is_alnum (upper_hex a) = true.
Proof.
  intros Ha. unfold upper_hex, is_alnum, is_digit.
  destruct (N.ltb_spec a 10).
  - replace (48 <=? 48 + a) with true by (symmetry; apply N.leb_le; lia).
    replace (48 + a <=? 57) with true by (symmetry; apply N.leb_le; lia). reflexivity.
  - replace (65 <=? 55 + a) with true by (symmetry; apply N.leb_le; lia).
    replace (55 + a <=? 90) with true by (symmetry; apply N.leb_le; lia).
    now rewrite orb_true_r.
Qed.

(** The three ways a byte is written. *)
Lemma urlencode_byte_shape (b : N) :
  b < 256 ->
  (b = 32 /\ urlencode_byte b = [43])
  \/ (urlencoded_safe b = true /\ urlencode_byte b = [b])
  \/ (exists h l, h < 16 /\ l < 16 /\ b = 16 * h + l /\ urlencoded_safe b = false
                  /\ urlencode_byte b = [37; upper_hex h; upper_hex l]).
Proof.
  intros Hb. unfold urlencode_byte.
  destruct (N.eqb_spec b 32) as [-> | Hne]; [left; split; reflexivity |].
  right. destruct (urlencoded_safe b) eqn:Hs; [left; split; reflexivity |].
  right. exists (b / 16), (b mod 16). unfold percent_encode_byte.
  change 15 with (N.ones 4). rewrite N.land_ones, N.shiftr_div_pow2. change (2 ^ 4) with 16.
  pose proof (N.div_mod' b 16) as Hdm.
  pose proof (N.mod_lt b 16 ltac:(discriminate)) as Hm.
  assert (Hq : b / 16 < 16) by (apply N.Div0.div_lt_upper_bound; lia).
  repeat split; assumption.
Qed.

Lemma urlencode_byte_app_inj (a b : N) (r1 r2 : jsstring) :
  a < 256 -> b < 256 -> urlencode_byte a ++ r1 = urlencode_byte b ++ r2 -> a = b /\ r1 = r2.
Proof.
  intros Ha Hb.
  destruct (urlencode_byte_shape a Ha)
    as [[-> ->] | [[Hs ->] | (h & l & Hh & Hl & Ea & Hs & ->)]];
    destruct (urlencode_byte_shape b Hb)
      as [[-> ->] | [[Hs' ->] | (h' & l' & Hh' & Hl' & Eb & Hs' & ->)]];
    cbn [app]; intros H; repeat (apply cons_eq in H; destruct H as [? H]);
    subst; try (split; reflexivity); try discriminate.
  repeat match goal with
         | Hx : upper_hex _ = upper_hex _ |- _ =>
             apply upper_hex_inj in Hx; [subst | assumption | assumption]
         end.
  split; reflexivity.
Qed.

Lemma utf8_not_empty (cp : N) : utf8 cp <> [].
Proof.
  unfold utf8. destruct (cp <? 128); [discriminate |].
  destruct (cp <? 2048); [discriminate |]. destruct (cp <? 65536); discriminate.
Qed.

Lemma urlencode_byte_not_empty (b : N) : urlencode_byte b <> [].
Proof.
  unfold urlencode_byte. destruct (b =? 32); [discriminate |].
  destruct (urlencoded_safe b); discriminate.
Qed.

(** Pieces that are never empty and can be told apart at their start
    concatenate without loss. *)
Lemma flat_map_unambiguous {A B : Type} (f : A -> list B) (P : A -> Prop) :
  (forall a, f a <> []) ->
  (forall a b r1 r2, P a -> P b -> f a ++ r1 = f b ++ r2 -> a = b /\ r1 = r2) ->
  forall l1 l2, Forall P l1 -> Forall P l2 -> flat_map f l1 = flat_map f l2 -> l1 = l2.
Proof.
  intros Hne Hinj l1. induction l1 as [| a l1 IH]; intros [| b l2] H1 H2 Heq.
  - reflexivity.
  - exfalso. simpl in Heq. symmetry in Heq. apply app_eq_nil in Heq as [Heq _].
    exact (Hne b Heq).
  - exfalso. simpl in Heq. apply app_eq_nil in Heq as [Heq _]. exact (Hne a Heq).
  - simpl in Heq. inversion H1 as [| ? ? Ha H1']; inversion H2 as [| ? ? Hb H2']; subst.
    destruct (Hinj a b _ _ Ha Hb Heq) as [-> Hrest]. f_equal. now apply IH.
Qed.

Lemma flat_map_utf8_bytes (cps : list N) :
  Forall (fun cp => cp < 2097152) cps -> Forall (fun b => b < 256) (flat_map utf8 cps).
Proof.
  induction 1 as [| cp cps Hcp _ IH]; simpl; [constructor |].
  apply Forall_app. split; [now apply utf8_bytes | exact IH].
Qed.

(** The serializer loses nothing of a name or a value. *)
Lemma urlencode_inj (a b : list N) :
  Forall (fun cp => cp < 2097152) a -> Forall (fun cp => cp < 2097152) b ->
  urlencode a = urlencode b -> a = b.
Proof.
  intros Ha Hb Heq. unfold urlencode in Heq.
  apply (flat_map_unambiguous urlencode_byte (fun b => b < 256)) in Heq.
  - revert Heq. apply (flat_map_unambiguous utf8 (fun cp => cp < 2097152)); try assumption.
    + apply utf8_not_empty.
    + intros x y r1 r2. apply utf8_app_inj.
  - apply urlencode_byte_not_empty.
  - intros x y r1 r2. apply urlencode_byte_app_inj.
  - now apply flat_map_utf8_bytes.
  - now apply flat_map_utf8_bytes.
Qed.

Lemma code_points_bounded (n : nat) :
  forall s, (List.length s <= n)%nat -> code_units s ->
    Forall (fun cp => cp < 1114112) (code_points s).
Proof.
  induction n as [| n IH]; intros s Hlen Hs.
  - destruct s; [constructor | simpl in Hlen; lia].
  - destruct s as [| c r]; [constructor |].
    inversion Hs as [| ? ? Hc Hr]; subst. simpl in Hlen.
    cbn [code_points].
    destruct (is_high_surrogate c) eqn:Hh.
    + unfold is_high_surrogate in Hh. apply andb_true_iff in Hh as [Hh1 Hh2].
      apply N.leb_le in Hh1, Hh2.
      destruct r as [| d r']; [repeat constructor; lia |].
      inversion Hr as [| ? ? Hd Hr']; subst. simpl in Hlen.
      destruct (is_low_surrogate d) eqn:Hl.
      * unfold is_low_surrogate in Hl. apply andb_true_iff in Hl as [Hl1 Hl2].
        apply N.leb_le in Hl1, Hl2.
        constructor; [lia |]. apply IH; [lia | assumption].
      * constructor; [lia |]. apply IH; [simpl; lia | assumption].
    + destruct (is_low_surrogate c); (constructor; [lia |]); (apply IH; [lia | assumption]).
Qed.

Lemma code_points_scalar (s : jsstring) :
  code_units s -> Forall (fun cp => cp < 2097152) (code_points s).
Proof.
  intros Hs. eapply Forall_impl; [| apply (code_points_bounded (List.length s) s (le_n _) Hs)].
  cbv beta. intros cp H. lia.
Qed.

Lemma replace_value_Forall {A : Type} (P : jsstring * A -> Prop) (l : list (jsstring * A))
  (k : jsstring) (v : A) :
  Forall P l -> P (k, v) -> Forall P (replace_value l k v).
Proof.
  intros Hl Hkv. induction Hl as [| [k' v'] l Hx Hl IH]; simpl; [constructor |].
  destruct (str_eqb k' k) eqn:Hk.
  - apply str_eqb_eq in Hk. subst. now constructor.
  - constructor; assumption.
Qed.

(** What holds of every property of the object, read as a pair of
    USVStrings, holds of every pair of the list. *)
Lemma URLSearchParams_Forall (P : list N * list N -> Prop) (o : list (jsstring * jsstring)) :
  Forall (fun kv => P (usv_pair kv)) o -> Forall P (URLSearchParams o).
Proof.
  unfold URLSearchParams. intros Ho.
  assert (H : forall acc, Forall P acc ->
            Forall P (fold_left (fun acc kv =>
                                   record_set acc (code_points (fst kv)) (code_points (snd kv)))
                        o acc)).
  { induction Ho as [| kv o Hkv Ho IH]; intros acc Hacc; simpl; [assumption |].
    apply IH. unfold record_set. destruct (has acc (code_points (fst kv))).
    - now apply replace_value_Forall.
    - apply Forall_app. split; [assumption | now constructor]. }
  apply H. constructor.
Qed.

Lemma join_Forall (Q : N -> Prop) (sep : jsstring) (pieces : list jsstring) :
  Forall Q sep -> Forall (Forall Q) pieces -> Forall Q (join sep pieces).
Proof.
  intros Hsep Hp. induction Hp as [| p pieces Hx Hp IH]; [constructor |].
  destruct pieces as [| p2 pieces]; [now rewrite join_single |].
  rewrite join_cons2. apply Forall_app. split; [assumption |].
  apply Forall_app. split; assumption.
Qed.

Lemma urlencode_byte_chars (b : N) :
  b < 256 -> Forall (fun c => query_char c = true) (urlencode_byte b).
Proof.
  intros Hb. unfold query_char.
  destruct (urlencode_byte_shape b Hb)
    as [[-> ->] | [[Hs ->] | (h & l & Hh & Hl & Eb & Hs & ->)]].
  - repeat constructor.
  - repeat constructor. now rewrite Hs.
  - repeat constructor; unfold urlencoded_safe; now rewrite upper_hex_is_alnum.
Qed.

Lemma urlencode_chars (cps : list N) :
  Forall (fun cp => cp < 2097152) cps -> Forall (fun c => query_char c = true) (urlencode cps).
Proof.
  intros H. apply flat_map_utf8_bytes in H. unfold urlencode.
  induction H as [| b bs Hb _ IH]; simpl; [constructor |].
  apply Forall_app. split; [now apply urlencode_byte_chars | exact IH].
Qed.

Lemma URLSearchParams_scalar (o : list (jsstring * jsstring)) :
  Forall (fun kv => code_units (fst kv) /\ code_units (snd kv)) o ->
  Forall scalar_pair (URLSearchParams o).
Proof.
  intros Ho. apply URLSearchParams_Forall. eapply Forall_impl; [| exact Ho].
  cbv beta. intros [k v] [Hk Hv]. split; now apply code_points_scalar.
Qed.

(** X15.  The query string is plain ASCII, whatever the parameters hold: every
    character of it is a letter, a digit, one of [*], [-], [.], [_], [+],
    [%], or the [=] and [&] that the serializer puts between names, values
    and pairs. *)
Theorem query_is_ascii (o : list (jsstring * jsstring)) :
  Forall (fun kv => code_units (fst kv) /\ code_units (snd kv)) o ->
  Forall (fun c => query_char c = true) (URLSearchParams_toString (URLSearchParams o)).
Proof.
  intros Ho. apply URLSearchParams_scalar in Ho. unfold URLSearchParams_toString.
  apply join_Forall; [repeat constructor |].
  apply Forall_map. eapply Forall_impl; [| exact Ho].
  cbv beta. intros [n v] [Hn Hv]. cbn [fst snd] in *.
  apply Forall_app. split; [now apply urlencode_chars |].
  apply Forall_app. split; [repeat constructor | now apply urlencode_chars].
Qed.

Lemma query_is_ascii_witness :
  Forall (fun c => query_char c = true)
    (URLSearchParams_toString
       (URLSearchParams [(js "locationName", [33274; 21271]); (js "a b", js "1&2")])).
Proof.
  apply query_is_ascii. repeat constructor.
Defined.

(** Two texts cut at the first occurrence of a separator. *)
Lemma app_separator_inj (sep : N) (a1 a2 b1 b2 : jsstring) :
  ~ In sep a1 -> ~ In sep a2 -> a1 ++ sep :: b1 = a2 ++ sep :: b2 -> a1 = a2 /\ b1 = b2.
Proof.
  revert a2. induction a1 as [| x a1 IH]; intros [| y a2] H1 H2 Heq; simpl in Heq.
  - apply cons_eq in Heq as [_ ->]. now split.
  - apply cons_eq in Heq as [<- _]. exfalso. apply H2. now left.
  - apply cons_eq in Heq as [-> _]. exfalso. apply H1. now left.
  - apply cons_eq in Heq as [-> Heq].
    destruct (IH a2) as [-> ->]; try assumption; [| | now split].
    + intros Hin. apply H1. now right.
    + intros Hin. apply H2. now right.
Qed.

Lemma urlencode_no_char (c : N) (cps : list N) :
  query_delimiter c = true -> ~ In c (urlencode cps).
Proof.
  intros Hc Hin. pose proof (urlencode_no_delimiter cps) as H.
  rewrite Forall_forall in H. apply H in Hin. congruence.
Qed.

Lemma pair_text_inj (p1 p2 : list N * list N) :
  scalar_pair p1 -> scalar_pair p2 -> pair_text p1 = pair_text p2 -> p1 = p2.
Proof.
  destruct p1 as [n1 v1], p2 as [n2 v2]. intros [Hn1 Hv1] [Hn2 Hv2]. unfold pair_text.
  cbn [fst snd] in *. change (js "=") with [61]. cbn [app]. intros Heq.
  apply app_separator_inj in Heq as [Hn Hv]; try (apply urlencode_no_char; reflexivity).
  apply urlencode_inj in Hn; [| assumption | assumption].
  apply urlencode_inj in Hv; [| assumption | assumption].
  now subst.
Qed.

Lemma pair_text_no_ampersand (p : list N * list N) : ~ In 38 (pair_text p).
Proof.
  unfold pair_text. intros Hin.
  apply in_app_or in Hin as [Hin | Hin]; [| apply in_app_or in Hin as [Hin | Hin]].
  - revert Hin. now apply urlencode_no_char.
  - simpl in Hin. destruct Hin as [Hin | []]. discriminate.
  - revert Hin. now apply urlencode_no_char.
Qed.

(** The pairs are found again by cutting the query at its ampersands. *)
Lemma split_query (l : list (list N * list N)) :
  split_on 38 (URLSearchParams_toString l)
  = match l with [] => [[]] | _ :: _ => map pair_text l end.
Proof.
  unfold URLSearchParams_toString. change (js "&") with [38].
  destruct l as [| p l]; [reflexivity |].
  change (fun kv : list N * list N => urlencode (fst kv) ++ js "=" ++ urlencode (snd kv))
    with pair_text.
  apply split_on_join; [discriminate |].
  apply Forall_forall. intros piece Hin. apply in_map_iff in Hin as (kv & <- & _).
  apply pair_text_no_ampersand.
Qed.

Lemma pair_text_not_empty (p : list N * list N) : pair_text p <> [].
Proof.
  unfold pair_text. intros H. apply app_eq_nil in H as [_ H]. discriminate.
Qed.

Lemma URLSearchParams_toString_inj (l1 l2 : list (list N * list N)) :
  Forall scalar_pair l1 -> Forall scalar_pair l2 ->
  URLSearchParams_toString l1 = URLSearchParams_toString l2 -> l1 = l2.
Proof.
  intros H1 H2 Heq. apply (f_equal (split_on 38)) in Heq. rewrite !split_query in Heq.
  destruct l1 as [| p1 l1], l2 as [| p2 l2].
  - reflexivity.
  - exfalso. simpl in Heq. apply cons_eq in Heq as [Heq _].
    symmetry in Heq. exact (pair_text_not_empty p2 Heq).
  - exfalso. simpl in Heq. apply cons_eq in Heq as [Heq _].
    exact (pair_text_not_empty p1 Heq).
  - revert H1 H2 Heq. generalize (p1 :: l1) (p2 :: l2). clear.
    intros l1. induction l1 as [| a l1 IH]; intros [| b l2] H1 H2 Heq; try discriminate.
    + reflexivity.
    + simpl in Heq. apply cons_eq in Heq as [Hab Heq].
      inversion H1; inversion H2; subst.
      f_equal; [now apply pair_text_inj | now apply IH].
Qed.

(** X16.  The encoding loses nothing: two parameter objects that are written as
    the same query string hold the same names and values, pair for pair, as
    sequences of code points. *)
Theorem query_string_determines_the_pairs (o1 o2 : list (jsstring * jsstring)) :
  Forall (fun kv => code_units (fst kv) /\ code_units (snd kv)) o1 ->
  Forall (fun kv => code_units (fst kv) /\ code_units (snd kv)) o2 ->
  URLSearchParams_toString (URLSearchParams o1) = URLSearchParams_toString (URLSearchParams o2) ->
  URLSearchParams o1 = URLSearchParams o2.
Proof.
  intros H1 H2. apply URLSearchParams_toString_inj; now apply URLSearchParams_scalar.
Qed.

Lemma query_string_determines_the_pairs_witness :
  URLSearchParams [(js "locationName", [33274; 21271]); (js "format", js "JSON")]
  = URLSearchParams [(js "locationName", [33274; 21271]); (js "format", js "JSON")].
Proof.
  apply query_string_determines_the_pairs; [| | reflexivity];
    repeat constructor.
Defined.

Lemma testbit_7_ge (n : N) : N.testbit n 7 = true -> 128 <= n.
Proof.
  intros H. destruct (N.lt_ge_cases n 128) as [Hlt | Hge]; [| assumption].
  exfalso. destruct (N.eq_dec n 0) as [-> | Hn]; [discriminate |].
  rewrite N.bits_above_log2 in H; [discriminate |].
  apply N.log2_lt_pow2; [lia | exact Hlt].
Qed.

Lemma lor_ge_128 (a x : N) : N.testbit a 7 = true -> 128 <= N.lor a x.
Proof. intros H. apply testbit_7_ge. now rewrite N.lor_spec, H. Qed.

Lemma urlencode_byte_high (b : N) : 128 <= b -> exists x y, urlencode_byte b = [37; x; y].
Proof.
  intros Hb. unfold urlencode_byte, percent_encode_byte.
  destruct (N.eqb_spec b 32); [lia |].
  assert (Hs : urlencoded_safe b = false).
  { unfold urlencoded_safe, is_alnum, is_digit.
    repeat (apply orb_false_iff; split); try (apply N.eqb_neq; lia);
      apply andb_false_iff; right; apply N.leb_gt; lia. }
  rewrite Hs. eexists. eexists. reflexivity.
Qed.

(** What one code point is written as starts with the code point itself
    only if it is a letter or a digit, and then that is all of it. *)
Lemma urlencode_first (cp : N) :
  exists c rest,
    flat_map urlencode_byte (utf8 cp) = c :: rest
    /\ (is_alnum c = true -> cp = c /\ rest = []).
Proof.
  unfold utf8. destruct (N.ltb_spec cp 128) as [Hlt | Hge].
  - cbn [flat_map]. rewrite app_nil_r. unfold urlencode_byte.
    destruct (N.eqb_spec cp 32); [exists 43, []; split; [reflexivity | discriminate] |].
    destruct (urlencoded_safe cp); [exists cp, []; now split |].
    eexists. eexists. split; [reflexivity | discriminate].
  - destruct (cp <? 2048); [| destruct (cp <? 65536)]; cbn [flat_map];
      match goal with
      | |- context [urlencode_byte (N.lor ?a ?x) ++ _] =>
          destruct (urlencode_byte_high (N.lor a x) (lor_ge_128 a x eq_refl)) as (h & l & ->)
      end;
      eexists; eexists; (split; [reflexivity | discriminate]).
Qed.

Lemma urlencode_cons (cp : N) (cps : list N) :
  urlencode (cp :: cps) = flat_map urlencode_byte (utf8 cp) ++ urlencode cps.
Proof. unfold urlencode. cbn [flat_map]. now rewrite flat_map_app. Qed.

(** Only a text of letters and digits is written as a text of letters
    and digits: itself. *)
Lemma urlencode_alnum (t : jsstring) :
  Forall (fun c => is_alnum c = true) t -> forall cps, urlencode cps = t -> cps = t.
Proof.
  induction 1 as [| c t Hc Ht IH]; intros [| cp cps] Heq.
  - reflexivity.
  - exfalso. rewrite urlencode_cons in Heq.
    destruct (urlencode_first cp) as (c & rest & E & _). rewrite E in Heq. discriminate.
  - discriminate.
  - rewrite urlencode_cons in Heq.
    destruct (urlencode_first cp) as (c' & rest & E & Halnum). rewrite E in Heq.
    cbn [app] in Heq. apply cons_eq in Heq as [-> Heq].
    destruct (Halnum Hc) as [-> ->]. cbn [app] in Heq. f_equal. now apply IH.
Qed.

(** A string without surrogates is its own sequence of code points. *)
Lemma code_points_low (s : jsstring) :
  Forall (fun c => c < 55296) (code_points s) -> code_points s = s.
Proof.
  induction s as [| c r IH]; [reflexivity |]. cbn [code_points].
  destruct (is_high_surrogate c) eqn:Hh.
  - intros H. exfalso.
    unfold is_high_surrogate in Hh. apply andb_true_iff in Hh as [Hh1 Hh2].
    apply N.leb_le in Hh1, Hh2.
    destruct r as [| d r']; [apply Forall_inv in H; lia |].
    destruct (is_low_surrogate d) eqn:Hl; apply Forall_inv in H; lia.
  - destruct (is_low_surrogate c) eqn:Hl; intros H.
    + apply Forall_inv in H. lia.
    + apply Forall_inv_tail in H. f_equal. now apply IH.
Qed.

Lemma strip_prefix_Some (p s rest : jsstring) : strip_prefix p s = Some rest -> s = p ++ rest.
Proof.
  revert s. induction p as [| a p IH]; intros s H; simpl in H.
  - now injection H as ->.
  - destruct s as [| b s]; [discriminate |].
    destruct (N.eqb_spec a b) as [-> | _]; [| discriminate].
    simpl. f_equal. now apply IH.
Qed.

Lemma rest_properties_names (q : list (jsstring * jsstring)) (taken : jsstring) :
  Forall (fun kv => fst kv <> taken) (rest_properties q taken).
Proof.
  apply Forall_forall. intros kv Hin. unfold rest_properties in Hin.
  apply filter_In in Hin as [_ Hk]. apply negb_true_iff in Hk. now apply str_eqb_neq.
Qed.

(** ** [datasetId] stays out of the query *)

(** X14.  The destructuring takes [datasetId] out for good: no pair of the
    upstream query is named [datasetId], and no piece of the query string
    between two ampersands starts with [datasetId=], whatever other keys,
    however encoded, the request carries. *)
Theorem datasetId_is_not_forwarded (q : list (jsstring * jsstring)) :
  let others := rest_properties q (js "datasetId") in
  let query := URLSearchParams_toString (URLSearchParams others) in
  (forall name value, In (name, value) (URLSearchParams others) -> name <> js "datasetId")
  /\ Forall (fun piece => strip_prefix (js "datasetId=") piece = None) (split_on 38 query).
Proof.
  intros others query.
  assert (Hnames : Forall (fun p => fst p <> js "datasetId") (URLSearchParams others)).
  { apply URLSearchParams_Forall. eapply Forall_impl; [| apply rest_properties_names].
    cbv beta. intros [k v] Hk Heq. cbn [usv_pair fst snd] in *. apply Hk.
    rewrite <- Heq. symmetry. apply code_points_low. rewrite Heq.
    repeat constructor. }
  split.
  - intros name value Hin. rewrite Forall_forall in Hnames. exact (Hnames _ Hin).
  - unfold query. rewrite split_query.
    destruct (URLSearchParams others) as [| p l] eqn:El; [repeat constructor |].
    rewrite <- El in *. clear El. apply Forall_map. eapply Forall_impl; [| exact Hnames].
    cbv beta. intros [name value] Hne. cbn [fst] in Hne.
    destruct (strip_prefix (js "datasetId=") (pair_text (name, value))) as [rest |] eqn:Hs;
      [| reflexivity].
    exfalso. apply strip_prefix_Some in Hs. unfold pair_text in Hs. cbn [fst snd] in Hs.
    change (js "=") with [61] in Hs.
    change (js "datasetId=") with (js "datasetId" ++ [61]) in Hs.
    rewrite <- app_assoc in Hs. cbn [app] in Hs.
    apply app_separator_inj in Hs as [Hs _].
    + apply Hne. apply urlencode_alnum; [repeat constructor | exact Hs].
    + apply urlencode_no_char. reflexivity.
    + vm_compute. intuition discriminate.
Qed.

(** ** The query is read back as it was written *)

Lemma shifted_lor (a y : N) : y < 64 -> N.lor (N.shiftl a 6) y = 64 * a + y.
Proof.
  intros Hy. rewrite <- N.lxor_lor.
  - rewrite <- N.add_nocarry_lxor; [rewrite N.shiftl_mul_pow2; change (2 ^ 6) with 64; lia |].
    apply N.bits_inj. intros n. rewrite N.land_spec, N.bits_0.
    destruct (N.lt_ge_cases n 6) as [Hn | Hn].
    + now rewrite N.shiftl_spec_low.
    + destruct y as [| p]; [now rewrite N.bits_0, andb_false_r |].
      rewrite (N.bits_above_log2 (N.pos p) n), andb_false_r; [reflexivity |].
      apply N.log2_lt_pow2; [lia |]. apply N.lt_le_trans with (2 ^ 6); [exact Hy |].
      apply N.pow_le_mono_r; [discriminate | exact Hn].
  - apply N.bits_inj. intros n. rewrite N.land_spec, N.bits_0.
    destruct (N.lt_ge_cases n 6) as [Hn | Hn].
    + now rewrite N.shiftl_spec_low.
    + destruct y as [| p]; [now rewrite N.bits_0, andb_false_r |].
      rewrite (N.bits_above_log2 (N.pos p) n), andb_false_r; [reflexivity |].
      apply N.log2_lt_pow2; [lia |]. apply N.lt_le_trans with (2 ^ 6); [exact Hy |].
      apply N.pow_le_mono_r; [discriminate | exact Hn].
Qed.

(** The bytes of a scalar value, with the ranges the decoder looks at. *)
Lemma utf8_cases (cp : N) :
  scalar_value cp = true ->
  (cp <= 127 /\ utf8 cp = [cp])
  \/ (exists x y, 2 <= x < 32 /\ y < 64 /\ cp = 64 * x + y /\ utf8 cp = [192 + x; 128 + y])
  \/ (exists x y z, x < 16 /\ y < 64 /\ z < 64 /\ cp = 4096 * x + 64 * y + z
                    /\ (x = 0 -> 32 <= y) /\ (x = 13 -> y < 32)
                    /\ utf8 cp = [224 + x; 128 + y; 128 + z])
  \/ (exists x y z t, x <= 4 /\ y < 64 /\ z < 64 /\ t < 64
                      /\ cp = 262144 * x + 4096 * y + 64 * z + t
                      /\ (x = 0 -> 16 <= y) /\ (x = 4 -> y < 16)
                      /\ utf8 cp = [240 + x; 128 + y; 128 + z; 128 + t]).
Proof.
  intros Hs.
  assert (Hcp : cp < 55296 \/ 57344 <= cp < 1114112).
  { unfold scalar_value in Hs. apply orb_true_iff in Hs as [Hs | Hs].
    - left. now apply N.ltb_lt.
    - right. apply andb_true_iff in Hs as [H1 H2].
      apply N.leb_le in H1. apply N.ltb_lt in H2. lia. }
  clear Hs. unfold utf8.
  destruct (base64_digits cp) as (E1 & E2 & E3 & B1 & B2 & B3).
  change 63 with (N.ones 6). rewrite !N.land_ones, !N.shiftr_div_pow2.
  change (2 ^ 6) with 64. change (2 ^ 12) with 4096. change (2 ^ 18) with 262144.
  set (t := cp mod 64) in *. set (z := (cp / 64) mod 64) in *.
  set (y := (cp / 4096) mod 64) in *.
  set (q1 := cp / 64) in *. set (q2 := cp / 4096) in *. set (q3 := cp / 262144) in *.
  clearbody t z y q1 q2 q3.
  destruct (N.ltb_spec cp 128); [left; split; [lia | reflexivity] |].
  right. destruct (N.ltb_spec cp 2048).
  { left. exists q1, t. rewrite lor_192, lor_128 by lia. repeat split; lia. }
  right. destruct (N.ltb_spec cp 65536).
  { left. exists q2, z, t. rewrite lor_224, !lor_128 by lia. repeat split; lia. }
  right. exists q3, y, z, t. rewrite lor_240, !lor_128 by lia. repeat split; lia.
Qed.

Lemma utf8_decode_lead (b : N) (r : list N) :
  utf8_decode (b :: r) = fst (utf8_lead b) ++ utf8_decode_from (snd (utf8_lead b)) r.
Proof. reflexivity. Qed.

Lemma utf8_lead_two (x : N) :
  2 <= x < 32 ->
  utf8_lead (192 + x)
  = ([], {| utf8_code_point := x; utf8_bytes_seen := 0; utf8_bytes_needed := 1;
            utf8_lower_boundary := 128; utf8_upper_boundary := 191 |}).
Proof.
  intros H. destruct x as [| p]; [lia |].
  repeat (destruct p as [p | p |]; try (exfalso; lia)); reflexivity.
Qed.

Lemma utf8_lead_three (x : N) :
  x < 16 ->
  utf8_lead (224 + x)
  = ([], {| utf8_code_point := x; utf8_bytes_seen := 0; utf8_bytes_needed := 2;
            utf8_lower_boundary := if x =? 0 then 160 else 128;
            utf8_upper_boundary := if x =? 13 then 159 else 191 |}).
Proof.
  intros H. destruct x as [| p]; [reflexivity |].
  repeat (destruct p as [p | p |]; try (exfalso; lia)); reflexivity.
Qed.

Lemma utf8_lead_four (x : N) :
  x <= 4 ->
  utf8_lead (240 + x)
  = ([], {| utf8_code_point := x; utf8_bytes_seen := 0; utf8_bytes_needed := 3;
            utf8_lower_boundary := if x =? 0 then 144 else 128;
            utf8_upper_boundary := if x =? 4 then 143 else 191 |}).
Proof.
  intros H. destruct x as [| p]; [reflexivity |].
  repeat (destruct p as [p | p |]; try (exfalso; lia)); reflexivity.
Qed.

Lemma utf8_continue (c s n lo hi y : N) (r : list N) :
  n <> 0 -> y < 64 -> lo <= 128 + y <= hi ->
  utf8_decode_from {| utf8_code_point := c; utf8_bytes_seen := s; utf8_bytes_needed := n;
                      utf8_lower_boundary := lo; utf8_upper_boundary := hi |}
    ((128 + y) :: r)
  = if s + 1 =? n then (64 * c + y) :: utf8_decode_from utf8_initial r
    else utf8_decode_from
           {| utf8_code_point := 64 * c + y; utf8_bytes_seen := s + 1; utf8_bytes_needed := n;
              utf8_lower_boundary := 128; utf8_upper_boundary := 191 |} r.
Proof.
  intros Hn Hy [Hlo Hhi]. cbn [utf8_decode_from utf8_bytes_needed utf8_lower_boundary
                                 utf8_upper_boundary utf8_code_point utf8_bytes_seen].
  apply N.eqb_neq in Hn. rewrite Hn.
  apply N.leb_le in Hlo, Hhi. rewrite Hlo, Hhi. cbn [andb].
  assert (Hl : N.land (128 + y) 63 = y).
  { change 63 with (N.ones 6). rewrite N.land_ones. change (2 ^ 6) with 64.
    replace (128 + y) with (y + 2 * 64) by lia. rewrite N.Div0.mod_add.
    now apply N.mod_small. }
  rewrite Hl, (shifted_lor c y Hy). reflexivity.
Qed.

(** The decoder reads the bytes of a scalar value as that value. *)
Lemma utf8_decode_utf8 (cp : N) (rest : list N) :
  scalar_value cp = true -> utf8_decode (utf8 cp ++ rest) = cp :: utf8_decode rest.
Proof.
  intros Hs.
  destruct (utf8_cases cp Hs)
    as [[Hc ->] | [(x & y & Hx & Hy & -> & ->)
       | [(x & y & z & Hx & Hy & Hz & -> & H0 & H13 & ->)
       | (x & y & z & t & Hx & Hy & Hz & Ht & -> & H0 & H4 & ->)]]];
    cbn [app]; rewrite utf8_decode_lead.
  - unfold utf8_lead. apply N.leb_le in Hc. rewrite Hc. reflexivity.
  - rewrite (utf8_lead_two x Hx). cbn [fst snd app].
    rewrite utf8_continue by (try discriminate; lia). reflexivity.
  - rewrite (utf8_lead_three x Hx). cbn [fst snd app].
    rewrite utf8_continue; [| discriminate | exact Hy |].
    + change (0 + 1 =? 2) with false. change (0 + 1) with 1. cbv iota.
      rewrite utf8_continue by (try discriminate; lia).
      change (1 + 1 =? 2) with true. cbv iota. unfold utf8_decode. f_equal. lia.
    + destruct (N.eqb_spec x 0) as [E0 | _]; destruct (N.eqb_spec x 13) as [E | _];
        try (specialize (H0 E0)); try (specialize (H13 E)); lia.
  - rewrite (utf8_lead_four x Hx). cbn [fst snd app].
    rewrite utf8_continue; [| discriminate | exact Hy |].
    + change (0 + 1 =? 3) with false. change (0 + 1) with 1. cbv iota.
      rewrite utf8_continue by (try discriminate; lia).
      change (1 + 1 =? 3) with false. change (1 + 1) with 2. cbv iota.
      rewrite utf8_continue by (try discriminate; lia).
      change (2 + 1 =? 3) with true. cbv iota. unfold utf8_decode. f_equal. lia.
    + destruct (N.eqb_spec x 0) as [E0 | _]; destruct (N.eqb_spec x 4) as [E | _];
        try (specialize (H0 E0)); try (specialize (H4 E)); lia.
Qed.

Lemma utf8_decode_flat_map (cps : list N) :
  Forall (fun cp => scalar_value cp = true) cps -> utf8_decode (flat_map utf8 cps) = cps.
Proof.
  induction 1 as [| cp cps Hcp _ IH]; [reflexivity |].
  cbn [flat_map]. now rewrite (utf8_decode_utf8 cp _ Hcp), IH.
Qed.

Lemma hex_value_upper_hex (h : N) : h < 16 -> hex_value (upper_hex h) = Some h.
Proof.
  intros H. destruct h as [| p]; [reflexivity |].
  repeat (destruct p as [p | p |]; try (exfalso; lia)); reflexivity.
Qed.

Lemma upper_hex_not_plus (h : N) : h < 16 -> (upper_hex h =? 43) = false.
Proof.
  intros H. destruct h as [| p]; [reflexivity |].
  repeat (destruct p as [p | p |]; try (exfalso; lia)); reflexivity.
Qed.

Lemma percent_decode_byte (b : N) (rest : jsstring) :
  b < 256 ->
  percent_decode (map (fun c => if c =? 43 then 32 else c) (urlencode_byte b ++ rest))
  = b :: percent_decode (map (fun c => if c =? 43 then 32 else c) rest).
Proof.
  intros Hb.
  destruct (urlencode_byte_shape b Hb)
    as [[-> ->] | [[Hs ->] | (h & l & Hh & Hl & -> & _ & ->)]].
  - reflexivity.
  - cbn [app map].
    destruct (N.eqb_spec b 43) as [-> | _]; [discriminate |].
    cbn [percent_decode].
    destruct (N.eqb_spec b 37) as [-> | _]; [discriminate | reflexivity].
  - cbn [app map]. rewrite !upper_hex_not_plus by assumption.
    change (37 =? 43) with false. cbv iota. cbn [percent_decode].
    change (37 =? 37) with true. cbv iota.
    now rewrite !hex_value_upper_hex by assumption.
Qed.

Lemma percent_decode_bytes (bytes : list N) :
  Forall (fun b => b < 256) bytes ->
  percent_decode (map (fun c => if c =? 43 then 32 else c) (flat_map urlencode_byte bytes))
  = bytes.
Proof.
  induction 1 as [| b bytes Hb _ IH]; [reflexivity |].
  cbn [flat_map]. now rewrite (percent_decode_byte b _ Hb), IH.
Qed.

Lemma scalar_value_bound (cp : N) : scalar_value cp = true -> cp < 2097152.
Proof.
  unfold scalar_value. intros H. apply orb_true_iff in H as [H | H].
  - apply N.ltb_lt in H. lia.
  - apply andb_true_iff in H as [_ H]. apply N.ltb_lt in H. lia.
Qed.

Lemma flat_map_utf8_bytes_scalar (cps : list N) :
  Forall (fun cp => scalar_value cp = true) cps ->
  Forall (fun b => b < 256) (flat_map utf8 cps).
Proof.
  induction 1 as [| cp cps Hcp _ IH]; [constructor |].
  cbn [flat_map]. apply Forall_app. split; [| exact IH].
  apply utf8_bytes. now apply scalar_value_bound.
Qed.

(** A name or a value of scalar values is read back from what the
    serializer writes for it. *)
Lemma form_urlencoded_decode_urlencode (cps : list N) :
  Forall (fun cp => scalar_value cp = true) cps ->
  form_urlencoded_decode (urlencode cps) = cps.
Proof.
  intros H. unfold form_urlencoded_decode, urlencode.
  rewrite percent_decode_bytes by now apply flat_map_utf8_bytes_scalar.
  now apply utf8_decode_flat_map.
Qed.

Lemma cut_at_first (sep : N) (a b : jsstring) :
  ~ In sep a -> cut_at sep (a ++ sep :: b) = (a, b).
Proof.
  induction a as [| c a IH]; intros Hin; cbn [app cut_at].
  - now rewrite N.eqb_refl.
  - destruct (N.eqb_spec c sep) as [-> | _]; [exfalso; apply Hin; now left |].
    rewrite IH; [reflexivity |]. intros H. apply Hin. now right.
Qed.

Lemma form_urlencoded_parse_toString (l : list (list N * list N)) :
  Forall scalar_values l -> form_urlencoded_parse (URLSearchParams_toString l) = l.
Proof.
  intros Hl. unfold form_urlencoded_parse. rewrite split_query.
  destruct l as [| p0 l0]; [reflexivity |].
  induction Hl as [| [n v] l [Hn Hv] _ IH]; [reflexivity |].
  cbn [map flat_map]. rewrite IH.
  destruct (pair_text (n, v)) as [| c piece] eqn:Hp; [now apply pair_text_not_empty in Hp |].
  rewrite <- Hp. unfold pair_text. cbn [fst snd]. change (js "=") with [61]. cbn [app].
  rewrite cut_at_first by (apply urlencode_no_char; reflexivity). cbn [fst snd].
  cbn [fst snd] in Hn, Hv.
  now rewrite !form_urlencoded_decode_urlencode by assumption.
Qed.

(** ** Code points of a string *)

Lemma code_points_scalar_values_bounded (n : nat) :
  forall s, (List.length s <= n)%nat -> code_units s ->
    Forall (fun cp => scalar_value cp = true) (code_points s).
Proof.
  assert (Hlow : forall c, c < 65536 -> is_high_surrogate c = false ->
                           is_low_surrogate c = false -> scalar_value c = true).
  { intros c Hc Hh Hl. unfold is_high_surrogate, is_low_surrogate, scalar_value in *.
    destruct (N.ltb_spec c 55296); [reflexivity |].
    destruct (N.leb_spec 57344 c); destruct (N.ltb_spec c 1114112); try reflexivity; try lia.
    exfalso. apply andb_false_iff in Hh, Hl.
    destruct Hh as [Hh | Hh]; [apply N.leb_gt in Hh; lia |]. apply N.leb_gt in Hh.
    destruct Hl as [Hl | Hl]; apply N.leb_gt in Hl; lia. }
  induction n as [| n IH]; intros s Hlen Hs.
  - destruct s; [constructor | simpl in Hlen; lia].
  - destruct s as [| c r]; [constructor |].
    pose proof (Forall_inv Hs) as Hc. pose proof (Forall_inv_tail Hs) as Hr. cbv beta in Hc.
    simpl in Hlen. cbn [code_points].
    destruct (is_high_surrogate c) eqn:Hh.
    + destruct r as [| d r']; [repeat constructor |].
      pose proof (Forall_inv_tail Hr) as Hr'. simpl in Hlen.
      destruct (is_low_surrogate d) eqn:Hl.
      * unfold is_high_surrogate in Hh. apply andb_true_iff in Hh as [Hh1 Hh2].
        apply N.leb_le in Hh1, Hh2.
        unfold is_low_surrogate in Hl. apply andb_true_iff in Hl as [Hl1 Hl2].
        apply N.leb_le in Hl1, Hl2.
        constructor; [| apply IH; [lia | assumption]].
        unfold scalar_value. apply orb_true_iff. right.
        apply andb_true_iff. split; [apply N.leb_le | apply N.ltb_lt]; lia.
      * constructor; [reflexivity |]. apply IH; [simpl; lia | assumption].
    + destruct (is_low_surrogate c) eqn:Hl.
      * constructor; [reflexivity |]. apply IH; [lia | assumption].
      * constructor; [now apply Hlow |]. apply IH; [lia | assumption].
Qed.

(** The conversion to a USVString gives scalar values only. *)
Lemma code_points_scalar_values (s : jsstring) :
  code_units s -> Forall (fun cp => scalar_value cp = true) (code_points s).
Proof. apply (code_points_scalar_values_bounded (List.length s)). lia. Qed.

Lemma utf16_pair (c d : N) :
  is_high_surrogate c = true -> is_low_surrogate d = true ->
  utf16 (65536 + (c - 55296) * 1024 + (d - 56320)) = [c; d].
Proof.
  unfold is_high_surrogate, is_low_surrogate. intros Hh Hl.
  apply andb_true_iff in Hh as [Hh1 Hh2]. apply N.leb_le in Hh1, Hh2.
  apply andb_true_iff in Hl as [Hl1 Hl2]. apply N.leb_le in Hl1, Hl2.
  unfold utf16.
  destruct (N.leb_spec (65536 + (c - 55296) * 1024 + (d - 56320)) 65535); [lia |].
  replace (65536 + (c - 55296) * 1024 + (d - 56320) - 65536)
    with ((d - 56320) + (c - 55296) * 1024) by lia.
  rewrite N.div_add, N.Div0.mod_add by discriminate.
  rewrite N.div_small, N.mod_small by lia.
  f_equal; [lia | f_equal; lia].
Qed.

Lemma utf16_code_points_bounded (n : nat) :
  forall s, (List.length s <= n)%nat -> code_units s -> isWellFormed s = true ->
    flat_map utf16 (code_points s) = s.
Proof.
  induction n as [| n IH]; intros s Hlen Hs Hw.
  - destruct s; [reflexivity | simpl in Hlen; lia].
  - destruct s as [| c r]; [reflexivity |].
    pose proof (Forall_inv Hs) as Hc. pose proof (Forall_inv_tail Hs) as Hr. cbv beta in Hc.
    simpl in Hlen. cbn [code_points isWellFormed] in *.
    destruct (is_high_surrogate c) eqn:Hh.
    + destruct r as [| d r']; [discriminate |].
      pose proof (Forall_inv_tail Hr) as Hr'. simpl in Hlen.
      apply andb_true_iff in Hw as [Hl Hw]. rewrite Hl.
      cbn [flat_map]. rewrite (utf16_pair c d Hh Hl). cbn [app].
      do 2 f_equal. apply IH; [lia | assumption | assumption].
    + apply andb_true_iff in Hw as [Hl Hw]. apply negb_true_iff in Hl. rewrite Hl.
      cbn [flat_map]. unfold utf16 at 1.
      destruct (N.leb_spec c 65535); [| lia]. cbn [app]. f_equal.
      apply IH; [lia | assumption | assumption].
Qed.

(** Written in UTF-16 again, the code points of a well-formed string are
    the string. *)
Lemma utf16_code_points (s : jsstring) :
  code_units s -> isWellFormed s = true -> flat_map utf16 (code_points s) = s.
Proof. apply (utf16_code_points_bounded (List.length s)). lia. Qed.

Lemma URLSearchParams_scalar_values (o : list (jsstring * jsstring)) :
  Forall (fun kv => code_units (fst kv) /\ code_units (snd kv)) o ->
  Forall scalar_values (URLSearchParams o).
Proof.
  intros Ho. apply URLSearchParams_Forall. eapply Forall_impl; [| exact Ho].
  cbv beta. intros [k v] [Hk Hv]. split; now apply code_points_scalar_values.
Qed.

Lemma rest_properties_Forall (P : jsstring * jsstring -> Prop) (q : list (jsstring * jsstring))
  (taken : jsstring) :
  Forall P q -> Forall P (rest_properties q taken).
Proof.
  unfold rest_properties. intros H. apply Forall_forall. intros kv Hin.
  apply filter_In in Hin as [Hin _]. rewrite Forall_forall in H. now apply H.
Qed.

(** Unreserved characters are written as they are, and a space as [+]. *)
Lemma urlencode_plain (s : jsstring) :
  Forall (fun c => urlencoded_safe c || (c =? 32) = true) s ->
  urlencode (code_points s) = map (fun c => if c =? 32 then 43 else c) s.
Proof.
  assert (Hlt : forall c, urlencoded_safe c || (c =? 32) = true -> c < 128).
  { intros c Hc. destruct (N.ltb_spec c 128) as [| Hge]; [assumption |]. exfalso.
    unfold urlencoded_safe, is_alnum, is_digit in Hc.
    repeat match type of Hc with
           | (_ || _) = true => apply orb_true_iff in Hc; destruct Hc as [Hc | Hc]
           | (_ && _) = true => apply andb_true_iff in Hc; destruct Hc as [Hc Hc']
           end;
      repeat match goal with
             | H : (_ <=? _) = true |- _ => apply N.leb_le in H
             | H : (_ =? _) = true |- _ => apply N.eqb_eq in H
             end; lia. }
  intros H. induction H as [| c s Hc Hs IH]; [reflexivity |].
  pose proof (Hlt c Hc) as Hc128.
  assert (Hh : is_high_surrogate c = false).
  { unfold is_high_surrogate. destruct (N.leb_spec 55296 c); [lia | reflexivity]. }
  assert (Hl : is_low_surrogate c = false).
  { unfold is_low_surrogate. destruct (N.leb_spec 56320 c); [lia | reflexivity]. }
  cbn [code_points map]. rewrite Hh, Hl, urlencode_cons, IH. f_equal.
  unfold utf8. destruct (N.ltb_spec c 128); [| lia]. cbn [flat_map]. rewrite app_nil_r.
  unfold urlencode_byte. destruct (N.eqb_spec c 32) as [-> | Hne]; [reflexivity |].
  apply orb_true_iff in Hc as [Hc | Hc]; [now rewrite Hc | discriminate].
Qed.

(** ** The upstream request (C4) *)

(** C4.  With a non-empty [datasetId] the handler of either source file
    makes exactly one outbound call: a GET of the base URL, a slash, the
    [datasetId] as it came, a question mark and the serialized
    [URLSearchParams] of the other parameters, with the one header
    [Authorization: CWA <key>].

    The query is in the standard encoding.  It is the pairs [name=value] of
    the other parameters joined by [&], written from the UTF-8 bytes of
    their code points, so that no name or value holds a [&], [=], [?], [#],
    [/] or space of its own.  The parser of the URL standard reads it back
    as the very list of pairs: cut at the ampersands, each piece cut at its
    first [=], [+] read as a space, the percent-encoded bytes decoded as
    UTF-8.  The code points of a string are scalar values, a surrogate pair
    being one of them (written in UTF-16 again, they are the string when it
    is well formed).  Letters, digits, [*], [-], [.] and [_] are written as
    they are, and a space as [+].  The other parameters are the pairs of
    the parameters object whose name is not [datasetId]. *)
Theorem C4_upstream_request (E : engine) (env : process_env) (ev : event)
  (q : list (jsstring * jsstring)) (d : jsstring) (w : request -> completion Response) :
  queryStringParameters ev = Some q ->
  get q (js "datasetId") = Some d ->
  d <> [] ->
  let others := rest_properties q (js "datasetId") in
  let query := URLSearchParams_toString (URLSearchParams others) in
  let rq :=
    {| req_method := js "GET";
       req_url := js "https://opendata.cwa.gov.tw/api/v1/rest/datastore/" ++ d ++ js "?" ++ query;
       req_headers := [(js "Authorization", js "CWA " ++ template (CWA_API_KEY env))] |} in
  fst (run w (Part000.handler E env ev)) = [rq]
  /\ fst (run w (CwaProxy.handler E env ev)) = [rq]
  /\ (NoDup (map (fun kv => code_points (fst kv)) q) ->
      query = join (js "&")
                (map (fun kv => urlencode (code_points (fst kv)) ++ js "="
                                ++ urlencode (code_points (snd kv))) others))
  /\ (forall s, Forall (fun c => query_delimiter c = false) (urlencode (code_points s)))
  /\ (Forall (fun kv => code_units (fst kv) /\ code_units (snd kv)) q ->
      form_urlencoded_parse query = URLSearchParams others
      /\ (NoDup (map (fun kv => code_points (fst kv)) q) ->
          form_urlencoded_parse query
          = map (fun kv => (code_points (fst kv), code_points (snd kv))) others))
  /\ (forall s, code_units s ->
        Forall (fun cp => scalar_value cp = true) (code_points s)
        /\ (isWellFormed s = true -> flat_map utf16 (code_points s) = s))
  /\ (forall s, Forall (fun c => urlencoded_safe c || (c =? 32) = true) s ->
        urlencode (code_points s) = map (fun c => if c =? 32 then 43 else c) s)
  /\ (forall kv, In kv others <-> In kv q /\ fst kv <> js "datasetId").
Proof.
  intros Hq Hg Hd others query rq.
  pose proof (falsy_present q d Hg Hd) as Hf.
  rewrite (Part000_handler_run E env ev q w Hq Hf), (CwaProxy_handler_run E env ev q w Hq Hf).
  rewrite Hg. simpl fst.
  assert (Hrq : upstream_request env (Some d) (rest_properties q (js "datasetId")) = rq).
  { reflexivity. }
  rewrite Hrq. split; [reflexivity | split; [reflexivity |]].
  split; [| split; [| split; [| split; [| split]]]].
  - intros Hnd. unfold query.
    rewrite (URLSearchParams_toString_distinct others) by now apply rest_properties_distinct.
    reflexivity.
  - intros s. apply urlencode_no_delimiter.
  - intros Hu.
    assert (Hparse : form_urlencoded_parse query = URLSearchParams others).
    { apply form_urlencoded_parse_toString, URLSearchParams_scalar_values.
      now apply rest_properties_Forall. }
    split; [exact Hparse |].
    intros Hnd. rewrite Hparse. apply URLSearchParams_distinct.
    now apply rest_properties_distinct.
  - intros s Hs. split; [now apply code_points_scalar_values | now apply utf16_code_points].
  - apply urlencode_plain.
  - intros kv. unfold others, rest_properties. rewrite filter_In, negb_true_iff, str_eqb_neq.
    reflexivity.
Qed.

(** The example of the specification, [datasetId=F-C0032-001] with
    [locationName=臺北] and the key [CWA-SAMPLE-KEY]; and a request with
    three other parameters, whose names and values hold a space, an [&], an
    [=], a character outside the basic plane (the surrogate pair D83D DE00)
    and a lone surrogate. *)
Lemma C4_witness :
  (let rq :=
     {| req_method := js "GET";
        req_url := js "https://opendata.cwa.gov.tw/api/v1/rest/datastore/F-C0032-001?locationName=%E8%87%BA%E5%8C%97";
        req_headers := [(js "Authorization", js "CWA CWA-SAMPLE-KEY")] |} in
   fst (run (answers 200 (jsq "{'foo':'bar'}")) (Part000.handler sample_engine sample_env sample_event))
   = [rq]
   /\ fst (run (answers 200 (jsq "{'foo':'bar'}")) (CwaProxy.handler sample_engine sample_env sample_event))
      = [rq])
  /\ (let ev :=
        {| queryStringParameters :=
             Some [(js "a b", js "x&y=z"); (js "datasetId", js "O-A0001-001/x?y");
                   ([55357; 56832], [33274; 21271]); (js "lone", [55357])];
           multiValueQueryStringParameters := None |} in
      let rq :=
        {| req_method := js "GET";
           req_url := js "https://opendata.cwa.gov.tw/api/v1/rest/datastore/O-A0001-001/x?y?a+b=x%26y%3Dz&%F0%9F%98%80=%E8%87%BA%E5%8C%97&lone=%EF%BF%BD";
           req_headers := [(js "Authorization", js "CWA CWA-SAMPLE-KEY")] |} in
      fst (run (unreachable (js "fetch failed")) (Part000.handler sample_engine sample_env ev)) = [rq]
      /\ fst (run (unreachable (js "fetch failed")) (CwaProxy.handler sample_engine sample_env ev))
         = [rq]
      /\ form_urlencoded_parse (js "a+b=x%26y%3Dz&%F0%9F%98%80=%E8%87%BA%E5%8C%97&lone=%EF%BF%BD")
         = [(js "a b", js "x&y=z"); ([128512], [33274; 21271]); (js "lone", [65533])]).
Proof.
  split.
  - pose proof (C4_upstream_request sample_engine sample_env sample_event
                  [(js "datasetId", js "F-C0032-001"); (js "locationName", [33274; 21271])]
                  (js "F-C0032-001") (answers 200 (jsq "{'foo':'bar'}"))
                  eq_refl eq_refl ltac:(discriminate)) as (H1 & H2 & _).
    split; [exact H1 | exact H2].
  - pose proof (C4_upstream_request sample_engine sample_env
                  {| queryStringParameters :=
                       Some [(js "a b", js "x&y=z"); (js "datasetId", js "O-A0001-001/x?y");
                             ([55357; 56832], [33274; 21271]); (js "lone", [55357])];
                     multiValueQueryStringParameters := None |}
                  [(js "a b", js "x&y=z"); (js "datasetId", js "O-A0001-001/x?y");
                   ([55357; 56832], [33274; 21271]); (js "lone", [55357])]
                  (js "O-A0001-001/x?y") (unreachable (js "fetch failed"))
                  eq_refl eq_refl ltac:(discriminate)) as (H1 & H2 & _ & _ & H5 & _).
    split; [exact H1 | split; [exact H2 |]].
    refine (proj1 (H5 _)). repeat constructor.
Defined.

(** ** Upstream errors that are not forwarded *)

Lemma ToString_converts (E : engine) (v : json) :
  if converts v then exists t, ToString E v = Normal t
  else ToString E v = Throw (mkError (to_primitive_message E)).
Proof.
  induction v as [| b | x | s | l IH | l IH] using json_induction;
    try (simpl; eexists; reflexivity).
  - cbn [converts ToString].
    induction IH as [| a l Ha _ IHl]; [simpl; eexists; reflexivity |].
    cbn [andb]. destruct (converts a).
    + destruct Ha as [t Ht]. cbn [andb].
      assert (Ha' : exists t', match a with JNull => Normal [] | _ => ToString E a end
                               = Normal t').
      { destruct a; try (eexists; exact Ht). eexists. reflexivity. }
      destruct Ha' as [t' Ht']. rewrite Ht'.
      match goal with
      | |- if ?b then _ else _ => destruct b
      end.
      * match type of IHl with
        | exists t0, map_completion _ ?c = _ => destruct c as [ts | e]
        end; [| destruct IHl as [? IHl]; discriminate].
        simpl. eexists. reflexivity.
      * match type of IHl with
        | map_completion _ ?c = _ => destruct c as [ts | e]
        end; [discriminate |].
        simpl in *. exact IHl.
    + cbn [andb].
      assert (Ha' : match a with JNull => Normal [] | _ => ToString E a end
                    = Throw (mkError (to_primitive_message E))).
      { destruct a; try exact Ha. simpl in Ha. discriminate. }
      rewrite Ha'. reflexivity.
  - cbn [converts ToString]. destruct (has l (js "toString")); simpl;
      [reflexivity | eexists; reflexivity].
Qed.

Lemma cwa_error_text_cases (E : engine) (r : Response) (data : json) :
  if message_converts data then exists t, cwa_error_text E r data = Normal t
  else exists e, cwa_error_text E r data = Throw e.
Proof.
  unfold message_converts, cwa_error_text.
  destruct data as [| b | x | s | l | l]; try (simpl; eexists; reflexivity).
  cbn [get_property].
  pose proof (ToString_converts E (or_else (get l (js "message")) (JString (js "Unknown error"))))
    as H.
  destruct (converts (or_else (get l (js "message")) (JString (js "Unknown error")))).
  - destruct H as [t ->]. simpl. eexists. reflexivity.
  - rewrite H. simpl. eexists. reflexivity.
Qed.

(** X7.  When an upstream error is forwarded.  For an upstream response with a
    non-2xx status whose body parses as JSON, the handler of either source
    file returns the upstream status exactly when the error text can be
    built: the parsed body is not [null], and its [message], when truthy,
    converts to a string (it is not an object with a property named
    [toString], nor an array that holds one).  In the other cases the
    TypeError of building the text reaches the outer [catch], and the status
    is 500. *)
Theorem upstream_error_is_forwarded_or_caught (E : engine) (env : process_env) (ev : event)
  (q : list (jsstring * jsstring)) (d : jsstring) (w : request -> completion Response)
  (r : Response) (raw : jsstring) (data : json) :
  queryStringParameters ev = Some q ->
  get q (js "datasetId") = Some d ->
  d <> [] ->
  w (upstream_request env (Some d) (rest_properties q (js "datasetId"))) = Normal r ->
  text r = Normal raw ->
  JSON_parse raw = Some data ->
  ok r = false ->
  exists resp,
    snd (run w (Part000.handler E env ev)) = Normal resp
    /\ snd (run w (CwaProxy.handler E env ev)) = Normal resp
    /\ statusCode resp = (if message_converts data then status r else 500)
    /\ (message_converts data = true ->
        exists t, resp = upstream_error_response r t data)
    /\ (message_converts data = false -> exists e, resp = internal_error e).
Proof.
  intros Hq Hg Hd Hw Ht Hp Hok.
  destruct (handlers_run_parsed E env ev q d w r raw data Hq Hg Hd Hw Ht Hp) as [H1 H2].
  cbv zeta in H1, H2. rewrite H1, H2, Hok. cbn [snd].
  pose proof (cwa_error_text_cases E r data) as Hc.
  destruct (message_converts data).
  - destruct Hc as [t ->]. cbn [map_completion caught]. eexists.
    repeat split; try reflexivity; [now exists t | discriminate].
  - destruct Hc as [e ->]. cbn [map_completion caught]. eexists.
    repeat split; try reflexivity; [discriminate | now exists e].
Qed.

Lemma upstream_error_is_forwarded_or_caught_witness :
  exists resp,
    snd (run (answers 404 (jsq "{'message':{'toString':1}}"))
           (Part000.handler sample_engine sample_env sample_event)) = Normal resp
    /\ snd (run (answers 404 (jsq "{'message':{'toString':1}}"))
              (CwaProxy.handler sample_engine sample_env sample_event)) = Normal resp
    /\ statusCode resp = 500.
Proof.
  destruct (upstream_error_is_forwarded_or_caught sample_engine sample_env sample_event
              [(js "datasetId", js "F-C0032-001"); (js "locationName", [33274; 21271])]
              (js "F-C0032-001") (answers 404 (jsq "{'message':{'toString':1}}"))
              {| status := 404; statusText := [];
                 text := Normal (jsq "{'message':{'toString':1}}") |}
              (jsq "{'message':{'toString':1}}")
              (JObject [(js "message",
                         JObject [(js "toString",
                                   JNumber (Number.Finite false 4503599627370496 (-52)))])])
              eq_refl eq_refl ltac:(discriminate) eq_refl eq_refl
              ltac:(vm_compute; reflexivity) eq_refl)
    as (resp & H1 & H2 & H3 & _).
  exists resp. repeat split; assumption.
Defined.

(** ** The own keys of an object *)

Lemma digits_value_snoc (a : jsstring) (x : N) :
  digits_value (a ++ [x]) = 10 * digits_value a + (x - 48).
Proof. unfold digits_value. now rewrite fold_left_app. Qed.

Lemma digit_bounds (c : N) : is_digit c = true -> 48 <= c <= 57.
Proof.
  unfold is_digit. intros H. apply andb_true_iff in H as [H1 H2].
  apply N.leb_le in H1, H2. lia.
Qed.

Lemma digits_value_positive (a : jsstring) :
  all_digits a -> match a with c :: _ => c <> 48 | [] => False end -> 0 < digits_value a.
Proof.
  induction a as [| x a IH] using rev_ind; [easy |].
  intros Hd Hlead. rewrite digits_value_snoc.
  apply Forall_app in Hd as [Hd Hx]. apply Forall_inv in Hx. apply digit_bounds in Hx.
  destruct a as [| c a].
  - simpl in Hlead. change (digits_value []) with 0. lia.
  - specialize (IH Hd Hlead). lia.
Qed.

(** Two numerals without leading zeros that denote the same number are
    the same text. *)
Lemma digits_value_inj (a : jsstring) :
  forall b, all_digits a -> all_digits b ->
    match a with c :: _ => c <> 48 | [] => True end ->
    match b with c :: _ => c <> 48 | [] => True end ->
    digits_value a = digits_value b -> a = b.
Proof.
  induction a as [| x a IH] using rev_ind; intros b Ha Hb La Lb Heq.
  - destruct b as [| c b]; [reflexivity |]. exfalso.
    pose proof (digits_value_positive (c :: b) Hb Lb) as Hpos.
    change (digits_value []) with 0 in Heq. lia.
  - destruct b as [| y b _] using rev_ind.
    + exfalso.
      assert (Hpos : 0 < digits_value (a ++ [x])).
      { apply digits_value_positive; [assumption |]. now destruct a. }
      change (digits_value []) with 0 in Heq. lia.
    + rewrite !digits_value_snoc in Heq.
      apply Forall_app in Ha as [Ha Hx]. apply Forall_inv in Hx. apply digit_bounds in Hx.
      apply Forall_app in Hb as [Hb Hy]. apply Forall_inv in Hy. apply digit_bounds in Hy.
      assert (Hxy : x = y /\ digits_value a = digits_value b) by lia.
      destruct Hxy as [-> Hv]. f_equal. apply IH; try assumption.
      * now destruct a.
      * now destruct b.
Qed.

Lemma array_index_Some (k : jsstring) (i : N) :
  array_index k = Some i ->
  all_digits k /\ i = digits_value k
  /\ (k = [48] \/ match k with c :: _ => c <> 48 | [] => False end).
Proof.
  unfold array_index. destruct k as [| c r]; [discriminate |].
  destruct (forallb is_digit (c :: r)) eqn:Hd; [| discriminate].
  destruct (N.eqb_spec c 48) as [-> | Hc]; cbn [negb orb andb].
  - destruct r as [| d r]; cbn [List.length Nat.eqb andb]; [| discriminate].
    destruct ((1 <=? 10)%nat && (digits_value [48] <? 4294967295)); [| discriminate].
    intros [= <-]. repeat split; [| now left].
    apply Forall_forall. now apply forallb_forall.
  - destruct ((List.length (c :: r) <=? 10)%nat && (digits_value (c :: r) <? 4294967295));
      [| discriminate].
    intros [= <-]. repeat split; [| now right].
    apply Forall_forall. now apply forallb_forall.
Qed.

(** An array index is the index of one key only. *)
Lemma array_index_inj (k k' : jsstring) (i : N) :
  array_index k = Some i -> array_index k' = Some i -> k = k'.
Proof.
  intros H H'. apply array_index_Some in H as (Hd & -> & Hk).
  apply array_index_Some in H' as (Hd' & Hv & Hk').
  destruct Hk as [-> | Hk], Hk' as [-> | Hk'].
  - reflexivity.
  - exfalso. pose proof (digits_value_positive k' Hd' Hk') as Hpos.
    change (digits_value [48]) with 0 in Hv. lia.
  - exfalso. pose proof (digits_value_positive k Hd Hk) as Hpos.
    change (digits_value [48]) with 0 in Hv. lia.
  - apply digits_value_inj; try assumption.
    + destruct k; [contradiction | assumption].
    + destruct k'; [contradiction | assumption].
Qed.

Lemma has_true_In {A : Type} (l : list (jsstring * A)) (k : jsstring) :
  has l k = true <-> In k (map fst l).
Proof.
  split.
  - intros H. destruct (in_dec (list_eq_dec N.eq_dec) k (map fst l)) as [Hin | Hnin];
      [assumption |].
    apply has_false_not_in in Hnin. congruence.
  - intros Hin. destruct (has l k) eqn:H; [reflexivity |].
    apply has_false_not_in in H. contradiction.
Qed.

Lemma insert_index_keys {A : Type} (l : list (jsstring * A)) (i : N) (k : jsstring) (v : A)
  (x : jsstring) :
  In x (map fst (insert_index l i k v)) <-> x = k \/ In x (map fst l).
Proof.
  induction l as [| [k' v'] l IH]; simpl.
  - intuition.
  - destruct (array_index k') as [j |]; [destruct (j <? i) |]; simpl; rewrite ?IH; intuition.
Qed.

Lemma may_precede_index (k k' : jsstring) (i : N) :
  array_index k' = Some i ->
  may_precede k k' = true -> exists j, array_index k = Some j /\ j < i.
Proof.
  unfold may_precede. intros ->. destruct (array_index k) as [j |]; [| discriminate].
  intros H. apply N.ltb_lt in H. now exists j.
Qed.

Lemma may_precede_last (k k' : jsstring) :
  array_index k' = None -> may_precede k k' = true.
Proof. unfold may_precede. intros ->. now destruct (array_index k). Qed.

(** A new array index is put where the order wants it. *)
Lemma insert_index_ordered {A : Type} (l : list (jsstring * A)) (i : N) (k : jsstring) (v : A) :
  array_index k = Some i -> ~ In k (map fst l) ->
  keys_ordered (map fst l) -> keys_ordered (map fst (insert_index l i k v)).
Proof.
  intros Hk. induction l as [| [k' v'] l IH]; intros Hnin Hord; simpl.
  - split; [constructor | exact I].
  - simpl in Hord. destruct Hord as [Hfirst Hord].
    assert (Hne : k' <> k) by (intros ->; apply Hnin; now left).
    assert (Hnin' : ~ In k (map fst l)) by (intros Hin; apply Hnin; now right).
    destruct (array_index k') as [j |] eqn:Hk'.
    + destruct (N.ltb_spec j i) as [Hlt | Hge]; simpl.
      * split; [| now apply IH].
        apply Forall_forall. intros x Hx. apply insert_index_keys in Hx as [-> | Hx].
        -- unfold may_precede. rewrite Hk', Hk. now apply N.ltb_lt.
        -- rewrite Forall_forall in Hfirst. now apply Hfirst.
      * assert (Hij : i < j).
        { destruct (N.eq_dec i j) as [<- | Hd]; [| lia].
          exfalso. apply Hne. exact (array_index_inj k' k i Hk' Hk). }
        split; [| split; assumption].
        constructor.
        -- unfold may_precede. rewrite Hk, Hk'. now apply N.ltb_lt.
        -- eapply Forall_impl; [| exact Hfirst]. cbv beta. intros x Hx.
           unfold may_precede in *. rewrite Hk. rewrite Hk' in Hx.
           destruct (array_index x) as [m |]; [| reflexivity].
           apply N.ltb_lt in Hx. apply N.ltb_lt. lia.
    + simpl. split; [| split; assumption].
      constructor.
      * unfold may_precede. now rewrite Hk, Hk'.
      * eapply Forall_impl; [| exact Hfirst]. cbv beta. intros x Hx.
        unfold may_precede in *. rewrite Hk. rewrite Hk' in Hx.
        destruct (array_index x) as [m |]; [discriminate | reflexivity].
Qed.

Lemma insert_index_NoDup {A : Type} (l : list (jsstring * A)) (i : N) (k : jsstring) (v : A) :
  ~ In k (map fst l) -> NoDup (map fst l) -> NoDup (map fst (insert_index l i k v)).
Proof.
  induction l as [| [k' v'] l IH]; intros Hnin Hnd; simpl.
  - constructor; [easy | constructor].
  - simpl in Hnd. apply NoDup_cons_iff in Hnd as [Hk' Hnd].
    assert (Hnew : NoDup (k :: k' :: map fst l)).
    { constructor; [exact Hnin | constructor; assumption]. }
    destruct (array_index k') as [j |]; [destruct (j <? i) |]; simpl; try exact Hnew.
    constructor.
    + intros Hin. apply insert_index_keys in Hin as [-> | Hin]; [| contradiction].
      apply Hnin. now left.
    + apply IH; [| assumption]. intros Hin. apply Hnin. now right.
Qed.

Lemma keys_ordered_snoc (ks : list jsstring) (k : jsstring) :
  array_index k = None -> keys_ordered ks -> keys_ordered (ks ++ [k]).
Proof.
  intros Hk. induction ks as [| x ks IH]; simpl; [intros _; split; [constructor | exact I] |].
  intros [Hfirst Hord]. split; [| now apply IH].
  apply Forall_app. split; [assumption |]. constructor; [| constructor].
  now apply may_precede_last.
Qed.

(** Defining a property keeps the keys of the object distinct and in
    order. *)
Lemma CreateDataProperty_own_keys {A : Type} (l : list (jsstring * A)) (k : jsstring) (v : A) :
  own_keys (map fst l) -> own_keys (map fst (CreateDataProperty l k v)).
Proof.
  intros [Hnd Hord]. unfold CreateDataProperty. destruct (has l k) eqn:Hhas.
  - rewrite replace_value_keys. now split.
  - apply has_false_not_in in Hhas.
    destruct (array_index k) as [i |] eqn:Hk.
    + split; [now apply insert_index_NoDup | now apply insert_index_ordered].
    + rewrite map_app. simpl. split; [| now apply keys_ordered_snoc].
      apply NoDup_app; [assumption | constructor; [easy | constructor] |].
      intros x Hx [<- | []]. contradiction.
Qed.

(** Reading a property back after it is defined, and the others. *)
Lemma get_replace_value {A : Type} (l : list (jsstring * A)) (k k' : jsstring) (v : A) :
  get (replace_value l k v) k'
  = if str_eqb k k' then (if has l k then Some v else None) else get l k'.
Proof.
  unfold has. induction l as [| [x v'] l IH]; simpl.
  - now destruct (str_eqb k k').
  - destruct (str_eqb x k) eqn:Hx; simpl.
    + apply str_eqb_eq in Hx. subst x. now destruct (str_eqb k k').
    + rewrite IH. destruct (str_eqb k k') eqn:Hk; [| reflexivity].
      apply str_eqb_eq in Hk. subst k'. now rewrite Hx.
Qed.

Lemma get_insert_index {A : Type} (l : list (jsstring * A)) (i : N) (k k' : jsstring) (v : A) :
  has l k = false ->
  get (insert_index l i k v) k' = if str_eqb k k' then Some v else get l k'.
Proof.
  unfold has. induction l as [| [x v'] l IH]; simpl; [reflexivity |].
  destruct (str_eqb x k) eqn:Hx; [discriminate |]. intros Hl.
  assert (Hkk : str_eqb k k' = true -> str_eqb x k' = false).
  { intros H. apply str_eqb_eq in H. now subst k'. }
  destruct (array_index x) as [j |]; [destruct (j <? i) |]; simpl; try reflexivity.
  rewrite (IH Hl). destruct (str_eqb k k') eqn:Hk; [now rewrite Hkk | reflexivity].
Qed.

Lemma get_app_one {A : Type} (l : list (jsstring * A)) (k k' : jsstring) (v : A) :
  has l k = false ->
  get (l ++ [(k, v)]) k' = if str_eqb k k' then Some v else get l k'.
Proof.
  unfold has. induction l as [| [x v'] l IH]; simpl; [reflexivity |].
  destruct (str_eqb x k) eqn:Hx; [discriminate |]. intros Hl.
  rewrite (IH Hl). destruct (str_eqb k k') eqn:Hk; [| reflexivity].
  apply str_eqb_eq in Hk. subst k'. now rewrite Hx.
Qed.

(** Defining a property and reading it back: after
    [CreateDataProperty(object, k, v)], as [JSON.parse] does for each member
    of an object, the key [k] reads [v], whether it was new or defined
    before, and every other key reads what it read before. *)
Lemma defined_property_is_read_back {A : Type} (l : list (jsstring * A)) (k k' : jsstring)
  (v : A) :
  get (CreateDataProperty l k v) k' = if str_eqb k k' then Some v else get l k'.
Proof.
  unfold CreateDataProperty. destruct (has l k) eqn:Hhas.
  - rewrite get_replace_value, Hhas. reflexivity.
  - destruct (array_index k); [now apply get_insert_index | now apply get_app_one].
Qed.

(** ** Rounding to binary64 *)

Section Rounding.
Open Scope Z_scope.

Lemma pow_up_pos (b e : Z) : 0 < b -> 0 < pow_up b e.
Proof. intros Hb. unfold pow_up. apply Z.pow_pos_nonneg; lia. Qed.

(** [b^x / b^(-x)] is [b^(y - z)] whenever [x = y - z]. *)
Lemma pow_up_ratio (b y z : Z) :
  0 < b -> 0 <= y -> 0 <= z -> b ^ z * pow_up b (y - z) = b ^ y * pow_up b (z - y).
Proof.
  intros Hb Hy Hz. unfold pow_up. destruct (Z.le_ge_cases z y).
  - rewrite (Z.max_l (y - z)), (Z.max_r (z - y)) by lia.
    rewrite <- (Z.pow_add_r b z (y - z)) by lia. rewrite Z.pow_0_r, Z.mul_1_r. f_equal. lia.
  - rewrite (Z.max_r (y - z)), (Z.max_l (z - y)) by lia.
    rewrite <- (Z.pow_add_r b y (z - y)) by lia. rewrite Z.pow_0_r, Z.mul_1_r. f_equal. lia.
Qed.

Lemma pow_up_succ (b e : Z) :
  0 < b -> pow_up b (e + 1) * pow_up b (- e) = b * pow_up b e * pow_up b (- (e + 1)).
Proof.
  intros Hb. unfold pow_up. destruct (Z.le_gt_cases 0 e).
  - rewrite (Z.max_l (e + 1)), (Z.max_l e), (Z.max_r (- e)), (Z.max_r (- (e + 1))) by lia.
    rewrite Z.pow_add_r by lia. rewrite Z.pow_0_r, Z.pow_1_r. ring.
  - rewrite (Z.max_r (e + 1)), (Z.max_r e), (Z.max_l (- e)), (Z.max_l (- (e + 1))) by lia.
    assert (Hk : b ^ (- e) = b ^ (- (e + 1)) * b).
    { rewrite <- (Z.pow_1_r b) at 3. rewrite <- Z.pow_add_r by lia. f_equal. lia. }
    rewrite Hk, Z.pow_0_r. ring.
Qed.

Lemma scaled_div_uniform (num den e : Z) :
  Number.scaled_div num den e
  = (num * pow_up 2 (- e) / (den * pow_up 2 e),
     (num * pow_up 2 (- e)) mod (den * pow_up 2 e),
     den * pow_up 2 e).
Proof.
  unfold Number.scaled_div, pow_up. destruct (Z.leb_spec 0 e).
  - rewrite (Z.max_l e), (Z.max_r (- e)) by lia. now rewrite Z.pow_0_r, Z.mul_1_r.
  - rewrite (Z.max_r e), (Z.max_l (- e)) by lia. now rewrite Z.pow_0_r, Z.mul_1_r.
Qed.

(** The floor of a quotient is the floor of any other way to write it. *)
Lemma div_cross (a b a' b' : Z) : 0 < b -> 0 < b' -> a * b' = a' * b -> a / b = a' / b'.
Proof.
  intros Hb Hb' H.
  rewrite <- (Z.div_mul_cancel_r a b b') by lia.
  rewrite H. rewrite (Z.mul_comm b b'). apply Z.div_mul_cancel_r; lia.
Qed.

Lemma quotient_at_succ (num den e : Z) :
  0 < den -> quotient_at num den (e + 1) = quotient_at num den e / 2.
Proof.
  intros Hden. unfold quotient_at.
  pose proof (pow_up_pos 2 e ltac:(lia)) as H1.
  pose proof (pow_up_pos 2 (e + 1) ltac:(lia)) as H2.
  pose proof (pow_up_pos 2 (- e) ltac:(lia)) as H3.
  pose proof (pow_up_pos 2 (- (e + 1)) ltac:(lia)) as H4.
  pose proof (pow_up_succ 2 e ltac:(lia)) as Hs.
  rewrite Z.div_div by nia.
  apply div_cross; [nia | nia |].
  set (a := pow_up 2 e) in *. set (b := pow_up 2 (e + 1)) in *.
  set (c := pow_up 2 (- e)) in *. set (d := pow_up 2 (- (e + 1))) in *.
  transitivity (num * den * (2 * a * d)); [ring |].
  rewrite <- Hs. ring.
Qed.

Lemma quotient_at_estimate (num den : Z) :
  0 < num -> 0 < den ->
  2 ^ 52 <= quotient_at num den (Z.log2 num - Z.log2 den - 53) < 2 ^ 54.
Proof.
  intros Hnum Hden. unfold quotient_at.
  pose proof (Z.log2_spec num Hnum) as Hn. pose proof (Z.log2_spec den Hden) as Hd.
  pose proof (Z.log2_nonneg num) as Hn0. pose proof (Z.log2_nonneg den) as Hd0.
  unfold Z.succ in Hn, Hd. rewrite Z.pow_add_r in Hn, Hd by lia.
  pose proof (pow_up_ratio 2 (Z.log2 num) (Z.log2 den + 53) ltac:(lia) Hn0 ltac:(lia)) as Hid.
  rewrite Z.pow_add_r in Hid by lia.
  replace (Z.log2 num - (Z.log2 den + 53)) with (Z.log2 num - Z.log2 den - 53) in Hid by lia.
  replace (Z.log2 den + 53 - Z.log2 num) with (- (Z.log2 num - Z.log2 den - 53)) in Hid by lia.
  pose proof (pow_up_pos 2 (Z.log2 num - Z.log2 den - 53) ltac:(lia)) as HU.
  pose proof (pow_up_pos 2 (- (Z.log2 num - Z.log2 den - 53)) ltac:(lia)) as HD.
  set (U := pow_up 2 (Z.log2 num - Z.log2 den - 53)) in *.
  set (D := pow_up 2 (- (Z.log2 num - Z.log2 den - 53))) in *.
  assert (HA : 0 < 2 ^ Z.log2 num) by (apply Z.pow_pos_nonneg; lia).
  assert (HB : 0 < 2 ^ Z.log2 den) by (apply Z.pow_pos_nonneg; lia).
  set (A := 2 ^ Z.log2 num) in *. set (B := 2 ^ Z.log2 den) in *.
  change (2 ^ 1) with 2 in *. change (2 ^ 53) with 9007199254740992 in *.
  change (2 ^ 52) with 4503599627370496. change (2 ^ 54) with 18014398509481984.
  split.
  - apply Z.div_le_lower_bound; [nia |].
    assert (H1 : den * U * 4503599627370496 <= 2 * B * U * 4503599627370496) by nia.
    assert (H2 : A * D <= num * D) by nia.
    nia.
  - apply Z.div_lt_upper_bound; [nia |].
    assert (H1 : num * D < 2 * A * D) by nia.
    assert (H2 : B * U * 18014398509481984 <= den * U * 18014398509481984) by nia.
    nia.
Qed.

Lemma quotient_at_nonneg (num den e : Z) : 0 <= num -> 0 < den -> 0 <= quotient_at num den e.
Proof.
  intros Hnum Hden. unfold quotient_at.
  pose proof (pow_up_pos 2 e ltac:(lia)). pose proof (pow_up_pos 2 (- e) ltac:(lia)).
  apply Z.div_pos; nia.
Qed.

Lemma quotient_at_add (num den e j : Z) :
  0 < den -> 0 <= j -> quotient_at num den (e + j) = quotient_at num den e / 2 ^ j.
Proof.
  intros Hden Hj. revert j Hj. apply natlike_ind.
  - rewrite Z.add_0_r, Z.pow_0_r. now rewrite Z.div_1_r.
  - intros j Hj IH. unfold Z.succ. rewrite Z.add_assoc, quotient_at_succ, IH by assumption.
    rewrite Z.pow_add_r by lia. rewrite Z.div_div; [reflexivity | | lia].
    apply Z.pow_nonzero; lia.
Qed.

Lemma quotient_at_mono (num den e e' : Z) :
  0 <= num -> 0 < den -> e <= e' -> quotient_at num den e' <= quotient_at num den e.
Proof.
  intros Hnum Hden Hle. replace e' with (e + (e' - e)) by lia.
  rewrite quotient_at_add by lia.
  pose proof (quotient_at_nonneg num den e Hnum Hden) as Hq.
  assert (Hp : 0 < 2 ^ (e' - e)) by (apply Z.pow_pos_nonneg; lia).
  apply Z.div_le_upper_bound; [assumption | nia].
Qed.

(** One exponent only gives a quotient of 53 bits. *)
Lemma quotient_at_unique (num den a b : Z) :
  0 < den ->
  2 ^ 52 <= quotient_at num den a < 2 ^ 53 ->
  2 ^ 52 <= quotient_at num den b < 2 ^ 53 -> a = b.
Proof.
  assert (H : forall a b, 0 < den -> a < b ->
            2 ^ 52 <= quotient_at num den a < 2 ^ 53 ->
            2 ^ 52 <= quotient_at num den b < 2 ^ 53 -> False).
  { clear a b. intros a b Hden Hab Ha Hb.
    replace b with (a + (b - a)) in Hb by lia. rewrite quotient_at_add in Hb by lia.
    assert (Hp : 2 ^ 1 <= 2 ^ (b - a)) by (apply Z.pow_le_mono_r; lia).
    change (2 ^ 1) with 2 in Hp.
    assert (Hlt : quotient_at num den a / 2 ^ (b - a) < 2 ^ 52).
    { apply Z.div_lt_upper_bound; [lia |].
      change (2 ^ 52) with 4503599627370496. change (2 ^ 53) with 9007199254740992 in Ha.
      nia. }
    lia. }
  intros Hden Ha Hb. destruct (Z.lt_trichotomy a b) as [Hlt | [Heq | Hgt]].
  - exfalso. exact (H a b Hden Hlt Ha Hb).
  - exact Heq.
  - exfalso. exact (H b a Hden Hgt Hb Ha).
Qed.

Lemma exponent_of_spec (num den : Z) :
  0 < num -> 0 < den -> 2 ^ 52 <= quotient_at num den (exponent_of num den) < 2 ^ 53.
Proof.
  intros Hnum Hden. unfold exponent_of. cbv zeta.
  pose proof (quotient_at_estimate num den Hnum Hden) as Hest.
  destruct (Z.leb_spec (2 ^ 53) (quotient_at num den (Z.log2 num - Z.log2 den - 53))).
  - rewrite quotient_at_succ by assumption.
    change (2 ^ 52) with 4503599627370496 in *. change (2 ^ 53) with 9007199254740992 in *.
    change (2 ^ 54) with 18014398509481984 in *.
    split; [apply Z.div_le_lower_bound; lia | apply Z.div_lt_upper_bound; lia].
  - lia.
Qed.

Lemma nearest_unfold (neg : bool) (num den : Z) :
  Number.nearest neg num den
  = if num =? 0 then Number.Finite neg 0 (-1074)
    else rounded_at neg num den (exponent_of num den).
Proof.
  unfold Number.nearest, rounded_at, exponent_of, quotient_at.
  destruct (num =? 0); [reflexivity |].
  rewrite (scaled_div_uniform num den (Z.log2 num - Z.log2 den - 53)). reflexivity.
Qed.

Lemma quotient_at_scale (c num den e : Z) :
  0 < c -> 0 < den -> quotient_at (c * num) (c * den) e = quotient_at num den e.
Proof.
  intros Hc Hden. unfold quotient_at.
  pose proof (pow_up_pos 2 e ltac:(lia)).
  rewrite <- !Z.mul_assoc. apply Z.div_mul_cancel_l; nia.
Qed.

Lemma round_half_even_scale (c q r d : Z) :
  0 < c -> Number.round_half_even q (c * r) (c * d) = Number.round_half_even q r d.
Proof.
  intros Hc. unfold Number.round_half_even.
  replace (2 * (c * r)) with (c * (2 * r)) by ring.
  now rewrite <- (Zmult_compare_compat_l (2 * r) d c ltac:(lia)).
Qed.

Lemma rounded_at_scale (neg : bool) (c num den e : Z) :
  0 < c -> 0 < den -> rounded_at neg (c * num) (c * den) e = rounded_at neg num den e.
Proof.
  intros Hc Hden. unfold rounded_at. cbv zeta.
  rewrite !scaled_div_uniform.
  pose proof (pow_up_pos 2 (Z.max e (-1074)) ltac:(lia)).
  rewrite <- !Z.mul_assoc.
  rewrite Z.div_mul_cancel_l, Z.mul_mod_distr_l by nia.
  now rewrite round_half_even_scale.
Qed.

(** [nearest] rounds the quotient, not the way it is written. *)
Lemma nearest_scale (neg : bool) (c num den : Z) :
  0 < c -> 0 <= num -> 0 < den ->
  Number.nearest neg (c * num) (c * den) = Number.nearest neg num den.
Proof.
  intros Hc Hnum Hden. rewrite !nearest_unfold.
  destruct (Z.eqb_spec num 0) as [-> | Hne].
  - now rewrite Z.mul_0_r.
  - destruct (Z.eqb_spec (c * num) 0) as [H0 | _]; [nia |].
    rewrite rounded_at_scale by assumption. f_equal.
    apply (quotient_at_unique num den); [assumption | | apply exponent_of_spec; lia].
    rewrite <- (quotient_at_scale c) by assumption. apply exponent_of_spec; nia.
Qed.

Lemma round_half_even_cases (q r d : Z) :
  Number.round_half_even q r d = q \/ Number.round_half_even q r d = q + 1.
Proof.
  unfold Number.round_half_even. destruct (2 * r ?= d); auto. destruct (Z.even q); auto.
Qed.

(** What [nearest] returns is a binary64 value. *)
Lemma nearest_binary64 (neg : bool) (num den : Z) :
  0 <= num -> 0 < den -> binary64 (Number.nearest neg num den).
Proof.
  intros Hnum Hden. rewrite nearest_unfold.
  destruct (Z.eqb_spec num 0) as [-> | Hne]; [cbn; lia |].
  pose proof (exponent_of_spec num den ltac:(lia) Hden) as Hq.
  unfold rounded_at. cbv zeta. rewrite scaled_div_uniform.
  fold (quotient_at num den (Z.max (exponent_of num den) (-1074))).
  set (e2 := exponent_of num den) in *. set (e := Z.max e2 (-1074)).
  set (r := (num * pow_up 2 (- e)) mod (den * pow_up 2 e)).
  set (d := den * pow_up 2 e).
  pose proof (quotient_at_mono num den e2 e Hnum Hden ltac:(lia)) as Hmono.
  pose proof (quotient_at_nonneg num den e Hnum Hden) as Hnn.
  assert (He : e = e2 \/ (e = -1074 /\ e2 < -1074)) by lia.
  assert (Hlow : -1074 <= e) by lia.
  clearbody r d e e2.
  change (2 ^ 52) with 4503599627370496 in *. change (2 ^ 53) with 9007199254740992 in *.
  destruct (round_half_even_cases (quotient_at num den e) r d) as [-> | ->].
  - destruct (Z.eqb_spec (quotient_at num den e) 9007199254740992) as [Hm | Hm]; [lia |].
    destruct (Z.ltb_spec 971 e); [exact I |].
    cbn [binary64]. rewrite Z2N.id by assumption.
    change (2 ^ 52) with 4503599627370496. change (2 ^ 53) with 9007199254740992.
    destruct He as [He | [He1 He2]]; [subst e |]; lia.
  - destruct (Z.eqb_spec (quotient_at num den e + 1) 9007199254740992) as [Hm | Hm].
    + destruct (Z.ltb_spec 971 (e + 1)); [exact I |].
      cbn [binary64]. change (Z.of_N (Z.to_N 4503599627370496)) with 4503599627370496.
      change (2 ^ 52) with 4503599627370496. change (2 ^ 53) with 9007199254740992. lia.
    + destruct (Z.ltb_spec 971 e); [exact I |].
      cbn [binary64]. rewrite Z2N.id by lia.
      change (2 ^ 52) with 4503599627370496. change (2 ^ 53) with 9007199254740992.
      destruct He as [He | [He1 He2]]; [subst e |]; lia.
Qed.

(** The exponent [nearest] rounds at, once the subnormal range is looked
    at, is the one where the quotient has 53 bits, or the smallest. *)
Lemma rounded_exponent (num den e : Z) :
  0 < num -> 0 < den -> -1074 <= e ->
  quotient_at num den e < 2 ^ 53 ->
  2 ^ 52 <= quotient_at num den e \/ e = -1074 ->
  Z.max (exponent_of num den) (-1074) = e.
Proof.
  intros Hnum Hden He Hlt Hge.
  pose proof (exponent_of_spec num den Hnum Hden) as Hspec.
  destruct (Z.le_gt_cases (2 ^ 52) (quotient_at num den e)) as [Hn | Hs].
  - rewrite (quotient_at_unique num den (exponent_of num den) e Hden Hspec (conj Hn Hlt)). lia.
  - destruct Hge as [Hge | ->]; [lia |].
    destruct (Z.le_gt_cases (exponent_of num den) (-1074)) as [Hle | Hgt]; [lia |].
    pose proof (quotient_at_mono num den (-1074) (exponent_of num den)
                  ltac:(lia) Hden ltac:(lia)).
    lia.
Qed.

(** A quotient just above [m], by less than a half, rounds to [m]. *)
Lemma nearest_down (neg : bool) (num den m e : Z) :
  0 < num -> 0 < den -> 0 < m < 2 ^ 53 -> -1074 <= e <= 971 ->
  2 ^ 52 <= m \/ e = -1074 ->
  quotient_at num den e = m ->
  2 * ((num * pow_up 2 (- e)) mod (den * pow_up 2 e)) < den * pow_up 2 e ->
  Number.nearest neg num den = Number.Finite neg (Z.to_N m) e.
Proof.
  intros Hnum Hden Hm He Hn Hq Hr. rewrite nearest_unfold.
  destruct (Z.eqb_spec num 0); [lia |].
  unfold rounded_at. cbv zeta.
  rewrite (rounded_exponent num den e) by (rewrite ?Hq; lia).
  rewrite scaled_div_uniform. fold (quotient_at num den e). rewrite Hq.
  unfold Number.round_half_even.
  apply Z.compare_lt_iff in Hr. rewrite Hr.
  destruct (Z.eqb_spec m (2 ^ 53)); [lia |].
  destruct (Z.ltb_spec 971 e); [lia | reflexivity].
Qed.

(** A quotient just below [m], by less than a half, rounds to [m]. *)
Lemma nearest_up (neg : bool) (num den m e : Z) :
  0 < num -> 0 < den -> 0 < m < 2 ^ 53 -> -1074 <= e <= 971 ->
  2 ^ 52 < m \/ e = -1074 ->
  quotient_at num den e = m - 1 ->
  den * pow_up 2 e < 2 * ((num * pow_up 2 (- e)) mod (den * pow_up 2 e)) ->
  Number.nearest neg num den = Number.Finite neg (Z.to_N m) e.
Proof.
  intros Hnum Hden Hm He Hn Hq Hr. rewrite nearest_unfold.
  destruct (Z.eqb_spec num 0); [lia |].
  unfold rounded_at. cbv zeta.
  rewrite (rounded_exponent num den e) by (rewrite ?Hq; lia).
  rewrite scaled_div_uniform. fold (quotient_at num den e). rewrite Hq.
  unfold Number.round_half_even.
  apply Z.compare_gt_iff in Hr. rewrite Hr.
  replace (m - 1 + 1) with m by lia.
  destruct (Z.eqb_spec m (2 ^ 53)); [lia |].
  destruct (Z.ltb_spec 971 e); [lia | reflexivity].
Qed.

Lemma of_decimal_uniform (neg : bool) (c : N) (scale : Z) :
  Number.of_decimal neg c scale
  = Number.nearest neg (Z.of_N c * pow_up 10 scale) (pow_up 10 (- scale)).
Proof.
  unfold Number.of_decimal, pow_up. destruct (Z.leb_spec 0 scale).
  - rewrite (Z.max_l scale), (Z.max_r (- scale)) by lia. now rewrite Z.pow_0_r.
  - rewrite (Z.max_r scale), (Z.max_l (- scale)) by lia. now rewrite Z.pow_0_r, Z.mul_1_r.
Qed.

Lemma around_uniform (m : N) (e scale : Z) :
  Number.around m e scale
  = (Z.of_N m * pow_up 2 e * pow_up 10 (- scale) / (pow_up 2 (- e) * pow_up 10 scale),
     (Z.of_N m * pow_up 2 e * pow_up 10 (- scale)) mod (pow_up 2 (- e) * pow_up 10 scale),
     pow_up 2 (- e) * pow_up 10 scale).
Proof.
  unfold Number.around, pow_up.
  destruct (Z.leb_spec 0 e), (Z.leb_spec 0 scale);
    repeat match goal with
      | H : 0 <= ?x |- _ =>
          rewrite (Z.max_l x 0), (Z.max_r (- x) 0) by lia; clear H
      | H : ?x < 0 |- _ =>
          rewrite (Z.max_r x 0), (Z.max_l (- x) 0) by lia; clear H
      end;
    now rewrite ?Z.pow_0_r, ?Z.mul_1_r, ?Z.mul_1_l.
Qed.

(** With a step of the decimals below the step of the binary64 values
    (and below half of it at a power of two), one of the two decimals
    around a value rounds back to it. *)
Lemma one_of_two_rounds_back (m e T T' : Z) :
  0 < m < 2 ^ 53 -> -1074 <= e <= 971 -> 2 ^ 52 <= m \/ e = -1074 ->
  0 < T -> 0 < T' ->
  10 ^ 16 * (pow_up 2 (- e) * T) <= m * pow_up 2 e * T' ->
  let lo := m * pow_up 2 e * T' / (pow_up 2 (- e) * T) in
  Number.nearest false (lo * T) T' = Number.Finite false (Z.to_N m) e
  \/ Number.nearest false ((lo + 1) * T) T' = Number.Finite false (Z.to_N m) e.
Proof.
  intros Hm He Hn HT HT' H16 lo.
  pose proof (pow_up_pos 2 e ltac:(lia)) as HU.
  pose proof (pow_up_pos 2 (- e) ltac:(lia)) as HD.
  set (U := pow_up 2 e) in *. set (D := pow_up 2 (- e)) in *.
  assert (HY : 0 < D * T) by nia. assert (HZ : 0 < T' * U) by nia.
  pose proof (Z.div_mod (m * U * T') (D * T) ltac:(lia)) as Hdm.
  pose proof (Z.mod_pos_bound (m * U * T') (D * T) HY) as Ha.
  fold lo in Hdm. set (a := (m * U * T') mod (D * T)) in *.
  change (10 ^ 16) with 10000000000000000 in H16.
  change (2 ^ 53) with 9007199254740992 in *. change (2 ^ 52) with 4503599627370496 in *.
  assert (Hlo : 10000000000000000 <= lo).
  { unfold lo. apply Z.div_le_lower_bound; [assumption | lia]. }
  assert (HXZ : m * U * T' = m * (T' * U)) by ring.
  remember (D * T) as Y eqn:EY. remember (T' * U) as Z0 eqn:EZ.
  assert (HYZ : Y < Z0) by nia.
  assert (Hbound : m = 4503599627370496 -> 2 * Y < Z0) by (intros ->; lia).
  assert (Hnum : forall c, c * T * pow_up 2 (- e) = c * Y) by (intros c; subst Y D; ring).
  clearbody lo a.
  destruct (Z.lt_ge_cases (2 * (Y - a)) Z0) as [Hb | Hb].
  - right. apply nearest_down; try lia; try nia.
    + unfold quotient_at. rewrite Hnum. fold U. rewrite <- EZ. symmetry.
      apply (Z.div_unique _ _ _ (Y - a)); lia.
    + rewrite Hnum. fold U. rewrite <- EZ.
      rewrite <- (Z.mod_unique ((lo + 1) * Y) Z0 m (Y - a)); lia.
  - left. assert (Hnb : m <> 4503599627370496) by (intros Heq; specialize (Hbound Heq); lia).
    destruct (Z.eq_dec a 0) as [Ha0 | Ha0].
    + apply nearest_down; try lia; try nia.
      * unfold quotient_at. rewrite Hnum. fold U. rewrite <- EZ. symmetry.
        apply (Z.div_unique _ _ _ 0); lia.
      * rewrite Hnum. fold U. rewrite <- EZ.
        rewrite <- (Z.mod_unique (lo * Y) Z0 m 0); lia.
    + apply nearest_up; try lia; try nia.
      * unfold quotient_at. rewrite Hnum. fold U. rewrite <- EZ. symmetry.
        apply (Z.div_unique _ _ _ (Z0 - a)); lia.
      * rewrite Hnum. fold U. rewrite <- EZ.
        rewrite <- (Z.mod_unique (lo * Y) Z0 (m - 1) (Z0 - a)); lia.
Qed.

(** ** Number::toString finds digits that read back *)

Lemma pow_up_shift (b a j : Z) :
  0 < b -> 0 <= j ->
  pow_up b (a + j) * pow_up b (- a) = b ^ j * pow_up b a * pow_up b (- (a + j)).
Proof.
  intros Hb Hj. revert j Hj. apply natlike_ind.
  - rewrite Z.add_0_r, Z.pow_0_r. ring.
  - intros j Hj IH. unfold Z.succ. rewrite Z.pow_add_r, Z.pow_1_r by lia.
    pose proof (pow_up_succ b (a + j) Hb) as Hs.
    pose proof (pow_up_pos b (- (a + j)) Hb) as Hp.
    rewrite Z.add_assoc.
    apply (Z.mul_reg_r _ _ (pow_up b (- (a + j)))); [lia |].
    transitivity (pow_up b (a + j + 1) * pow_up b (- (a + j)) * pow_up b (- a)); [ring |].
    rewrite Hs.
    transitivity (b * pow_up b (- (a + j + 1)) * (pow_up b (a + j) * pow_up b (- a)));
      [ring |].
    rewrite IH. ring.
Qed.

Lemma below_pow10_uniform (m : N) (e n : Z) :
  Number.below_pow10 m e n
  = (Z.of_N m * pow_up 2 e * pow_up 10 (- n) <? pow_up 2 (- e) * pow_up 10 n).
Proof.
  unfold Number.below_pow10, pow_up.
  destruct (Z.leb_spec 0 e), (Z.leb_spec 0 n);
    repeat match goal with
      | H : 0 <= ?x |- _ =>
          rewrite (Z.max_l x 0), (Z.max_r (- x) 0) by lia; clear H
      | H : ?x < 0 |- _ =>
          rewrite (Z.max_r x 0), (Z.max_l (- x) 0) by lia; clear H
      end;
    now rewrite ?Z.pow_0_r, ?Z.mul_1_r, ?Z.mul_1_l.
Qed.

Lemma magnitude_lower (f : nat) (m : N) (e : Z) :
  forall n0, Number.magnitude f m e n0 = n0
             \/ Number.below_pow10 m e (Number.magnitude f m e n0 - 1) = false.
Proof.
  induction f as [| f IH]; intros n0; simpl; [now left |].
  destruct (Number.below_pow10 m e n0) eqn:Hb; [now left |].
  right. destruct (IH (n0 + 1)) as [-> | H]; [| exact H].
  now replace (n0 + 1 - 1) with n0 by lia.
Qed.

(** The smallest positive value is above [10^-324]. *)
Lemma below_pow10_far (m : N) (e : Z) :
  0 < Z.of_N m -> -1074 <= e -> Number.below_pow10 m e (-324) = false.
Proof.
  intros Hm He. rewrite below_pow10_uniform. apply Z.ltb_ge.
  pose proof (pow_up_pos 2 e ltac:(lia)) as HU.
  assert (HD : pow_up 2 (- e) <= 2 ^ 1074).
  { unfold pow_up. apply Z.pow_le_mono_r; lia. }
  change (pow_up 10 (-324)) with 1. rewrite Z.mul_1_r.
  assert (Hbig : 2 ^ 1074 <= pow_up 10 (- -324)) by (vm_compute; discriminate).
  set (A := pow_up 10 (- -324)) in *. set (B := 2 ^ 1074) in *. clearbody A B.
  assert (H1 : 1 <= Z.of_N m * pow_up 2 e) by nia.
  pose proof (pow_up_pos 2 (- e) ltac:(lia)) as HD0.
  assert (H2 : 0 <= A) by lia.
  nia.
Qed.

(** The first sixteen digits of a value are below it: with seventeen
    digits, the integer part of the scaled value is at least [10^16]. *)
Lemma sixteen_digits (m : N) (e : Z) :
  0 < Z.of_N m -> -1074 <= e ->
  let scale := Number.magnitude 640 m e (-323) - 17 in
  10 ^ 16 * (pow_up 2 (- e) * pow_up 10 scale)
  <= Z.of_N m * pow_up 2 e * pow_up 10 (- scale).
Proof.
  intros Hm He. cbv zeta.
  pose proof (magnitude_lower 640 m e (-323)) as Hn.
  revert Hn. generalize (Number.magnitude 640 m e (-323)). intros n Hn.
  assert (Hb : Number.below_pow10 m e (n - 1) = false).
  { destruct Hn as [-> | H]; [now apply below_pow10_far | exact H]. }
  clear Hn. replace (n - 1) with (n - 17 + 16) in Hb by lia.
  revert Hb. generalize (n - 17). clear n. intros scale Hb.
  rewrite below_pow10_uniform in Hb. apply Z.ltb_ge in Hb.
  pose proof (pow_up_shift 10 scale 16 ltac:(lia) ltac:(lia)) as Hid.
  pose proof (pow_up_pos 2 e ltac:(lia)) as HU.
  pose proof (pow_up_pos 2 (- e) ltac:(lia)) as HD.
  pose proof (pow_up_pos 10 scale ltac:(lia)) as HT.
  pose proof (pow_up_pos 10 (- scale) ltac:(lia)) as HT'.
  pose proof (pow_up_pos 10 (scale + 16) ltac:(lia)) as HA1.
  pose proof (pow_up_pos 10 (- (scale + 16)) ltac:(lia)) as HA2.
  set (U := pow_up 2 e) in *. set (D := pow_up 2 (- e)) in *.
  set (T := pow_up 10 scale) in *. set (T' := pow_up 10 (- scale)) in *.
  set (A1 := pow_up 10 (scale + 16)) in *. set (A2 := pow_up 10 (- (scale + 16))) in *.
  change (10 ^ 16) with 10000000000000000 in *.
  clearbody U D T T' A1 A2.
  apply (Z.mul_le_mono_pos_r _ _ A2 HA2).
  transitivity (D * (10000000000000000 * T * A2)); [apply Z.eq_le_incl; ring |].
  rewrite <- Hid.
  transitivity (D * A1 * T'); [apply Z.eq_le_incl; ring |].
  transitivity (Z.of_N m * U * A2 * T'); [| apply Z.eq_le_incl; ring].
  apply Z.mul_le_mono_pos_r; assumption.
Qed.

Lemma Number_eqb_eq (a b : Number.number) : Number.eqb a b = true -> a = b.
Proof.
  destruct a as [| s | s m e], b as [| t | t m' e']; simpl; try discriminate.
  - reflexivity.
  - intros H. apply eqb_prop in H. now subst.
  - intros H. apply andb_true_iff in H as [H He]. apply andb_true_iff in H as [Hs Hm].
    apply eqb_prop in Hs. apply N.eqb_eq in Hm. apply Z.eqb_eq in He. now subst.
Qed.

Lemma shortest_S (f : nat) (m : N) (e n k : Z) :
  Number.shortest (S f) m e n k
  = let scale := n - k in
    let '(lo, r, d) := Number.around m e scale in
    let back c :=
      Number.eqb (Number.of_decimal false (Z.to_N c) scale) (Number.Finite false m e) in
    match back lo, back (lo + 1) with
    | true, true => (Number.round_half_even lo r d, scale)
    | true, false => (lo, scale)
    | false, true => (lo + 1, scale)
    | false, false => Number.shortest f m e n (k + 1)
    end.
Proof. reflexivity. Qed.

(** Seventeen digits are enough: the search of Number::toString ends on
    digits whose Number value is the value itself. *)
Lemma shortest_reads_back (m : N) (e : Z) :
  binary64 (Number.Finite false m e) -> 0 < Z.of_N m ->
  let n := Number.magnitude 640 m e (-323) in
  forall (f : nat) (k : Z), (1 <= f)%nat -> k + Z.of_nat f = 18 ->
    Number.of_decimal false (Z.to_N (fst (Number.shortest f m e n k)))
      (snd (Number.shortest f m e n k))
    = Number.Finite false m e.
Proof.
  intros Hx Hm n. cbn [binary64] in Hx.
  induction f as [| f IH]; intros k Hf Hk; [lia |].
  rewrite shortest_S. cbv zeta.
  pose proof (around_uniform m e (n - k)) as Har.
  destruct (Number.around m e (n - k)) as [[lo r] d].
  injection Har as Hlo _ _.
  destruct (Number.eqb (Number.of_decimal false (Z.to_N lo) (n - k)) (Number.Finite false m e))
    eqn:B1;
    destruct (Number.eqb (Number.of_decimal false (Z.to_N (lo + 1)) (n - k))
                (Number.Finite false m e)) eqn:B2; cbn [fst snd].
  - apply Number_eqb_eq in B1, B2.
    destruct (round_half_even_cases lo r d) as [-> | ->]; assumption.
  - now apply Number_eqb_eq in B1.
  - now apply Number_eqb_eq in B2.
  - destruct f as [| f].
    + exfalso. assert (k = 17) by lia. subst k.
      pose proof (sixteen_digits m e Hm ltac:(lia)) as H16. cbv zeta in H16. fold n in H16.
      pose proof (pow_up_pos 10 (n - 17) ltac:(lia)) as HT.
      pose proof (pow_up_pos 10 (- (n - 17)) ltac:(lia)) as HT'.
      pose proof (pow_up_pos 2 e ltac:(lia)) as HU.
      pose proof (pow_up_pos 2 (- e) ltac:(lia)) as HD.
      assert (Hlo0 : 0 <= lo).
      { rewrite Hlo. apply Z.div_pos; nia. }
      pose proof (one_of_two_rounds_back (Z.of_N m) e (pow_up 10 (n - 17))
                    (pow_up 10 (- (n - 17))) ltac:(lia) ltac:(lia) ltac:(lia) HT HT' H16)
        as Hone.
      cbv zeta in Hone. rewrite <- Hlo in Hone. rewrite N2Z.id in Hone.
      rewrite !of_decimal_uniform in B1, B2.
      rewrite !Z2N.id in B1, B2 by lia.
      destruct Hone as [H1 | H1]; [rewrite H1 in B1 | rewrite H1 in B2];
        cbn [Number.eqb Bool.eqb andb] in *; rewrite N.eqb_refl, Z.eqb_refl in *;
        discriminate.
    + apply IH; lia.
Qed.

Lemma nearest_cross (neg : bool) (a b a' b' : Z) :
  0 <= a -> 0 < b -> 0 <= a' -> 0 < b' -> a * b' = a' * b ->
  Number.nearest neg a b = Number.nearest neg a' b'.
Proof.
  intros Ha Hb Ha' Hb' H.
  rewrite <- (nearest_scale neg b' a b Hb' Ha Hb).
  rewrite <- (nearest_scale neg b a' b' Hb Ha' Hb').
  f_equal; lia.
Qed.

Lemma nearest_sign (neg : bool) (num den : Z) (m : N) (e : Z) :
  Number.nearest false num den = Number.Finite false m e ->
  Number.nearest neg num den = Number.Finite neg m e.
Proof.
  rewrite !nearest_unfold. destruct (num =? 0); [now intros [= <- <-] |].
  unfold rounded_at. cbv zeta.
  destruct (Number.scaled_div num den (Z.max (exponent_of num den) (-1074))) as [[q r] d].
  destruct (Number.round_half_even q r d =? 2 ^ 53).
  - destruct (971 <? Z.max (exponent_of num den) (-1074) + 1); [discriminate |].
    now intros [= <- <-].
  - destruct (971 <? Z.max (exponent_of num den) (-1074)); [discriminate |].
    now intros [= <- <-].
Qed.

(** Ten times the digits, one less in the exponent: the same Number. *)
Lemma of_decimal_strip (neg : bool) (s scale : Z) :
  0 < s -> s mod 10 = 0 ->
  Number.of_decimal neg (Z.to_N (s / 10)) (scale + 1)
  = Number.of_decimal neg (Z.to_N s) scale.
Proof.
  intros Hs Hmod. rewrite !of_decimal_uniform.
  pose proof (Z.div_mod s 10 ltac:(lia)) as Hdm. rewrite Hmod, Z.add_0_r in Hdm.
  assert (Hq : 0 < s / 10) by lia.
  rewrite !Z2N.id by lia.
  pose proof (pow_up_succ 10 scale ltac:(lia)) as Hsucc.
  pose proof (pow_up_pos 10 scale ltac:(lia)).
  pose proof (pow_up_pos 10 (scale + 1) ltac:(lia)).
  pose proof (pow_up_pos 10 (- scale) ltac:(lia)).
  pose proof (pow_up_pos 10 (- (scale + 1)) ltac:(lia)).
  apply nearest_cross; nia.
Qed.

Lemma strip_zeros_reads_back (neg : bool) (f : nat) :
  forall s scale, 0 < s ->
    0 < fst (Number.strip_zeros f s scale)
    /\ Number.of_decimal neg (Z.to_N (fst (Number.strip_zeros f s scale)))
         (snd (Number.strip_zeros f s scale))
       = Number.of_decimal neg (Z.to_N s) scale.
Proof.
  induction f as [| f IH]; intros s scale Hs; simpl; [now split |].
  destruct (Z.eqb_spec (s mod 10) 0) as [Hmod | Hmod]; cbn [andb]; [| now split].
  destruct (Z.eqb_spec s 0); [lia |]. cbn [negb].
  pose proof (Z.div_mod s 10 ltac:(lia)) as Hdm. rewrite Hmod, Z.add_0_r in Hdm.
  destruct (IH (s / 10) (scale + 1) ltac:(lia)) as [Hpos Hval].
  split; [assumption |]. rewrite Hval. now apply of_decimal_strip.
Qed.

Lemma of_decimal_zero (neg : bool) (scale : Z) :
  Number.of_decimal neg 0 scale = Number.Finite neg 0 (-1074).
Proof. rewrite of_decimal_uniform, nearest_unfold. reflexivity. Qed.

(** The digits and the exponent of Number::toString denote the value. *)
Lemma digits_and_exponent_reads_back (neg : bool) (m : N) (e : Z) :
  binary64 (Number.Finite false m e) -> 0 < Z.of_N m ->
  Number.of_decimal neg (Npos (fst (Number.digits_and_exponent m e)))
    (snd (Number.digits_and_exponent m e)
     - Z.of_nat (List.length (decimal (Npos (fst (Number.digits_and_exponent m e))))))
  = Number.Finite neg m e.
Proof.
  intros Hx Hm. unfold Number.digits_and_exponent.
  pose proof (shortest_reads_back m e Hx Hm 17%nat 1 ltac:(lia) ltac:(lia)) as Hback.
  cbv zeta in Hback.
  destruct (Number.shortest 17 m e (Number.magnitude 640 m e (-323)) 1) as [s scale].
  cbn [fst snd] in Hback.
  assert (Hs : 0 < s).
  { destruct (Z.lt_ge_cases 0 s) as [H | H]; [assumption |]. exfalso.
    replace (Z.to_N s) with 0%N in Hback by (destruct s; simpl; lia).
    rewrite of_decimal_zero in Hback. injection Hback as <-. lia. }
  destruct (strip_zeros_reads_back false 20 s scale Hs) as [Hpos Hval].
  destruct (Number.strip_zeros 20 s scale) as [s' scale']. cbn [fst snd] in *.
  replace (Z.of_nat (Datatypes.length (decimal (N.pos (Z.to_pos s')))) + scale'
           - Z.of_nat (Datatypes.length (decimal (N.pos (Z.to_pos s')))))
    with scale' by lia.
  replace (N.pos (Z.to_pos s')) with (Z.to_N s') by (destruct s'; simpl; lia).
  rewrite Hback in Hval. rewrite !of_decimal_uniform in *. now apply nearest_sign.
Qed.
End Rounding.

(** ** The text of a number denotes the number *)

Lemma digits_value_from (b : jsstring) (acc : N) :
  fold_left (fun a c => 10 * a + (c - 48)) b acc
  = acc * 10 ^ N.of_nat (List.length b) + digits_value b.
Proof.
  unfold digits_value. revert acc. induction b as [| c b IH]; intros acc.
  - simpl. lia.
  - cbn [fold_left List.length]. rewrite IH, (IH (10 * 0 + (c - 48))).
    rewrite Nat2N.inj_succ, N.pow_succ_r'. lia.
Qed.

Lemma digits_value_app (a b : jsstring) :
  digits_value (a ++ b) = digits_value a * 10 ^ N.of_nat (List.length b) + digits_value b.
Proof. unfold digits_value at 1. rewrite fold_left_app. apply digits_value_from. Qed.

Lemma digits_value_cons (c : N) (b : jsstring) :
  digits_value (c :: b) = (c - 48) * 10 ^ N.of_nat (List.length b) + digits_value b.
Proof. apply (digits_value_app [c] b). Qed.

Lemma digits_fuel_value (f : nat) :
  forall n acc, n < 10 ^ N.of_nat f ->
    digits_value (digits_fuel f n acc)
    = n * 10 ^ N.of_nat (List.length acc) + digits_value acc.
Proof.
  induction f as [| f IH]; intros n acc Hn.
  - change (10 ^ N.of_nat 0) with 1 in Hn. assert (n = 0) by lia. subst n. simpl. lia.
  - rewrite Nat2N.inj_succ, N.pow_succ_r' in Hn.
    change (digits_fuel (S f) n acc)
      with (if n / 10 =? 0 then (48 + n mod 10) :: acc
            else digits_fuel f (n / 10) ((48 + n mod 10) :: acc)).
    pose proof (N.div_mod n 10 ltac:(easy)) as Hdm.
    pose proof (N.mod_upper_bound n 10 ltac:(easy)) as Hr.
    assert (Hq : n / 10 < 10 ^ N.of_nat f) by (apply N.Div0.div_lt_upper_bound; lia).
    destruct (N.eqb_spec (n / 10) 0) as [H0 | H0].
    + rewrite digits_value_cons, (N.add_comm 48), N.add_sub. rewrite H0 in Hdm.
      simpl in Hdm. now rewrite <- Hdm.
    + rewrite (IH (n / 10) _ Hq), digits_value_cons. cbn [List.length].
      rewrite Nat2N.inj_succ, N.pow_succ_r', (N.add_comm 48), N.add_sub.
      rewrite Hdm at 3.
      generalize (n mod 10) (n / 10) (10 ^ N.of_nat (List.length acc)).
      intros r q t. lia.
Qed.

(** The decimal numeral of a number denotes the number. *)
Lemma digits_value_decimal (n : N) : digits_value (decimal n) = n.
Proof.
  unfold decimal. rewrite digits_fuel_value.
  - simpl. change (digits_value []) with 0. lia.
  - rewrite Nat2N.inj_succ, N2Nat.id.
    destruct (N.eq_dec n 0) as [-> | Hn]; [reflexivity |].
    destruct (N.log2_spec n ltac:(lia)) as [_ Hlt].
    eapply N.lt_le_trans; [exact Hlt |].
    apply N.pow_le_mono_l; lia.
Qed.

Lemma digits_value_zeros (j : Z) : digits_value (Number.zeros j) = 0.
Proof.
  unfold Number.zeros. induction (Z.to_nat j) as [| k IH]; [reflexivity |].
  cbn [repeat]. rewrite digits_value_cons, IH. reflexivity.
Qed.

Lemma zeros_length (j : Z) : (0 <= j)%Z -> Z.of_nat (List.length (Number.zeros j)) = j.
Proof. intros Hj. unfold Number.zeros. rewrite repeat_length. lia. Qed.

(** The text Number::toString lays out for the digits [p] and the
    exponent [n] is a JSON number, and it denotes [p * 10^(n - k)], [k] the
    number of digits. *)
Lemma format_value (p : positive) (n : Z) :
  exists int frac ex,
    Number.format p n = int ++ frac_part frac ++ exp_part ex
    /\ valid_int int /\ all_digits frac /\ valid_exp ex
    /\ forall neg,
         Number.of_decimal neg (digits_value (int ++ frac))
           (exp_value ex - Z.of_nat (List.length frac))
         = Number.of_decimal neg (Npos p)
             (n - Z.of_nat (List.length (decimal (Npos p)))).
Proof.
  unfold Number.format.
  pose proof (digits_value_decimal (Npos p)) as Hval.
  destruct (decimal_leading (Npos p) ltac:(lia)) as (d & ds & Hdec & Hnz & Hd).
  rewrite Hdec in *. set (k := Z.of_nat (List.length (d :: ds))).
  destruct ((k <=? n)%Z && (n <=? 21)%Z) eqn:Ha.
  { apply andb_true_iff in Ha as [Ha1 Ha2]. apply Z.leb_le in Ha1.
    exists (d :: ds ++ Number.zeros (n - k)), [], None. repeat split.
    - simpl. now rewrite app_nil_r.
    - right. exists d, (ds ++ Number.zeros (n - k)). repeat split; [assumption |].
      change (all_digits ((d :: ds) ++ Number.zeros (n - k))).
      apply all_digits_app; [assumption | apply all_digits_zeros].
    - constructor.
    - intros neg. rewrite app_nil_r.
      change (d :: ds ++ Number.zeros (n - k)) with ((d :: ds) ++ Number.zeros (n - k)).
      rewrite digits_value_app, Hval, digits_value_zeros, N.add_0_r.
      cbn [exp_value List.length]. rewrite !of_decimal_uniform.
      f_equal.
      + rewrite N2Z.inj_mul, N2Z.inj_pow, nat_N_Z, zeros_length by lia.
        change (pow_up 10 (0 - Z.of_nat 0)) with 1%Z. unfold pow_up.
        rewrite (Z.max_l (n - k)) by lia. change (Z.of_N 10) with 10%Z. ring.
      + change (pow_up 10 (- (0 - Z.of_nat 0))) with 1%Z. unfold pow_up.
        rewrite (Z.max_r (- (n - k))) by lia. reflexivity. }
  destruct ((0 <? n)%Z && (n <=? 21)%Z) eqn:Hb.
  { apply andb_false_iff in Ha. apply andb_true_iff in Hb as [Hb1 Hb2].
    apply Z.ltb_lt in Hb1. rewrite Hb2 in Ha.
    assert (Hk : (n < k)%Z) by (destruct Ha as [Ha | Ha]; [apply Z.leb_gt in Ha; lia | discriminate]).
    destruct (Z.to_nat n) as [| j] eqn:Hj; [lia |].
    assert (Hlen : (j < List.length ds)%nat) by (subst k; simpl List.length in Hk; lia).
    exists (d :: firstn j ds), (skipn j ds), None.
    assert (Hsk : skipn j ds <> []).
    { intros Hnil. pose proof (f_equal (@List.length N) Hnil) as Hl.
      rewrite length_skipn in Hl. simpl in Hl. lia. }
    assert (Hparts : all_digits (firstn j ds) /\ all_digits (skipn j ds)).
    { apply all_digits_tail in Hd. rewrite <- (firstn_skipn j ds) in Hd.
      now apply Forall_app in Hd. }
    destruct Hparts as [Hfi Hsn].
    repeat split.
    - simpl. destruct (skipn j ds) eqn:Hs; [congruence |]. simpl. now rewrite app_nil_r.
    - right. exists d, (firstn j ds). repeat split; [assumption |].
      constructor; [now apply all_digits_head in Hd | assumption].
    - assumption.
    - intros neg. change ((d :: firstn j ds) ++ skipn j ds) with (d :: firstn j ds ++ skipn j ds).
      rewrite firstn_skipn, Hval. f_equal. cbn [exp_value]. rewrite length_skipn.
      subst k. cbn [List.length]. lia. }
  destruct ((-6 <? n)%Z && (n <=? 0)%Z) eqn:Hc.
  { apply andb_true_iff in Hc as [Hc1 Hc2]. apply Z.leb_le in Hc2.
    exists [48], (Number.zeros (- n) ++ d :: ds), None. repeat split.
    - destruct (Number.zeros (- n) ++ d :: ds) eqn:Hz.
      + destruct (Number.zeros (- n)); discriminate.
      + simpl. rewrite app_nil_r. reflexivity.
    - now left.
    - apply all_digits_app; [apply all_digits_zeros | assumption].
    - intros neg. cbn [app]. rewrite digits_value_cons, digits_value_app, digits_value_zeros.
      rewrite Hval. f_equal. cbn [exp_value]. rewrite length_app, Nat2Z.inj_add, zeros_length by lia.
      fold k. lia. }
  set (x := (n - 1)%Z).
  pose proof (digits_value_decimal (Z.to_N (Z.abs x))) as Hxval.
  destruct (decimal_digits (Z.to_N (Z.abs x))) as (e & es & He & Hes).
  rewrite He in *.
  assert (Hex : exists sg, js (if (0 <=? x)%Z then "e+" else "e-") = [101; sg]
                           /\ (sg = 43 \/ sg = 45)
                           /\ exp_value (Some (sg, e :: es)) = x).
  { destruct (Z.leb_spec 0 x); [exists 43 | exists 45]; (split; [reflexivity |]);
      (split; [auto |]); cbn [exp_value]; rewrite Hxval; simpl; lia. }
  destruct Hex as (sg & -> & Hsg & Hxv).
  assert (Hone : valid_int [d]).
  { right. exists d, []. repeat split; [assumption |].
    constructor; [now apply all_digits_head in Hd | constructor]. }
  assert (Hexp : valid_exp (Some (sg, e :: es))).
  { split; [assumption | split; [discriminate | assumption]]. }
  destruct ds as [| d2 ds].
  - exists [d], [], (Some (sg, e :: es)).
    split; [reflexivity | split; [assumption | split; [constructor | split; [assumption |]]]].
    intros neg. rewrite Hxv, app_nil_r, Hval. f_equal. subst k x. cbn [List.length]. lia.
  - exists [d], (d2 :: ds), (Some (sg, e :: es)).
    split; [| split; [assumption | split; [now apply all_digits_tail in Hd | split; [assumption |]]]].
    + simpl. reflexivity.
    + intros neg. rewrite Hxv. change ([d] ++ d2 :: ds) with (d :: d2 :: ds). rewrite Hval.
      f_equal. subst k x. cbn [List.length]. lia.
Qed.

Lemma of_decimal_sign (neg : bool) (c : N) (scale : Z) (m : N) (e : Z) :
  Number.of_decimal false c scale = Number.Finite false m e ->
  Number.of_decimal neg c scale = Number.Finite neg m e.
Proof. rewrite !of_decimal_uniform. apply nearest_sign. Qed.

(** Number::toString and StringToNumber round-trip: the text of a finite
    binary64 value other than zero is read back as the value. *)
Lemma to_string_reads_back (neg : bool) (m : N) (e : Z) (rest : jsstring) :
  binary64 (Number.Finite neg m e) -> m <> 0 -> delimited rest ->
  parse_number (Number.to_string (Number.Finite neg m e) ++ rest)
  = Some (Number.Finite neg m e, rest).
Proof.
  intros Hx Hm Hr. unfold Number.to_string.
  apply N.eqb_neq in Hm. rewrite Hm. apply N.eqb_neq in Hm.
  pose proof (digits_and_exponent_reads_back neg m e Hx ltac:(lia)) as Hback.
  destruct (Number.digits_and_exponent m e) as [p n]. cbn [fst snd] in Hback.
  destruct (format_value p n) as (int & frac & ex & -> & Hi & Hf & Hex & Hval).
  rewrite <- Hback, <- (Hval neg).
  rewrite <- (parse_number_shape neg int frac ex rest Hi Hf Hex Hr).
  f_equal. now rewrite <- !app_assoc.
Qed.

(** ** What [JSON.parse] builds, and what the proxy makes of it *)

Lemma parse_number_binary64 (s : jsstring) (x : Number.number) (rest : jsstring) :
  parse_number s = Some (x, rest) -> binary64 x.
Proof.
  assert (H : forall neg s, parse_unsigned neg s = Some (x, rest) -> binary64 x).
  { intros neg t. unfold parse_unsigned.
    destruct (scan_int t) as [[int s2] |]; [| discriminate].
    destruct (scan_frac s2) as [[frac s3] |]; [| discriminate].
    destruct (scan_exp s3) as [[ex s4] |]; [| discriminate].
    intros [= <- _]. rewrite of_decimal_uniform.
    apply nearest_binary64.
    - pose proof (pow_up_pos 10 (ex - Z.of_nat (List.length frac)) ltac:(lia)). nia.
    - apply pow_up_pos. lia. }
  unfold parse_number. destruct s as [| c r]; [discriminate |].
  destruct (c =? 45); apply H.
Qed.

Lemma parse_literal_parsed (s : jsstring) (v : json) (rest : jsstring) :
  parse_literal s = Some (v, rest) -> parsed v.
Proof.
  unfold parse_literal.
  destruct (strip_prefix (js "true") s); [intros [= <- _]; constructor |].
  destruct (strip_prefix (js "false") s); [intros [= <- _]; constructor |].
  destruct (strip_prefix (js "null") s); [intros [= <- _]; constructor |].
  destruct (parse_number s) as [[x r] |] eqn:Hn; [| discriminate].
  intros [= <- _]. constructor. exact (parse_number_binary64 s x r Hn).
Qed.

Lemma insert_index_Forall {A : Type} (P : jsstring * A -> Prop) (l : list (jsstring * A))
  (i : N) (k : jsstring) (v : A) :
  Forall P l -> P (k, v) -> Forall P (insert_index l i k v).
Proof.
  intros Hl Hkv. induction Hl as [| [k' v'] l Hx Hl IH]; simpl; [now constructor |].
  destruct (array_index k') as [j |]; [destruct (j <? i) |];
    repeat (constructor; try assumption).
Qed.

Lemma CreateDataProperty_Forall {A : Type} (P : jsstring * A -> Prop)
  (l : list (jsstring * A)) (k : jsstring) (v : A) :
  Forall P l -> P (k, v) -> Forall P (CreateDataProperty l k v).
Proof.
  intros Hl Hkv. unfold CreateDataProperty. destruct (has l k).
  - now apply replace_value_Forall.
  - destruct (array_index k); [now apply insert_index_Forall |].
    apply Forall_app. split; [assumption | now constructor].
Qed.

Lemma parsed_define (acc : list (jsstring * json)) (k : jsstring) (v : json) :
  parsed (JObject acc) -> parsed v -> parsed (JObject (CreateDataProperty acc k v)).
Proof.
  intros Hacc Hv. inversion Hacc as [| | | | | l Hkeys Hvals]; subst. constructor.
  - now apply CreateDataProperty_own_keys.
  - now apply CreateDataProperty_Forall.
Qed.

Lemma parse_builds_parsed (f : nat) :
  (forall s v rest, parse_value f s = Some (v, rest) -> parsed v)
  /\ (forall s acc v rest,
         parse_elements f s acc = Some (v, rest) -> Forall parsed acc -> parsed v)
  /\ (forall s acc v rest,
         parse_members f s acc = Some (v, rest) -> parsed (JObject acc) -> parsed v).
Proof.
  induction f as [| f (IHv & IHe & IHm)]; [repeat split; discriminate |].
  split; [| split].
  - intros s v rest. rewrite parse_value_S.
    destruct (skip_ws s) as [| c r]; [discriminate |].
    destruct (c =? 123).
    { destruct (skip_ws r) as [| c' r']; [discriminate |].
      destruct (c' =? 125).
      - intros [= <- _]. constructor; [split; constructor | constructor].
      - intros H. apply (IHm _ _ _ _ H). constructor; [split; constructor | constructor]. }
    destruct (c =? 91).
    { destruct (skip_ws r) as [| c' r']; [discriminate |].
      destruct (c' =? 93).
      - intros [= <- _]. constructor. constructor.
      - intros H. apply (IHe _ _ _ _ H). constructor. }
    destruct (c =? 34).
    { destruct (string_chars r) as [[str rest'] |]; [| discriminate].
      intros [= <- _]. constructor. }
    apply parse_literal_parsed.
  - intros s acc v rest. rewrite parse_elements_S.
    destruct (parse_value f s) as [[x r] |] eqn:Hx; [| discriminate].
    apply IHv in Hx.
    destruct (skip_ws r) as [| c r']; [discriminate |].
    destruct (c =? 44).
    { intros H Hacc. apply (IHe _ _ _ _ H). now constructor. }
    destruct (c =? 93); [| discriminate].
    intros [= <- _] Hacc. constructor. cbn [rev].
    apply Forall_app. split; [now apply Forall_rev | now constructor].
  - intros s acc v rest. rewrite parse_members_S.
    destruct (skip_ws s) as [| c r]; [discriminate |].
    destruct (c =? 34); [| discriminate].
    destruct (string_chars r) as [[k r1] |]; [| discriminate].
    destruct (skip_ws r1) as [| c1 r2]; [discriminate |].
    destruct (c1 =? 58); [| discriminate].
    destruct (parse_value f r2) as [[x r3] |] eqn:Hx; [| discriminate].
    apply IHv in Hx.
    destruct (skip_ws r3) as [| c3 r4]; [discriminate |].
    destruct (c3 =? 44).
    { intros H Hacc. apply (IHm _ _ _ _ H). now apply parsed_define. }
    destruct (c3 =? 125); [| discriminate].
    intros [= <- _] Hacc. now apply parsed_define.
Qed.

Lemma JSON_parse_parsed (text : jsstring) (v : json) : JSON_parse text = Some v -> parsed v.
Proof.
  unfold JSON_parse.
  destruct (parse_value (S (List.length text)) text) as [[x rest] |] eqn:Hx; [| discriminate].
  destruct (skip_ws rest); [| discriminate].
  intros [= <-]. exact (proj1 (parse_builds_parsed _) _ _ _ Hx).
Qed.

Lemma reparsed_binary64 (x : Number.number) : binary64 x -> reparsed x = written_number x.
Proof.
  destruct x as [| neg | neg m e]; [reflexivity | reflexivity |].
  intros Hx. destruct m as [| p]; [reflexivity |].
  unfold reparsed. cbn [Number.is_finite written_number].
  pose proof (to_string_reads_back neg (Npos p) e [] Hx ltac:(discriminate) I) as H.
  rewrite app_nil_r in H. now rewrite H.
Qed.

Lemma insert_index_last {A : Type} (l : list (jsstring * A)) (i : N) (k : jsstring) (v : A) :
  Forall (fun kv => may_precede (fst kv) k = true) l -> array_index k = Some i ->
  insert_index l i k v = l ++ [(k, v)].
Proof.
  intros Hl Hk. induction Hl as [| [k' v'] l Hx Hl IH]; [reflexivity |].
  cbn [fst] in Hx. destruct (may_precede_index k' k i Hk Hx) as (j & Hj & Hlt).
  simpl. rewrite Hj. apply N.ltb_lt in Hlt. rewrite Hlt. now rewrite IH.
Qed.

Lemma keys_ordered_app (a b : list jsstring) :
  keys_ordered (a ++ b) ->
  keys_ordered a /\ forall x y, In x a -> In y b -> may_precede x y = true.
Proof.
  induction a as [| k a IH]; simpl; [intros _; split; [exact I | contradiction] |].
  intros [Hfirst Hord]. apply Forall_app in Hfirst as [Ha Hb].
  destruct (IH Hord) as [Hord' Hcross]. split; [now split |].
  intros x y [<- | Hx] Hy; [| now apply Hcross].
  rewrite Forall_forall in Hb. now apply Hb.
Qed.

(** Defining the properties of an object again, in the order of its own
    keys, gives the same object. *)
Lemma define_again (g : json -> json) (l : list (jsstring * json)) :
  forall acc, own_keys (map fst (acc ++ l)) ->
    fold_left (fun acc kv => CreateDataProperty acc (fst kv) (g (snd kv))) l acc
    = acc ++ map (fun kv => (fst kv, g (snd kv))) l.
Proof.
  induction l as [| [k v] l IH]; intros acc Hown; simpl; [now rewrite app_nil_r |].
  assert (Hstep : CreateDataProperty acc k (g v) = acc ++ [(k, g v)]).
  { destruct Hown as [Hnd Hord]. rewrite map_app in Hnd, Hord. simpl in Hnd, Hord.
    unfold CreateDataProperty.
    assert (Hhas : has acc k = false).
    { apply has_false_not_in. intros Hin. apply NoDup_remove_2 in Hnd. apply Hnd.
      apply in_or_app. now left. }
    rewrite Hhas. destruct (array_index k) as [i |] eqn:Hk; [| reflexivity].
    apply insert_index_last; [| assumption].
    apply keys_ordered_app in Hord as [_ Hcross].
    apply Forall_forall. intros kv Hin. apply Hcross; [| now left].
    apply in_map_iff. now exists kv. }
  rewrite Hstep, IH.
  - now rewrite <- app_assoc.
  - rewrite <- app_assoc. simpl. rewrite !map_app in *. simpl in *. exact Hown.
Qed.

(** On a parsed value, what [JSON.parse] makes of the text of
    [JSON.stringify] is the value itself, its numbers as a text keeps
    them. *)
Lemma normalize_parsed (v : json) : parsed v -> normalize v = written_value v.
Proof.
  induction v as [| b | x | s | l IH | l IH] using json_induction; intros Hv;
    try reflexivity.
  - inversion Hv; subst. now apply reparsed_binary64.
  - inversion Hv as [| | | | l' Hl |]; subst. simpl. f_equal. clear Hv.
    induction l as [| a l IHl]; [reflexivity |].
    inversion IH; inversion Hl; subst. simpl. f_equal; auto.
  - inversion Hv as [| | | | | l' Hkeys Hvals]; subst. cbn [normalize written_value]. f_equal.
    rewrite (define_again normalize l [] Hkeys). simpl.
    clear Hkeys Hv. induction l as [| a l IHl]; [reflexivity |].
    inversion IH; inversion Hvals; subst. simpl. f_equal; [f_equal |]; auto.
Qed.

Lemma to_string_written (x : Number.number) :
  JSON_stringify (written_number x) = JSON_stringify (JNumber x).
Proof. destruct x as [| neg | neg [| p] e]; reflexivity. Qed.

Lemma stringify_written (v : json) : JSON_stringify (written_value v) = JSON_stringify v.
Proof.
  induction v as [| b | x | s | l IH | l IH] using json_induction; try reflexivity.
  - apply to_string_written.
  - cbn [written_value]. rewrite !stringify_array.
    assert (H : map JSON_stringify (map written_value l) = map JSON_stringify l).
    { induction IH as [| a l Ha _ IHl]; [reflexivity |]. simpl. now rewrite Ha, IHl. }
    now rewrite H.
  - cbn [written_value]. rewrite !stringify_object.
    assert (H : map member_text (map (fun kv => (fst kv, written_value (snd kv))) l)
                = map member_text l).
    { induction IH as [| a l Ha _ IHl]; [reflexivity |].
      simpl. unfold member_text at 1 3. cbn [fst snd]. now rewrite Ha, IHl. }
    now rewrite H.
Qed.

(** X9.  The body of a success is the upstream value, and it is stable.  For
    an upstream body that parses to [data], the body of the 200 response,
    [JSON.stringify(data)], parses to [data] itself, with [0] for [-0] and
    [null] for a number beyond the binary64 range; strings, booleans, the
    other numbers, the order of the elements and of the keys are the ones of
    [data].  Writing that value out again gives the same body: a response
    that goes through the handler a second time comes out unchanged. *)
Theorem success_body_is_the_upstream_value (raw : jsstring) (data : json) :
  JSON_parse raw = Some data ->
  JSON_parse (body (success data)) = Some (written_value data)
  /\ JSON_stringify (written_value data) = body (success data).
Proof.
  intros Hp. cbn [success body]. split.
  - rewrite JSON_parse_stringify. f_equal. apply normalize_parsed.
    exact (JSON_parse_parsed raw data Hp).
  - apply stringify_written.
Qed.

Lemma success_body_is_the_upstream_value_witness :
  exists data,
    JSON_parse (jsq "{'b':-0,'10':[0.1,1e999],'2':'y'}") = Some data
    /\ JSON_parse (body (success data)) = Some (written_value data)
    /\ JSON_stringify (written_value data) = body (success data).
Proof.
  eexists. split; [vm_compute; reflexivity |].
  apply (success_body_is_the_upstream_value (jsq "{'b':-0,'10':[0.1,1e999],'2':'y'}")).
  vm_compute. reflexivity.
Defined.

(** X10.  Numbers pass through unchanged.  The text [JSON.stringify] writes for
    a finite binary64 number other than zero is read back by [JSON.parse]
    as that very number: Number::toString always finds digits, seventeen at
    most, that round to the value. *)
Theorem numbers_are_read_back (neg : bool) (m : N) (e : Z) :
  binary64 (Number.Finite neg m e) -> m <> 0 ->
  JSON_parse (JSON_stringify (JNumber (Number.Finite neg m e)))
  = Some (JNumber (Number.Finite neg m e)).
Proof.
  intros Hx Hm. rewrite JSON_parse_stringify. cbn [normalize].
  rewrite (reparsed_binary64 _ Hx). destruct m; [contradiction | reflexivity].
Qed.

Lemma numbers_are_read_back_witness :
  JSON_parse (JSON_stringify (JNumber (Number.Finite true 7205759403792794 (-56))))
  = Some (JNumber (Number.Finite true 7205759403792794 (-56)))
  /\ JSON_stringify (JNumber (Number.Finite true 7205759403792794 (-56))) = js "-0.1".
Proof.
  split; [| vm_compute; reflexivity].
  apply numbers_are_read_back; [cbn; lia | discriminate].
Defined.

(** X11.  What [JSON.parse] returns for the upstream body: at every depth, the
    numbers are binary64 values and no object has a key twice; the keys of
    an object stand in the order of its own keys, the array indices first
    and ascending; and reading a key of the object gives the value that is
    stored with it. *)
Theorem upstream_value_is_well_formed (raw : jsstring) (data : json) :
  JSON_parse raw = Some data ->
  parsed data
  /\ forall l, data = JObject l ->
       NoDup (map fst l) /\ keys_ordered (map fst l)
       /\ forall k v, In (k, v) l -> get l k = Some v.
Proof.
  intros Hp. pose proof (JSON_parse_parsed raw data Hp) as Hd. split; [exact Hd |].
  intros l ->. inversion Hd as [| | | | | l' [Hnd Hord] Hvals]; subst.
  split; [exact Hnd | split; [exact Hord |]].
  clear Hd Hord Hvals Hp. induction l as [| [k' v'] l IH]; intros k v Hin; [contradiction |].
  simpl in Hnd. apply NoDup_cons_iff in Hnd as [Hfresh Hnd]. simpl.
  destruct Hin as [[= -> ->] | Hin]; [now rewrite str_eqb_refl |].
  destruct (str_eqb k' k) eqn:Hk; [| now apply IH].
  exfalso. apply str_eqb_eq in Hk. subst k'. apply Hfresh.
  apply in_map_iff. now exists (k, v).
Qed.

Lemma upstream_value_is_well_formed_witness :
  exists data,
    JSON_parse (jsq "{'message':'first','10':1,'2':2,'message':'last'}") = Some data
    /\ data = JObject [(js "2", JNumber (Number.Finite false 4503599627370496 (-51)));
                       (js "10", JNumber (Number.Finite false 4503599627370496 (-52)));
                       (js "message", JString (js "last"))]
    /\ parsed data.
Proof.
  eexists. split; [vm_compute; reflexivity |]. split; [reflexivity |].
  apply (upstream_value_is_well_formed
           (jsq "{'message':'first','10':1,'2':2,'message':'last'}")).
  vm_compute. reflexivity.
Defined.

(** ** Success (C7) *)

Lemma written_number_kept (x : Number.number) :
  binary64 x -> keeps_numbers (JNumber x) = true -> written_number x = JNumber x.
Proof.
  destruct x as [| neg | neg [| p] e]; try discriminate; [| reflexivity].
  intros (_ & _ & [H | ->]) Hk; [cbn in H; lia |].
  destruct neg; [discriminate | reflexivity].
Qed.

(** A parsed value without such numbers is the value a JSON text keeps. *)
Lemma written_value_kept (v : json) :
  parsed v -> keeps_numbers v = true -> written_value v = v.
Proof.
  induction v as [| b | x | s | l IH | l IH] using json_induction; intros Hv Hk;
    try reflexivity.
  - inversion Hv; subst. now apply written_number_kept.
  - inversion Hv as [| | | | l' Hl |]; subst. cbn [written_value keeps_numbers] in *.
    f_equal. clear Hv.
    induction l as [| a l IHl]; [reflexivity |].
    cbn [forallb] in Hk. apply andb_true_iff in Hk as [Ha Hk].
    cbn [map]. f_equal.
    + exact (Forall_inv IH (Forall_inv Hl) Ha).
    + apply IHl; [exact (Forall_inv_tail IH) | assumption | exact (Forall_inv_tail Hl)].
  - inversion Hv as [| | | | | l' Hkeys Hl]; subst. cbn [written_value keeps_numbers] in *.
    f_equal. clear Hv Hkeys.
    induction l as [| [k a] l IHl]; [reflexivity |].
    cbn [forallb snd] in Hk. apply andb_true_iff in Hk as [Ha Hk].
    cbn [map fst snd]. f_equal.
    + f_equal. exact (Forall_inv IH (Forall_inv Hl) Ha).
    + apply IHl; [exact (Forall_inv_tail IH) | assumption | exact (Forall_inv_tail Hl)].
Qed.

(** C7, as the code has it.  For an upstream response with a 2xx status
    whose body parses as JSON, the handler of either source file returns
    status 200, whatever the 2xx status was, and [JSON.stringify] of the
    parsed body as the body.  That body is a JSON text: it parses to the
    parsed body with [0] for [-0] and [null] for a number beyond the
    binary64 range, all else as it was, and to the parsed body itself when
    it holds no such number; writing the value it parses to gives the same
    body again. *)
Theorem C7_success (E : engine) (env : process_env) (ev : event)
  (q : list (jsstring * jsstring)) (d : jsstring) (w : request -> completion Response)
  (r : Response) (raw : jsstring) (data : json) :
  queryStringParameters ev = Some q ->
  get q (js "datasetId") = Some d ->
  d <> [] ->
  w (upstream_request env (Some d) (rest_properties q (js "datasetId"))) = Normal r ->
  text r = Normal raw ->
  JSON_parse raw = Some data ->
  200 <= status r <= 299 ->
  let reply :=
    ([upstream_request env (Some d) (rest_properties q (js "datasetId"))],
     Normal {| statusCode := 200;
               headers := json_cors_headers;
               body := JSON_stringify data |}) in
  run w (Part000.handler E env ev) = reply
  /\ run w (CwaProxy.handler E env ev) = reply
  /\ JSON_parse (JSON_stringify data) = Some (written_value data)
  /\ JSON_stringify (written_value data) = JSON_stringify data
  /\ (keeps_numbers data = true -> JSON_parse (JSON_stringify data) = Some data).
Proof.
  intros Hq Hg Hd Hw Ht Hp Hst reply.
  pose proof (handlers_run_parsed E env ev q d w r raw data Hq Hg Hd Hw Ht Hp) as Hrun.
  cbv zeta in Hrun.
  assert (Hok : ok r = true).
  { unfold ok. apply andb_true_iff. split; apply N.leb_le; lia. }
  rewrite Hok in Hrun. destruct Hrun as [H1 H2].
  pose proof (JSON_parse_parsed raw data Hp) as Hdata.
  assert (Hback : JSON_parse (JSON_stringify data) = Some (written_value data)).
  { rewrite JSON_parse_stringify. f_equal. now apply normalize_parsed. }
  split; [exact H1 | split; [exact H2 | split; [exact Hback | split]]].
  - apply stringify_written.
  - intros Hk. rewrite Hback. f_equal. now apply written_value_kept.
Qed.

(** The example of the specification, upstream 200 with body
    [{"foo":"bar"}]: the body of the response is that text, and it parses
    to the parsed body. *)
Lemma C7_witness :
  let reply :=
    ([upstream_request sample_env (Some (js "F-C0032-001")) [(js "locationName", [33274; 21271])]],
     Normal {| statusCode := 200;
               headers := json_cors_headers;
               body := jsq "{'foo':'bar'}" |}) in
  run (answers 200 (jsq "{'foo':'bar'}")) (Part000.handler sample_engine sample_env sample_event)
  = reply
  /\ run (answers 200 (jsq "{'foo':'bar'}")) (CwaProxy.handler sample_engine sample_env sample_event)
     = reply
  /\ JSON_parse (jsq "{'foo':'bar'}") = Some (JObject [(js "foo", JString (js "bar"))]).
Proof.
  pose proof (C7_success sample_engine sample_env sample_event
                [(js "datasetId", js "F-C0032-001"); (js "locationName", [33274; 21271])]
                (js "F-C0032-001") (answers 200 (jsq "{'foo':'bar'}"))
                {| status := 200; statusText := []; text := Normal (jsq "{'foo':'bar'}") |}
                (jsq "{'foo':'bar'}") (JObject [(js "foo", JString (js "bar"))])
                eq_refl eq_refl ltac:(discriminate) eq_refl eq_refl
                ltac:(vm_compute; reflexivity) ltac:(simpl; lia)) as (H1 & H2 & _ & _ & H5).
  split; [exact H1 | split; [exact H2 | exact (H5 eq_refl)]].
Defined.

(** C7 fails as stated.  A JSON text has no way to write an infinity or
    [-0]: for the upstream body [[1e400,-0]], which parses to the array of
    [Infinity] and [-0], the body of the response is [[null,0]], and that
    is not the parsed body. *)
Lemma C7_number_counterexample :
  JSON_parse (js "[1e400,-0]")
  = Some (JArray [JNumber (Number.Infinity false); JNumber (Number.Finite true 0 (-1074))])
  /\ snd (run (answers 200 (js "[1e400,-0]"))
            (Part000.handler sample_engine sample_env sample_event))
     = Normal {| statusCode := 200; headers := json_cors_headers; body := js "[null,0]" |}
  /\ snd (run (answers 200 (js "[1e400,-0]"))
            (CwaProxy.handler sample_engine sample_env sample_event))
     = Normal {| statusCode := 200; headers := json_cors_headers; body := js "[null,0]" |}
  /\ JSON_parse (js "[null,0]")
     = Some (JArray [JNull; JNumber (Number.Finite false 0 (-1074))])
  /\ JSON_parse (js "[null,0]") <> JSON_parse (js "[1e400,-0]").
Proof.
  repeat split; try (vm_compute; reflexivity). vm_compute. discriminate.
Qed.

(** ** Member names that are repeated *)

Lemma get_app {A : Type} (a b : list (jsstring * A)) (k : jsstring) :
  get (a ++ b) k = match get a k with Some v => Some v | None => get b k end.
Proof.
  induction a as [| [k' v'] a IH]; simpl; [reflexivity |].
  destruct (str_eqb k' k); [reflexivity | exact IH].
Qed.

Lemma get_define_all (g : json -> json) (l : list (jsstring * json)) :
  forall acc k,
    get (fold_left (fun acc kv => CreateDataProperty acc (fst kv) (g (snd kv))) l acc) k
    = match get (rev l) k with
      | Some v => Some (g v)
      | None => get acc k
      end.
Proof.
  induction l as [| [k0 v0] l IH]; intros acc k; [reflexivity |].
  cbn [fold_left rev fst snd]. rewrite IH, get_app, defined_property_is_read_back.
  destruct (get (rev l) k); [reflexivity |].
  simpl. destruct (str_eqb k0 k); reflexivity.
Qed.

(** X12.  The last member wins.  For the text [JSON.stringify] lays out for the
    members [l] of an object, in this order and with names repeated or not,
    [JSON.parse] returns an object in which every name reads what the last
    member of that name holds: of an upstream body with two [message]
    members the handler reads the second. *)
Theorem last_member_wins (l : list (jsstring * json)) (k : jsstring) :
  exists l',
    JSON_parse (JSON_stringify (JObject l)) = Some (JObject l')
    /\ get l' k = option_map normalize (get (rev l) k).
Proof.
  exists (fold_left (fun acc kv => CreateDataProperty acc (fst kv) (normalize (snd kv))) l []).
  split; [now rewrite JSON_parse_stringify |].
  rewrite get_define_all. now destruct (get (rev l) k).
Qed.

(** ** One request, whatever the answer *)

(** X13.  The requests of a run do not depend on what the upstream answers:
    there is one request when a [datasetId] is given and none otherwise,
    the same in both source files; a failure is never retried and a success
    is never followed up. *)
Theorem no_retry_no_follow_up (E : engine) (env : process_env) (ev : event)
  (w1 w2 : request -> completion Response) :
  fst (run w1 (Part000.handler E env ev)) = fst (run w2 (Part000.handler E env ev))
  /\ fst (run w1 (CwaProxy.handler E env ev)) = fst (run w1 (Part000.handler E env ev))
  /\ fst (run w2 (CwaProxy.handler E env ev)) = fst (run w1 (Part000.handler E env ev))
  /\ fst (run w1 (Part000.handler E env ev))
     = match queryStringParameters ev with
       | Some q =>
           if falsy (get q (js "datasetId")) then []
           else [upstream_request env (get q (js "datasetId"))
                   (rest_properties q (js "datasetId"))]
       | None => []
       end.
Proof.
  destruct (queryStringParameters ev) as [q |] eqn:Hq.
  - destruct (falsy (get q (js "datasetId"))) eqn:Hd.
    + unfold Part000.handler, CwaProxy.handler. rewrite Hq. cbv zeta. rewrite Hd.
      repeat split.
    + rewrite !(Part000_handler_run E env ev q _ Hq Hd),
        !(CwaProxy_handler_run E env ev q _ Hq Hd).
      repeat split.
  - unfold Part000.handler, CwaProxy.handler. rewrite Hq. repeat split.
Qed.

(** ** The status and the body of what is forwarded *)

(** X6.  The statuses the handler answers with: 200, the 400 of the
    validation, 500, or the status of an upstream response that is not 2xx;
    the handler makes up no other status, and passes no 2xx status on but as
    200. *)
Theorem statuses_of_the_response (E : engine) (env : process_env) (ev : event)
  (w : request -> completion Response) (calls : list request) (r : response) :
  run w (Part000.handler E env ev) = (calls, Normal r)
  \/ run w (CwaProxy.handler E env ev) = (calls, Normal r) ->
  statusCode r = 200
  \/ (statusCode r = 400 /\ calls = [])
  \/ statusCode r = 500
  \/ (exists rq R, calls = [rq] /\ w rq = Normal R /\ ok R = false
                   /\ statusCode r = status R).
Proof.
  destruct (queryStringParameters ev) as [q |] eqn:Hq.
  - destruct (falsy (get q (js "datasetId"))) eqn:Hd.
    + unfold Part000.handler, CwaProxy.handler. rewrite Hq. cbv zeta. rewrite Hd. cbn [run].
      intros [[= <- <-] | [= <- <-]]; right; left; split; reflexivity.
    + rewrite (Part000_handler_run E env ev q w Hq Hd), (CwaProxy_handler_run E env ev q w Hq Hd).
      rewrite Part000_try_block_run, CwaProxy_try_block_run. cbn [snd].
      set (rq := upstream_request env _ _).
      intros H.
      destruct (w rq) as [R | e] eqn:Hw.
      2: { destruct H as [[= <- <-] | [= <- <-]]; right; right; left; reflexivity. }
      destruct (text R) as [raw | e].
      2: { destruct H as [[= <- <-] | [= <- <-]]; right; right; left; reflexivity. }
      destruct (JSON_parse raw) as [data |].
      2: { destruct H as [[= <- <-] | [= <- <-]]; right; right; left; reflexivity. }
      destruct (ok R) eqn:Hok.
      { destruct H as [[= <- <-] | [= <- <-]]; left; reflexivity. }
      destruct (cwa_error_text E R data) as [t | e].
      * destruct H as [[= <- <-] | [= <- <-]]; right; right; right;
          exists rq, R; repeat split; assumption.
      * destruct H as [[= <- <-] | [= <- <-]]; right; right; left; reflexivity.
  - unfold Part000.handler, CwaProxy.handler. rewrite Hq. cbn [run].
    intros [[=] | [=]].
Qed.

Lemma statuses_of_the_response_witness :
  exists calls r,
    run (answers 204 (jsq "{'foo':'bar'}")) (Part000.handler sample_engine sample_env sample_event)
    = (calls, Normal r)
    /\ (statusCode r = 200
        \/ (statusCode r = 400 /\ calls = [])
        \/ statusCode r = 500
        \/ (exists rq R, calls = [rq] /\ answers 204 (jsq "{'foo':'bar'}") rq = Normal R
                         /\ ok R = false /\ statusCode r = status R)).
Proof.
  eexists. eexists. split; [vm_compute; reflexivity |].
  apply (statuses_of_the_response sample_engine sample_env sample_event
           (answers 204 (jsq "{'foo':'bar'}"))).
  left. vm_compute. reflexivity.
Defined.

(** X8.  What a forwarded error carries.  When the upstream answers with a
    non-2xx status and a body that parses to [data], and the error text can
    be built, the body of the response parses to an object of two members:
    [error], the text, and [cwa_response], which is [data] itself (with [0]
    for [-0] and [null] for a number beyond the binary64 range). *)
Theorem forwarded_error_carries_the_upstream_value (E : engine) (env : process_env)
  (ev : event) (q : list (jsstring * jsstring)) (d : jsstring)
  (w : request -> completion Response) (r : Response) (raw : jsstring) (data : json) :
  queryStringParameters ev = Some q ->
  get q (js "datasetId") = Some d ->
  d <> [] ->
  w (upstream_request env (Some d) (rest_properties q (js "datasetId"))) = Normal r ->
  text r = Normal raw ->
  JSON_parse raw = Some data ->
  ok r = false ->
  message_converts data = true ->
  exists resp t,
    snd (run w (Part000.handler E env ev)) = Normal resp
    /\ snd (run w (CwaProxy.handler E env ev)) = Normal resp
    /\ statusCode resp = status r
    /\ cwa_error_text E r data = Normal t
    /\ JSON_parse (body resp)
       = Some (JObject [(js "error", JString t); (js "cwa_response", written_value data)]).
Proof.
  intros Hq Hg Hd Hw Ht Hp Hok Hm.
  destruct (handlers_run_parsed E env ev q d w r raw data Hq Hg Hd Hw Ht Hp) as [H1 H2].
  cbv zeta in H1, H2. rewrite H1, H2, Hok. cbn [snd].
  pose proof (cwa_error_text_cases E r data) as Hc. rewrite Hm in Hc.
  destruct Hc as [t Hc]. rewrite Hc. cbn [map_completion caught].
  exists (upstream_error_response r t data), t.
  repeat split; try reflexivity.
  cbn [upstream_error_response body]. rewrite parse_upstream_envelope.
  now rewrite (normalize_parsed data (JSON_parse_parsed raw data Hp)).
Qed.

Lemma forwarded_error_carries_the_upstream_value_witness :
  exists resp t,
    snd (run (answers 404 (jsq "{'message':'not found','code':-0}"))
           (Part000.handler sample_engine sample_env sample_event)) = Normal resp
    /\ statusCode resp = 404
    /\ t = js "CWA API error (404): not found"
    /\ JSON_parse (body resp)
       = Some (JObject [(js "error", JString t);
                        (js "cwa_response",
                         JObject [(js "message", JString (js "not found"));
                                  (js "code", JNumber (Number.Finite false 0 (-1074)))])]).
Proof.
  destruct (forwarded_error_carries_the_upstream_value sample_engine sample_env sample_event
              [(js "datasetId", js "F-C0032-001"); (js "locationName", [33274; 21271])]
              (js "F-C0032-001") (answers 404 (jsq "{'message':'not found','code':-0}"))
              {| status := 404; statusText := [];
                 text := Normal (jsq "{'message':'not found','code':-0}") |}
              (jsq "{'message':'not found','code':-0}")
              (JObject [(js "message", JString (js "not found"));
                        (js "code", JNumber (Number.Finite true 0 (-1074)))])
              eq_refl eq_refl ltac:(discriminate) eq_refl eq_refl
              ltac:(vm_compute; reflexivity) eq_refl eq_refl)
    as (resp & t & H1 & _ & H3 & H4 & H5).
  exists resp, t. split; [exact H1 |]. split; [exact H3 |]. split; [| exact H5].
  vm_compute in H4. now injection H4 as <-.
Defined.

(** ** White space around the upstream body *)

Lemma blank_head (t : jsstring) :
  blank t -> match t with c :: _ => is_ws c = true | [] => True end.
Proof. intros H. destruct t; [exact I | now apply Forall_inv in H]. Qed.

Lemma is_ws_not_digit (c : N) : is_ws c = true -> is_digit c = false.
Proof.
  unfold is_ws, is_digit. intros H.
  repeat (apply orb_true_iff in H; destruct H as [H | H]);
    apply N.eqb_eq in H; subst; reflexivity.
Qed.

Lemma is_ws_cases (c : N) : is_ws c = true -> c = 9 \/ c = 10 \/ c = 13 \/ c = 32.
Proof.
  unfold is_ws. intros H.
  repeat (apply orb_true_iff in H; destruct H as [H | H]); apply N.eqb_eq in H; auto.
Qed.

Lemma skip_ws_blank (t : jsstring) : blank t -> skip_ws t = [].
Proof. induction 1 as [| c t Hc _ IH]; simpl; [reflexivity | now rewrite Hc]. Qed.

Lemma skip_ws_leading (ws s : jsstring) : blank ws -> skip_ws (ws ++ s) = skip_ws s.
Proof. induction 1 as [| c t Hc _ IH]; simpl; [reflexivity | now rewrite Hc]. Qed.

Lemma skip_ws_suffix (s t : jsstring) :
  blank t ->
  skip_ws (s ++ t) = match skip_ws s with [] => [] | c :: r => c :: r ++ t end.
Proof.
  intros Ht. induction s as [| c s IH]; simpl; [now apply skip_ws_blank |].
  destruct (is_ws c); [exact IH | reflexivity].
Qed.

Lemma scan_digits_suffix (s t : jsstring) :
  blank t -> scan_digits (s ++ t) = (fst (scan_digits s), snd (scan_digits s) ++ t).
Proof.
  intros Ht. induction s as [| c s IH]; simpl.
  - destruct t as [| c t]; [reflexivity |].
    apply blank_head in Ht. simpl. now rewrite (is_ws_not_digit c Ht).
  - destruct (is_digit c); [| reflexivity].
    rewrite IH. now destruct (scan_digits s).
Qed.

Lemma scan_int_suffix (s t : jsstring) (int rest : jsstring) :
  blank t -> scan_int s = Some (int, rest) -> scan_int (s ++ t) = Some (int, rest ++ t).
Proof.
  intros Ht. destruct s as [| c s]; [discriminate |]. simpl.
  destruct (c =? 48); [now intros [= <- <-] |].
  destruct (is_digit c); [| discriminate].
  rewrite (scan_digits_suffix s t Ht). destruct (scan_digits s) as [ds r].
  now intros [= <- <-].
Qed.

Lemma scan_frac_suffix (s t : jsstring) (frac rest : jsstring) :
  blank t -> scan_frac s = Some (frac, rest) -> scan_frac (s ++ t) = Some (frac, rest ++ t).
Proof.
  intros Ht. destruct s as [| c s].
  - intros [= <- <-]. simpl. destruct t as [| c t]; [reflexivity |].
    apply blank_head in Ht. simpl.
    destruct (is_ws_cases c Ht) as [-> | [-> | [-> | ->]]]; reflexivity.
  - simpl. destruct (c =? 46); [| now intros [= <- <-]].
    rewrite (scan_digits_suffix s t Ht). destruct (scan_digits s) as [ds r]. cbn [fst snd].
    destruct ds; [discriminate | now intros [= <- <-]].
Qed.

Lemma scan_sign_suffix (s t : jsstring) :
  blank t -> scan_sign (s ++ t) = (fst (scan_sign s), snd (scan_sign s) ++ t).
Proof.
  intros Ht. destruct s as [| d s]; simpl.
  - destruct t as [| c t]; [reflexivity |].
    apply blank_head in Ht. simpl.
    destruct (is_ws_cases c Ht) as [-> | [-> | [-> | ->]]]; reflexivity.
  - destruct (d =? 45); [reflexivity |]. destruct (d =? 43); reflexivity.
Qed.

Lemma scan_exp_suffix (s t : jsstring) (x : Z) (rest : jsstring) :
  blank t -> scan_exp s = Some (x, rest) -> scan_exp (s ++ t) = Some (x, rest ++ t).
Proof.
  intros Ht. destruct s as [| c s].
  - intros [= <- <-]. simpl. destruct t as [| c t]; [reflexivity |].
    apply blank_head in Ht. simpl.
    destruct (is_ws_cases c Ht) as [-> | [-> | [-> | ->]]]; reflexivity.
  - simpl. destruct ((c =? 101) || (c =? 69)); [| now intros [= <- <-]].
    rewrite (scan_sign_suffix s t Ht). destruct (scan_sign s) as [neg r1]. cbn [fst snd].
    rewrite (scan_digits_suffix r1 t Ht). destruct (scan_digits r1) as [ds r]. cbn [fst snd].
    destruct ds; [discriminate | now intros [= <- <-]].
Qed.

Lemma parse_number_suffix (s t : jsstring) (x : Number.number) (rest : jsstring) :
  blank t -> parse_number s = Some (x, rest) -> parse_number (s ++ t) = Some (x, rest ++ t).
Proof.
  intros Ht.
  assert (H : forall neg u, parse_unsigned neg u = Some (x, rest) ->
                            parse_unsigned neg (u ++ t) = Some (x, rest ++ t)).
  { intros neg u. unfold parse_unsigned.
    destruct (scan_int u) as [[int s2] |] eqn:Hi; [| discriminate].
    rewrite (scan_int_suffix u t int s2 Ht Hi).
    destruct (scan_frac s2) as [[frac s3] |] eqn:Hf; [| discriminate].
    rewrite (scan_frac_suffix s2 t frac s3 Ht Hf).
    destruct (scan_exp s3) as [[ex s4] |] eqn:Hx; [| discriminate].
    rewrite (scan_exp_suffix s3 t ex s4 Ht Hx).
    now intros [= <- <-]. }
  unfold parse_number. destruct s as [| c r]; [discriminate |].
  simpl. destruct (c =? 45); apply H.
Qed.

Lemma strip_prefix_suffix (p s t rest : jsstring) :
  strip_prefix p s = Some rest -> strip_prefix p (s ++ t) = Some (rest ++ t).
Proof.
  revert s. induction p as [| a p IH]; intros s; simpl; [now intros [= <-] |].
  destruct s as [| b s]; [discriminate |]. simpl.
  destruct (a =? b); [apply IH | discriminate].
Qed.

Lemma strip_prefix_cons (a : N) (p : jsstring) (b : N) (s : jsstring) :
  strip_prefix (a :: p) (b :: s) = if a =? b then strip_prefix p s else None.
Proof. reflexivity. Qed.

Lemma parse_literal_suffix (s t : jsstring) (v : json) (rest : jsstring) :
  blank t -> parse_literal s = Some (v, rest) -> parse_literal (s ++ t) = Some (v, rest ++ t).
Proof.
  intros Ht. destruct s as [| c s]; [discriminate |].
  unfold parse_literal. rewrite <- app_comm_cons.
  change (js "true") with (116 :: js "rue"). change (js "false") with (102 :: js "alse").
  change (js "null") with (110 :: js "ull").
  rewrite !strip_prefix_cons.
  destruct (N.eqb_spec 116 c) as [<- | _].
  { destruct (strip_prefix (js "rue") s) as [r |] eqn:H1.
    - rewrite (strip_prefix_suffix _ _ t _ H1). now intros [= <- <-].
    - discriminate. }
  destruct (N.eqb_spec 102 c) as [<- | _].
  { destruct (strip_prefix (js "alse") s) as [r |] eqn:H1.
    - rewrite (strip_prefix_suffix _ _ t _ H1). now intros [= <- <-].
    - discriminate. }
  destruct (N.eqb_spec 110 c) as [<- | _].
  { destruct (strip_prefix (js "ull") s) as [r |] eqn:H1.
    - rewrite (strip_prefix_suffix _ _ t _ H1). now intros [= <- <-].
    - discriminate. }
  destruct (parse_number (c :: s)) as [[x r] |] eqn:Hn; [| discriminate].
  intros [= <- <-].
  change (c :: s ++ t) with ((c :: s) ++ t).
  now rewrite (parse_number_suffix (c :: s) t x r Ht Hn).
Qed.

Lemma string_chars_suffix_bounded (n : nat) (t : jsstring) :
  forall s str rest, (List.length s <= n)%nat ->
    string_chars s = Some (str, rest) -> string_chars (s ++ t) = Some (str, rest ++ t).
Proof.
  assert (Hcons : forall u o str rest (o' : option (jsstring * jsstring)),
            (forall str' , o = Some (str', rest) -> o' = Some (str', rest ++ t)) ->
            cons_unit u o = Some (str, rest) -> cons_unit u o' = Some (str, rest ++ t)).
  { intros u [[a b] |] str rest o' Ho; simpl; [| discriminate].
    intros [= <- <-]. now rewrite (Ho a eq_refl). }
  induction n as [| n IH]; intros s str rest Hn.
  - destruct s; [discriminate | simpl in Hn; lia].
  - destruct s as [| c r]; [discriminate |]. simpl in Hn.
    rewrite <- app_comm_cons. simpl string_chars.
    destruct (c =? 34); [now intros [= <- <-] |].
    destruct (c <? 32); [discriminate |].
    destruct (c =? 92).
    + destruct r as [| e r1]; [discriminate |]. rewrite <- app_comm_cons.
      destruct (e =? 117).
      * destruct r1 as [| h1 [| h2 [| h3 [| h4 r2]]]]; try discriminate.
        rewrite <- !app_comm_cons.
        destruct (hex4 h1 h2 h3 h4); [| discriminate].
        apply Hcons. intros str'. apply IH. simpl in Hn. lia.
      * destruct (simple_escape e); [| discriminate].
        apply Hcons. intros str'. apply IH. simpl in Hn. lia.
    + apply Hcons. intros str'. apply IH. lia.
Qed.

Lemma string_chars_suffix (s t str rest : jsstring) :
  string_chars s = Some (str, rest) -> string_chars (s ++ t) = Some (str, rest ++ t).
Proof. apply (string_chars_suffix_bounded (List.length s)). lia. Qed.

Lemma skip_ws_suffix_cons (s t : jsstring) (c : N) (r : jsstring) :
  blank t -> skip_ws s = c :: r -> skip_ws (s ++ t) = c :: r ++ t.
Proof. intros Ht H. now rewrite (skip_ws_suffix s t Ht), H. Qed.

(** White space after a value the parser reads stays in what is left. *)
Lemma parse_suffix (t : jsstring) (f : nat) :
  blank t ->
  (forall s v rest, parse_value f s = Some (v, rest) ->
     parse_value f (s ++ t) = Some (v, rest ++ t))
  /\ (forall s acc v rest, parse_elements f s acc = Some (v, rest) ->
        parse_elements f (s ++ t) acc = Some (v, rest ++ t))
  /\ (forall s acc v rest, parse_members f s acc = Some (v, rest) ->
        parse_members f (s ++ t) acc = Some (v, rest ++ t)).
Proof.
  intros Ht. induction f as [| f (IHv & IHe & IHm)].
  { repeat split; intros; discriminate. }
  split; [| split].
  - intros s v rest. rewrite !parse_value_S.
    destruct (skip_ws s) as [| c r] eqn:Hskip; [discriminate |].
    rewrite (skip_ws_suffix_cons s t c r Ht Hskip).
    destruct (c =? 123); [| destruct (c =? 91); [| destruct (c =? 34)]].
    + destruct (skip_ws r) as [| c' r'] eqn:Hskip2; [discriminate |].
      rewrite (skip_ws_suffix_cons r t c' r' Ht Hskip2).
      destruct (c' =? 125); [now intros [= <- <-] |].
      intros H. apply IHm in H. exact H.
    + destruct (skip_ws r) as [| c' r'] eqn:Hskip2; [discriminate |].
      rewrite (skip_ws_suffix_cons r t c' r' Ht Hskip2).
      destruct (c' =? 93); [now intros [= <- <-] |].
      intros H. apply IHe in H. exact H.
    + destruct (string_chars r) as [[str rest'] |] eqn:Hstr; [| discriminate].
      rewrite (string_chars_suffix r t str rest' Hstr). now intros [= <- <-].
    + intros H. apply (parse_literal_suffix (c :: r) t v rest Ht H).
  - intros s acc v rest. rewrite !parse_elements_S.
    destruct (parse_value f s) as [[v1 r1] |] eqn:Hv; [| discriminate].
    rewrite (IHv s v1 r1 Hv).
    destruct (skip_ws r1) as [| c r'] eqn:Hskip; [discriminate |].
    rewrite (skip_ws_suffix_cons r1 t c r' Ht Hskip).
    destruct (c =? 44); [apply IHe |].
    destruct (c =? 93); [now intros [= <- <-] | discriminate].
  - intros s acc v rest. rewrite !parse_members_S.
    destruct (skip_ws s) as [| c r] eqn:Hskip; [discriminate |].
    rewrite (skip_ws_suffix_cons s t c r Ht Hskip).
    destruct (c =? 34); [| discriminate].
    destruct (string_chars r) as [[k r1] |] eqn:Hstr; [| discriminate].
    rewrite (string_chars_suffix r t k r1 Hstr).
    destruct (skip_ws r1) as [| c1 r2] eqn:Hskip1; [discriminate |].
    rewrite (skip_ws_suffix_cons r1 t c1 r2 Ht Hskip1).
    destruct (c1 =? 58); [| discriminate].
    destruct (parse_value f r2) as [[v1 r3] |] eqn:Hv; [| discriminate].
    rewrite (IHv r2 v1 r3 Hv).
    destruct (skip_ws r3) as [| c3 r4] eqn:Hskip3; [discriminate |].
    rewrite (skip_ws_suffix_cons r3 t c3 r4 Ht Hskip3).
    destruct (c3 =? 44); [apply IHm |].
    destruct (c3 =? 125); [now intros [= <- <-] | discriminate].
Qed.

Lemma parse_value_leading (ws s : jsstring) (f : nat) :
  blank ws -> parse_value f (ws ++ s) = parse_value f s.
Proof.
  intros Hws. destruct f as [| f]; [reflexivity |].
  now rewrite !parse_value_S, (skip_ws_leading ws s Hws).
Qed.

Lemma JSON_parse_blanks (before after text : jsstring) (data : json) :
  blank before -> blank after ->
  JSON_parse text = Some data -> JSON_parse (before ++ text ++ after) = Some data.
Proof.
  intros Hb Ha. unfold JSON_parse.
  destruct (parse_value (S (List.length text)) text) as [[v rest] |] eqn:Hp; [| discriminate].
  destruct (skip_ws rest) eqn:Hrest; [| discriminate]. intros [= <-].
  rewrite (parse_value_leading before _ _ Hb).
  destruct (parse_fuel_stable (S (List.length text))) as (Hv & _ & _).
  destruct (Hv text v rest Hp) as [_ Hst].
  destruct (parse_suffix after (S (List.length (before ++ text ++ after))) Ha) as (Hs & _ & _).
  rewrite (Hs text v rest).
  - now rewrite (skip_ws_suffix rest after Ha), Hrest.
  - apply Hst. rewrite !length_app. lia.
Qed.

(** X5.  White space around the upstream body changes nothing.  When the
    upstream sends bodies that parse as JSON, tabs, line feeds, carriage
    returns and spaces before and after them (the line feed many servers end
    a body with) leave the request and the response of either handler as
    they are: same status, same headers, same body. *)
Theorem blanks_around_the_body_are_ignored (E : engine) (env : process_env) (ev : event)
  (w : request -> completion Response) (before after : jsstring) :
  blank before -> blank after ->
  (forall rq R raw, w rq = Normal R -> text R = Normal raw -> JSON_parse raw <> None) ->
  run (padded before after w) (Part000.handler E env ev) = run w (Part000.handler E env ev)
  /\ run (padded before after w) (CwaProxy.handler E env ev)
     = run w (CwaProxy.handler E env ev).
Proof.
  intros Hb Ha Hw.
  destruct (queryStringParameters ev) as [q |] eqn:Hq.
  - destruct (falsy (get q (js "datasetId"))) eqn:Hd.
    + unfold Part000.handler, CwaProxy.handler. rewrite Hq. cbv zeta. rewrite Hd.
      split; reflexivity.
    + rewrite !(Part000_handler_run E env ev q _ Hq Hd), !(CwaProxy_handler_run E env ev q _ Hq Hd).
      rewrite !Part000_try_block_run, !CwaProxy_try_block_run. cbn [snd].
      set (rq := upstream_request env _ _). unfold padded.
      destruct (w rq) as [R | e] eqn:HR; cbn [map_completion]; [| split; reflexivity].
      cbn [text]. destruct (text R) as [raw | e] eqn:Ht; cbn [map_completion];
        [| split; reflexivity].
      destruct (JSON_parse raw) as [data |] eqn:Hp; [| now destruct (Hw rq R raw HR Ht)].
      rewrite (JSON_parse_blanks before after raw data Hb Ha Hp).
      split; reflexivity.
  - unfold Part000.handler, CwaProxy.handler. rewrite Hq. split; reflexivity.
Qed.

Lemma blanks_around_the_body_are_ignored_witness :
  run (padded (js " ") [13; 10] (answers 200 (js "{}")))
      (Part000.handler sample_engine sample_env sample_event)
  = run (answers 200 (js "{}")) (Part000.handler sample_engine sample_env sample_event)
  /\ run (padded (js " ") [13; 10] (answers 200 (js "{}")))
         (CwaProxy.handler sample_engine sample_env sample_event)
     = run (answers 200 (js "{}")) (CwaProxy.handler sample_engine sample_env sample_event).
Proof.
  apply blanks_around_the_body_are_ignored.
  - repeat constructor.
  - repeat constructor.
  - intros rq R raw [= <-] [= <-]. discriminate.
Defined.

(** ** Samples of the runtime operations *)

(** Number values read from decimal digits and written by
    Number::toString: shortest digits, the exponent form from 1e21 on,
    rounding to the nearest binary64, the smallest subnormal, overflow. *)
Example Number_to_string_samples :
  map (fun dx => Number.to_string (Number.of_decimal false (fst dx) (snd dx)))
    [(1, (-1)%Z); (250, (-2)%Z); (1, 21%Z); (123, (-9)%Z); (9007199254740993, 0%Z);
     (5, (-324)%Z); (1, 400%Z)]
  = [js "0.1"; js "2.5"; js "1e+21"; js "1.23e-7"; js "9007199254740992"; js "5e-324";
     js "Infinity"].
Proof. vm_compute. reflexivity. Qed.

(** [JSON.parse] then [JSON.stringify]: white space goes, a repeated key
    keeps its first place and its last value, index keys come first in
    ascending order, numbers are written the shortest way, a lone surrogate
    is escaped. *)
Example JSON_samples :
  option_map JSON_stringify
    (JSON_parse (jsq " { 'b' : [1, 2.50, -0, 1e3, true, false, null, [], {}], '10' : 'x', '2' : '\ud83d\n', 'b' : 3 } "))
  = Some (jsq "{'2':'\ud83d\n','10':'x','b':3}")
  /\ option_map JSON_stringify (JSON_parse (jsq "[1e400, -1e400, 0.000001, 1e-7]"))
     = Some (jsq "[null,null,0.000001,1e-7]").
Proof. split; vm_compute; reflexivity. Qed.

(** Texts [JSON.parse] rejects. *)
Example JSON_parse_rejects :
  map JSON_parse
    [js "<html>error</html>"; js ""; js "[1,]"; jsq "{'a':1,}"; js "01"; js "1."; js "-";
     js "tru"; js "[1 2]"; jsq "{'a'}"; jsq "'\x'"; js "[[1]"; js "1 2"]
  = repeat None 13.
Proof. vm_compute. reflexivity. Qed.

(** The serializer of [URLSearchParams]: UTF-8, [+] for a space, letters,
    digits and [*-._] as they are, [%XX] for the rest. *)
Example URLSearchParams_samples :
  URLSearchParams_toString
    (URLSearchParams [(js "locationName", [33274; 21271]); (js "a b", js "1, 2&=/?~*-._");
                      (js "pair", [55357; 56832]); (js "lone", [55357])])
  = js "locationName=%E8%87%BA%E5%8C%97&a+b=1%2C+2%26%3D%2F%3F%7E*-._&pair=%F0%9F%98%80&lone=%EF%BF%BD".
Proof. vm_compute. reflexivity. Qed.

(** Template literals on parsed values. *)
Example ToString_samples :
  (forall v, JSON_parse (jsq "[1,null,[2,'x'],{},true]") = Some v ->
             ToString sample_engine v = Normal (js "1,,2,x,[object Object],true"))
  /\ (forall v, JSON_parse (jsq "{'toString':1}") = Some v ->
                ToString sample_engine v = Throw (mkError (to_primitive_message sample_engine))).
Proof. split; intros v [= <-]; vm_compute; reflexivity. Qed.
